(** * Susi social-media agent: a shallow embedding of the orchestration code

    The development follows the Python sources of the repository:

    - [retry_utils.py]   the [retry] decorator (module [Retry]);
    - [excel_monitor.py] reading the sheet and addressing its cells
                         (module [ExcelMonitor]);
    - [email_utils.py]   the notification transports;
    - [main.py]          [send_error], [send_confirmation],
                         [process_excel_topics], [process_images],
                         [move_onedrive_file_to_processed] and [main].

    Python values are modelled by small inductive types, exceptions by a
    result type, and every call that leaves the process (HTTP, SMTP, the
    language model, the file system) by a function on an abstract state of
    the outside world.  Each run returns, besides its result and the new
    state, the list of observable events it produced, oldest first. *)

From Stdlib Require Import ZArith List String Ascii Bool Lia.
From stdpp Require Import base decidable list gmap sets strings pretty.

Local Open Scope Z_scope.
Set Warnings "-register-all".

(** ** Python values *)

(** Scalars as JSON and YAML deliver them (floating point numbers are left
    out of the model). *)
Inductive scalar :=
| SNone
| SBool (b : bool)
| SInt (z : Z)
| SStr (s : string).

(** A loaded configuration file: scalars, lists and string-keyed mappings. *)
Inductive yaml :=
| YScalar (v : scalar)
| YList (l : list yaml)
| YDict (d : list (string * yaml)).

(** Python truthiness, as used by [if x], [not x] and [x or y]. *)
Definition truthy (v : scalar) : bool :=
  match v with
  | SNone => false
  | SBool b => b
  | SInt z => negb (z =? 0)
  | SStr s => negb (String.eqb s "")
  end.

(** [a or b]. *)
Definition py_or (a b : scalar) : scalar := if truthy a then a else b.

(** [str(v)], which is what an f-string placeholder renders. *)
Definition py_str (v : scalar) : string :=
  match v with
  | SNone => "None"
  | SBool true => "True"
  | SBool false => "False"
  | SInt z => pretty z
  | SStr s => s
  end.

(** Lookup in a mapping kept as an association list. *)
Fixpoint assoc {V : Type} (k : string) (d : list (string * V)) : option V :=
  match d with
  | [] => None
  | (k', v) :: d' => if String.eqb k k' then Some v else assoc k d'
  end.

(** ** Exceptions and results *)

(** The exception classes the code raises or meets; all of them derive from
    [Exception], so every [except Exception] clause catches them. *)
Inductive exn_class :=
| KeyError
| AttributeError
| TypeError
| ValueError
| RuntimeError
| S3UploadError
| InstagramPostError
| IndexError
| ScheduleValueError
| TransportError
| OtherError
| OverflowError.

Record exn := mkExn { exn_kind : exn_class; exn_msg : string }.

Inductive result (A : Type) :=
| Ok (a : A)
| Raise (e : exn).
Arguments Ok {A} a.
Arguments Raise {A} e.

Definition is_ok {A : Type} (r : result A) : bool :=
  match r with Ok _ => true | Raise _ => false end.

(** ** retry_utils.py *)

Module Retry.

(** What a run of the decorated function does that can be observed: it calls
    the wrapped function, it writes the retry warning (to the logger when one
    was given, to standard output otherwise) and it sleeps; [Slept] records a
    sleep that returned. *)
Inductive event :=
| Invoked
| Warned (to_logger : bool) (e : exn) (mdelay : Z) (tries_left : Z)
| Slept (seconds : Z).

(** [time.sleep(seconds)] of the standard library for an [int]: a length
    whose count of nanoseconds does not fit the 64-bit clock is refused with
    OverflowError, a negative one with ValueError. *)
Definition time_sleep (seconds : Z) : result unit :=
  if (seconds <? -9223372036) || (9223372036 <? seconds) then
    Raise (mkExn OverflowError "timestamp too large to convert to C _PyTime_t")
  else if seconds <? 0 then
    Raise (mkExn ValueError "sleep length must be non-negative")
  else Ok tt.

Section Decorator.
Context {St A : Type}.
(** [ExceptionToCheck] is the class test of the [except] clause. *)
Variable ExceptionToCheck : exn -> bool.
Variables tries delay backoff : Z.
Variable logger : bool.
(** [time.sleep]: it returns or raises. *)
Variable sleep : Z -> result unit.
(** The wrapped function with its arguments already supplied. *)
Variable f : St -> result A * St.

(** The [while mtries > 1] loop followed by the final attempt.  [fuel]
    bounds the number of loop iterations.  An exception of [time.sleep] is
    raised inside the [except] block and leaves the decorated function. *)
Fixpoint f_retry_loop (fuel : nat) (mtries mdelay : Z) (s : St)
  : result A * St * list event :=
  let final := let '(r, s') := f s in (r, s', [Invoked]) in
  match fuel with
  | O => final
  | S fuel' =>
      if 1 <? mtries then
        match f s with
        | (Ok v, s') => (Ok v, s', [Invoked])
        | (Raise e, s') =>
            if ExceptionToCheck e then
              match sleep mdelay with
              | Ok _ =>
                  let '(r, s'', evs) :=
                    f_retry_loop fuel' (mtries - 1) (mdelay * backoff) s' in
                  (r, s'',
                   Invoked :: Warned logger e mdelay (mtries - 1) :: Slept mdelay :: evs)
              | Raise e' =>
                  (Raise e', s', [Invoked; Warned logger e mdelay (mtries - 1)])
              end
            else (Raise e, s', [Invoked])
        end
      else final
  end.

(** [mtries] decreases by one per iteration, so [tries] iterations are
    never exceeded. *)
Definition f_retry (s : St) : result A * St * list event :=
  f_retry_loop (Z.to_nat tries) tries delay s.

(** [k] consecutive calls of [f], each raising an exception of the checked
    class, lead from [s] to [s'] and raise [es] in that order. *)
Inductive failing_run : nat -> St -> list exn -> St -> Prop :=
| failing_nil s : failing_run O s [] s
| failing_cons k s e s1 es s' :
    f s = (Raise e, s1) ->
    ExceptionToCheck e = true ->
    failing_run k s1 es s' ->
    failing_run (S k) s (e :: es) s'.

End Decorator.

Fixpoint invocations (evs : list event) : nat :=
  match evs with
  | [] => O
  | Invoked :: evs' => S (invocations evs')
  | _ :: evs' => invocations evs'
  end.

Fixpoint sleeps (evs : list event) : list Z :=
  match evs with
  | [] => []
  | Slept d :: evs' => d :: sleeps evs'
  | _ :: evs' => sleeps evs'
  end.

(** [delay], [delay * backoff], ..., [k] terms. *)
Fixpoint backoff_delays (k : nat) (delay backoff : Z) : list Z :=
  match k with
  | O => []
  | S k' => delay :: backoff_delays k' (delay * backoff) backoff
  end.

(** A function that is down for its first two calls: the state counts the
    calls made so far. *)
Definition flaky (s : nat) : result string * nat :=
  if (s <? 2)%nat then (Raise (mkExn TransportError "down"), S s)
  else (Ok "done"%string, S s).

End Retry.

(** ** Configuration access

    [config] is the dictionary loaded from the YAML file.  Subscripting,
    [.get] and [.lower()] fail the way Python makes them fail. *)

(** [c[k]]. *)
Definition cfg_item (c : yaml) (k : string) : result yaml :=
  match c with
  | YDict d =>
      match assoc k d with
      | Some v => Ok v
      | None => Raise (mkExn KeyError k)
      end
  | _ => Raise (mkExn TypeError "object is not subscriptable by a string")
  end.

(** [c.get(k, default)]. *)
Definition cfg_get (c : yaml) (k : string) (default : yaml) : result yaml :=
  match c with
  | YDict d => Ok (match assoc k d with Some v => v | None => default end)
  | _ => Raise (mkExn AttributeError "object has no attribute 'get'")
  end.

Definition lower_ascii (a : ascii) : ascii :=
  let n := nat_of_ascii a in
  if ((65 <=? n) && (n <=? 90))%nat then ascii_of_nat (n + 32) else a.

(** [s.lower()] on the ASCII letters. *)
Fixpoint lower (s : string) : string :=
  match s with
  | EmptyString => EmptyString
  | String a s' => String (lower_ascii a) (lower s')
  end.

(** [v.lower()]: only strings have the method. *)
Definition cfg_lower (v : yaml) : result string :=
  match v with
  | YScalar (SStr s) => Ok (lower s)
  | _ => Raise (mkExn AttributeError "object has no attribute 'lower'")
  end.

Definition nl : string := String (ascii_of_nat 10) EmptyString.

(** ** Observable events *)

Inductive level := DEBUG | INFO | WARNING | ERROR.

(** A cell of the worksheet as the write functions address it: the code
    point handed to [chr] and the row number printed after it. *)
Record cell_address := mkAddress { column_chr : nat; row_number : nat }.

(** An item of the OneDrive listing. *)
Record item := mkItem { item_id : string; item_name : string }.

(** An article of the news search: a mapping with scalar fields. *)
Definition article := list (string * scalar).

Inductive weekday :=
| monday | tuesday | wednesday | thursday | friday | saturday | sunday.

(** The two workflows a schedule can start. *)
Inductive job_func := job_process_images | job_process_excel_topics.

(** One entry per call that matters to an observer.  A log record is
    identified by its level and its format string; the values interpolated
    into it are left out.  Calls to collaborators carry whether they
    returned ([ok = true]) or raised. *)
Inductive event :=
| Log (lvl : level) (fmt : string)
| SendError (subject body : string)
| SendConfirmation (subject body : string)
| GmailService (ok : bool)
| GmailSend (subject body : string) (ok : bool)
| SmtpSend (subject body : string) (ok : bool)
| TenacityWait
| TokenRequest (ok : bool)
| UsedRangeGet (ok : bool)
| RangePatch (address : cell_address) (value : string) (ok : bool)
| WriteInstagram (row_index : nat) (text : string) (ok : bool)
| WriteLinkedIn (row_index : nat) (text : string) (ok : bool)
| MarkProcessed (row_index : nat) (ok : bool)
| NewsFetch (content target_group : scalar) (ok : bool)
| InstagramGeneration (content target_group : scalar) (articles : list article) (ok : bool)
| LinkedInGeneration (content target_group : scalar) (articles : list article) (ok : bool)
| Listing (ok : bool)
| Download (it : item) (ok : bool)
| MetadataRead (path : string) (ok : bool)
| CaptionRendered (ok : bool)
| Upload (path : string) (url : option string) (ok : bool)
| Post (url caption : string) (returned : option bool)
| MoveRequest (it : item) (status : option Z)
| MoveToProcessed (it : item) (ok : bool)
| Remove (path : string) (ok : bool)
| Sleep (seconds : Z)
| JobRegistered (day : weekday) (f : job_func)
| JobRun (f : job_func).

(** ** The outside world and the state of the process *)

(** A [Job] object of the scheduling library as far as the code sets it:
    [.at(t)] stores the time, [.do(f)] the function. *)
Record job := mkJob { at_time : option yaml; job_fn : option job_func }.

(** The mutable state a run works on: the state of everything outside the
    process, the [seen_ids] set that polling mode hands to [process_images],
    the job objects held by [DAY_MAP] that have been configured, and the
    scheduler's job list (references to those objects, by their day). *)
Record world (St : Type) := mkWorld {
  outside : St;
  seen_ids : gset string;
  day_jobs : list (weekday * job);
  scheduled : list weekday
}.
Arguments mkWorld {St}.
Arguments outside {St}.
Arguments seen_ids {St}.
Arguments day_jobs {St}.
Arguments scheduled {St}.

(** The collaborators: each is a function of the outside state that returns
    or raises.  [format_exc] renders the traceback of the exception being
    handled. *)
Record Env (St : Type) := mkEnv {
  get_access_token : St -> result scalar * St;
  graph_get_used_range : St -> result (list (list scalar)) * St;
  graph_patch_range : cell_address -> string -> St -> result unit * St;
  fetch_news_articles : scalar -> scalar -> St -> result (list article) * St;
  generate_instagram_post :
    scalar -> scalar -> list article -> St -> result string * St;
  generate_linkedin_post :
    scalar -> scalar -> list article -> St -> result string * St;
  get_gmail_service : St -> result unit * St;
  gmail_messages_send : string -> string -> St -> result unit * St;
  smtp_send_message : string -> string -> St -> result unit * St;
  list_onedrive_images : St -> result (list item) * St;
  download_onedrive_image : item -> St -> result string * St;
  extract_metadata : string -> St -> result (list (string * string)) * St;
  generate_post_text :
    list (string * string) -> yaml -> St -> result string * St;
  upload_file_to_s3 : string -> yaml -> yaml -> St -> result (option string) * St;
  poster_post : string -> string -> St -> result bool * St;
  graph_patch_parent : item -> yaml -> St -> result Z * St;
  os_remove : string -> St -> result unit * St;
  format_exc : exn -> string;
  schedule_accepts_time : yaml -> bool;
  schedule_due : list weekday -> St -> list weekday * St;
  time_sleep : Z -> St -> St
}.
Arguments get_access_token {St}.
Arguments graph_get_used_range {St}.
Arguments graph_patch_range {St}.
Arguments fetch_news_articles {St}.
Arguments generate_instagram_post {St}.
Arguments generate_linkedin_post {St}.
Arguments get_gmail_service {St}.
Arguments gmail_messages_send {St}.
Arguments smtp_send_message {St}.
Arguments list_onedrive_images {St}.
Arguments download_onedrive_image {St}.
Arguments extract_metadata {St}.
Arguments generate_post_text {St}.
Arguments upload_file_to_s3 {St}.
Arguments poster_post {St}.
Arguments graph_patch_parent {St}.
Arguments os_remove {St}.
Arguments format_exc {St}.
Arguments schedule_accepts_time {St}.
Arguments schedule_due {St}.
Arguments time_sleep {St}.

(** ** Computations: state, exceptions and the event list *)

Definition M (St A : Type) : Type :=
  world St -> result A * world St * list event.

Section Monad.
Context {St : Type}.

Definition ret {A : Type} (a : A) : M St A := fun w => (Ok a, w, []).

Definition raise {A : Type} (e : exn) : M St A := fun w => (Raise e, w, []).

Definition bind {A B : Type} (m : M St A) (k : A -> M St B) : M St B :=
  fun w =>
    match m w with
    | (Ok a, w1, evs1) => let '(r, w2, evs2) := k a w1 in (r, w2, evs1 ++ evs2)
    | (Raise e, w1, evs1) => (Raise e, w1, evs1)
    end.

Definition emit (ev : event) : M St unit := fun w => (Ok tt, w, [ev]).

(** A computation of the process itself that may raise. *)
Definition lift {A : Type} (r : result A) : M St A := fun w => (r, w, []).

(** A call to a collaborator, recorded with its outcome. *)
Definition call {A : Type} (o : St -> result A * St) (ev : result A -> event)
  : M St A :=
  fun w =>
    let '(r, s) := o (outside w) in
    (r, mkWorld s (seen_ids w) (day_jobs w) (scheduled w), [ev r]).

(** [try: m] with the outcome handed on: what [except Exception as e]
    receives. *)
Definition attempt {A : Type} (m : M St A) : M St (result A) :=
  fun w => let '(r, w1, evs) := m w in (Ok r, w1, evs).

(** A block of the process's own code, recorded with its outcome once it
    has returned or raised. *)
Definition traced {A : Type} (ev : bool -> event) (m : M St A) : M St A :=
  fun w => let '(r, w1, evs) := m w in (r, w1, evs ++ [ev (is_ok r)]).

End Monad.

Declare Scope run_scope.
Delimit Scope run_scope with run.
Notation "x <- m ;; k" := (bind m (fun x => k))
  (at level 100, m at next level, right associativity) : run_scope.
Notation "m ;; k" := (bind m (fun _ => k))
  (at level 100, right associativity) : run_scope.
Local Open Scope run_scope.

(** ** excel_monitor.py *)

Module ExcelMonitor.

(** A row as [dict(zip(header, row))] builds it, kept as the list of its
    (key, value) pairs in insertion order: a later pair replaces an earlier
    one with the same key. *)
Definition row := list (scalar * scalar).

(** [row.get(key)] for a string key: the value of the last pair with that
    key, [None] when there is none. *)
Definition row_get (r : row) (key : string) : scalar :=
  fold_left
    (fun acc kv =>
       match fst kv with
       | SStr k => if String.eqb k key then snd kv else acc
       | _ => acc
       end)
    r SNone.

(** [not row.get("processed")]. *)
Definition unprocessed (r : row) : bool := negb (truthy (row_get r "processed")).

(** The part of [get_excel_rows] after the response has been decoded:
    [values] is the used range, header row first. *)
Definition rows_of_values (values : list (list scalar)) : list row :=
  match values with
  | [] => []
  | header :: data =>
      if (length values <? 2)%nat then []
      else List.filter unprocessed (map (fun r => combine header r) data)
  end.

(** The positions, counted from [pos] for the first data row, of the data
    rows that [rows_of_values] keeps: where each fetched row sits in the
    sheet. *)
Fixpoint unprocessed_positions (header : list scalar) (data : list (list scalar))
    (pos : nat) : list nat :=
  match data with
  | [] => []
  | r :: data' =>
      if unprocessed (combine header r)
      then pos :: unprocessed_positions header data' (S pos)
      else unprocessed_positions header data' (S pos)
  end.

(** [header.index(name)]. *)
Fixpoint header_index (name : string) (header : list scalar) : option nat :=
  match header with
  | [] => None
  | c :: header' =>
      match c with
      | SStr s => if String.eqb s name then Some O
                  else option_map S (header_index name header')
      | _ => option_map S (header_index name header')
      end
  end.

(** [excel_row = row_index + 1] and the address
    [f"{chr(65+col)}{excel_row+1}"]. *)
Definition cell_of (col row_index : nat) : cell_address :=
  let excel_row := (row_index + 1)%nat in
  mkAddress (65 + col) (excel_row + 1).

Section Calls.
Context {St : Type} (env : Env St).

Definition get_excel_rows : M St (list row) :=
  _ <- call (get_access_token env) (fun r => TokenRequest (is_ok r)) ;;
  values <- call (graph_get_used_range env) (fun r => UsedRangeGet (is_ok r)) ;;
  ret (rows_of_values values).

(** The body shared by [write_linkedin_post], [write_instagram_post] and
    [mark_row_processed]: read the header, find the column, patch one
    cell. *)
Definition patch_column (column : string) (row_index : nat) (value : string)
  : M St unit :=
  _ <- call (get_access_token env) (fun r => TokenRequest (is_ok r)) ;;
  values <- call (graph_get_used_range env) (fun r => UsedRangeGet (is_ok r)) ;;
  header <- lift (match values with
                  | [] => Raise (mkExn IndexError "list index out of range")
                  | h :: _ => Ok h
                  end) ;;
  col <- lift (match header_index column header with
               | Some c => Ok c
               | None => Raise (mkExn OtherError
                                  ("No '" +:+ column +:+ "' column found in sheet header."))
               end) ;;
  let address := cell_of col row_index in
  call (graph_patch_range env address value)
       (fun r => RangePatch address value (is_ok r)).

Definition write_linkedin_post (row_index : nat) (post_text : string) : M St unit :=
  patch_column "LinkedIn" row_index post_text.

Definition write_instagram_post (row_index : nat) (post_text : string) : M St unit :=
  patch_column "Instagram" row_index post_text.

Definition mark_row_processed (row_index : nat) : M St unit :=
  patch_column "processed" row_index "x".

End Calls.

End ExcelMonitor.

(** ** email_utils.py *)

Section Email.
Context {St : Type} (env : Env St).

(** [config['email'].get('provider', '').lower()]. *)
Definition email_provider (config : yaml) : result string :=
  match cfg_item config "email" with
  | Ok email =>
      match cfg_get email "provider" (YScalar (SStr "")) with
      | Ok v => cfg_lower v
      | Raise e => Raise e
      end
  | Raise e => Raise e
  end.

(** [config['email'][k]]. *)
Definition email_field (config : yaml) (k : string) : result yaml :=
  match cfg_item config "email" with
  | Ok email => cfg_item email k
  | Raise e => Raise e
  end.

Definition send_gmail (subject body : string) (config : yaml) : M St unit :=
  _ <- call (get_gmail_service env) (fun r => GmailService (is_ok r)) ;;
  _ <- lift (email_field config "recipient") ;;
  _ <- lift (email_field config "username") ;;
  call (gmail_messages_send env subject body)
       (fun r => GmailSend subject body (is_ok r)).

(** One attempt of [_send_error_email_with_retry]: Gmail first when it is
    the provider, SMTP otherwise and after a Gmail failure.  The SMTP block
    reads its settings and sends in one [try]; a failure there is logged and
    raised again. *)
Definition send_error_email_attempt (subject body : string) (config : yaml)
  : M St unit :=
  provider <- lift (email_provider config) ;;
  sent <- (if String.eqb provider "gmail" then
             r <- attempt (send_gmail subject body config ;;
                           emit (Log INFO "Error email sent via Gmail API.")) ;;
             match r with
             | Ok _ => ret true
             | Raise e =>
                 emit (Log ERROR "Failed to send error email via Gmail API: {e}") ;;
                 ret false
             end
           else ret false) ;;
  if sent : bool then ret tt
  else
    _ <- lift (email_field config "username") ;;
    _ <- lift (email_field config "recipient") ;;
    r <- attempt (_ <- lift (email_field config "smtp_server") ;;
                  _ <- lift (email_field config "smtp_port") ;;
                  _ <- lift (email_field config "username") ;;
                  _ <- lift (email_field config "password") ;;
                  call (smtp_send_message env subject body)
                       (fun r => SmtpSend subject body (is_ok r)) ;;
                  emit (Log INFO "Error email sent via SMTP.")) ;;
    match r with
    | Ok _ => ret tt
    | Raise e =>
        emit (Log ERROR "Failed to send error email via SMTP: {e}") ;;
        raise e
    end.

(** The [tenacity] decorator with [stop_after_attempt(3)],
    [retry_if_exception_type(Exception)], [before_sleep_log] and
    [reraise=True]: [retries] further attempts follow a failed one, each
    after a logged wait, and the last exception is raised again. *)
Fixpoint tenacity_retry {A : Type} (retries : nat) (body : M St A) : M St A :=
  r <- attempt body ;;
  match r with
  | Ok a => ret a
  | Raise e =>
      match retries with
      | O => raise e
      | S retries' =>
          emit (Log WARNING "Retrying after exception") ;;
          emit TenacityWait ;;
          tenacity_retry retries' body
      end
  end.

Definition _send_error_email_with_retry (subject body : string) (config : yaml)
  : M St unit :=
  tenacity_retry 2 (send_error_email_attempt subject body config).

Definition send_error_email (subject body : string) (config : yaml) : M St unit :=
  r <- attempt (_send_error_email_with_retry subject body config) ;;
  match r with
  | Ok _ => ret tt
  | Raise e => emit (Log ERROR "All attempts to send error email failed: {e}")
  end.

(** ** main.py: the notification helpers *)

Definition send_confirmation (subject body : string) (config : yaml) : M St unit :=
  emit (SendConfirmation subject body) ;;
  provider <- lift (email_provider config) ;;
  if String.eqb provider "gmail" then
    r <- attempt (send_gmail subject body config ;;
                  emit (Log INFO "Confirmation email sent via Gmail API.")) ;;
    match r with
    | Ok _ => ret tt
    | Raise e =>
        emit (Log ERROR "Failed to send confirmation email via Gmail API: {e}")
    end
  else send_error_email subject body config.

Definition send_error (subject body : string) (config : yaml) : M St unit :=
  emit (SendError subject body) ;;
  provider <- lift (email_provider config) ;;
  if String.eqb provider "gmail" then
    r <- attempt (send_gmail subject body config ;;
                  emit (Log INFO "Error email sent via Gmail API.")) ;;
    match r with
    | Ok _ => ret tt
    | Raise e => emit (Log ERROR "Failed to send error email via Gmail API: {e}")
    end
  else send_error_email subject body config.

End Email.

(** ** main.py: the Excel-driven workflow *)

(** [sep.join(l)]. *)
Fixpoint join (sep : string) (l : list string) : string :=
  match l with
  | [] => ""
  | [x] => x
  | x :: l' => x +:+ sep +:+ join sep l'
  end.

(** ['title' in a]. *)
Definition has_title (a : article) : bool :=
  match assoc "title" a with Some _ => true | None => false end.

(** [f"- {a['title']}"]. *)
Definition title_line (a : article) : string :=
  "- " +:+ py_str (match assoc "title" a with Some t => t | None => SNone end).

(** The caption used when the language model fails (lines 125 to 130). *)
Definition fallback_caption (content target_group : scalar)
    (news_articles : list article) : string :=
  match news_articles with
  | _ :: _ =>
      let article_titles :=
        join nl (map title_line (List.filter has_title news_articles)) in
      "Topic: " +:+ py_str content +:+ nl +:+ "Target Group: "
        +:+ py_str target_group +:+ nl +:+ nl +:+ "Relevant News:" +:+ nl
        +:+ article_titles
  | [] =>
      "Topic: " +:+ py_str content +:+ nl +:+ "Target Group: "
        +:+ py_str target_group +:+ nl +:+ "(No relevant news articles found)"
  end.

(** [if s] for a string. *)
Definition nonempty (s : string) : bool := negb (String.eqb s "").

Section ExcelWorkflow.
Context {St : Type} (env : Env St) (config : yaml).

Import ExcelMonitor.

(** [row.get('Content') or row.get('content')]. *)
Definition row_content (r : row) : scalar :=
  py_or (row_get r "Content") (row_get r "content").

(** [row.get('Target Group') or row.get('target group')
     or row.get('target_group')]. *)
Definition row_target_group (r : row) : scalar :=
  py_or (py_or (row_get r "Target Group") (row_get r "target group"))
        (row_get r "target_group").

(** Lines 169 to 177: the completion check. *)
Definition completion_stage (idx : nat) (content target_group : scalar)
    (caption : string) (linkedin_success : bool) : M St unit :=
  if nonempty caption && linkedin_success then
    traced (MarkProcessed idx) (mark_row_processed env idx) ;;
    emit (Log INFO "Processed and marked Excel row {idx} for content '{content}'.") ;;
    send_confirmation env "Susi Excel Workflow: Both Posts Created"
      ("Successfully created and stored Instagram and LinkedIn posts for content: '"
         +:+ py_str content +:+ "', target group: '" +:+ py_str target_group +:+ "'.")
      config
  else ret tt.

(** Lines 143 to 167: generate the LinkedIn post and write it; the result
    is [linkedin_success]. *)
Definition linkedin_stage (idx : nat) (content target_group : scalar)
    (news_articles : list article) : M St bool :=
  g <- attempt (post <- call (generate_linkedin_post env content target_group news_articles)
                          (fun r => LinkedInGeneration content target_group
                                      news_articles (is_ok r)) ;;
                emit (Log INFO "Generated LinkedIn post for row {idx}.") ;;
                ret post) ;;
  linkedin_post <-
    match g with
    | Ok post => ret (Some post)
    | Raise e =>
        emit (Log ERROR "Failed to generate LinkedIn post for row {idx}: {e}") ;;
        send_error env "Susi Excel Workflow: LinkedIn Post Generation Failed"
          ("Failed to generate LinkedIn post for content '" +:+ py_str content
             +:+ "', target group '" +:+ py_str target_group +:+ "'." +:+ nl
             +:+ "Error: " +:+ exn_msg e)
          config ;;
        ret None
    end ;;
  match linkedin_post with
  | Some post =>
      if nonempty post then
        r <- attempt (traced (WriteLinkedIn idx post) (write_linkedin_post env idx post) ;;
                      emit (Log INFO "Wrote LinkedIn post to Excel for row {idx}.")) ;;
        match r with
        | Ok _ => ret true
        | Raise e =>
            emit (Log ERROR "Failed to write LinkedIn post to Excel for row {idx}: {e}") ;;
            send_error env "Susi Excel Workflow: LinkedIn Post Write Failed"
              ("Failed to write LinkedIn post to Excel for row " +:+ pretty idx
                 +:+ ", content '" +:+ py_str content +:+ "'." +:+ nl
                 +:+ "Error: " +:+ exn_msg e)
              config ;;
            ret false
        end
      else ret false
  | None => ret false
  end.

(** Lines 131 to 177: everything that follows once the caption is fixed. *)
Definition write_stages (idx : nat) (content target_group : scalar)
    (news_articles : list article) (caption : string) : M St unit :=
  r <- attempt (traced (WriteInstagram idx caption) (write_instagram_post env idx caption) ;;
                emit (Log INFO "Wrote Instagram post to Excel for row {idx}.")) ;;
  match r with
  | Ok _ => ret tt
  | Raise e =>
      emit (Log ERROR "Failed to write Instagram post to Excel for row {idx}: {e}") ;;
      send_error env "Susi Excel Workflow: Instagram Post Write Failed"
        ("Failed to write Instagram post to Excel for row " +:+ pretty idx
           +:+ ", content '" +:+ py_str content +:+ "'." +:+ nl
           +:+ "Error: " +:+ exn_msg e)
        config
  end ;;
  linkedin_success <- linkedin_stage idx content target_group news_articles ;;
  completion_stage idx content target_group caption linkedin_success.

(** Lines 114 to 177: the stages that follow the news stage. *)
Definition stages_after_news (idx : nat) (content target_group : scalar)
    (news_articles : list article) : M St unit :=
  g <- attempt (c <- call (generate_instagram_post env content target_group news_articles)
                       (fun r => InstagramGeneration content target_group
                                   news_articles (is_ok r)) ;;
                emit (Log INFO "Generated Instagram post for row {idx}.") ;;
                ret c) ;;
  caption <-
    match g with
    | Ok c => ret c
    | Raise e =>
        emit (Log ERROR "Failed to generate Instagram post for content '{content}': {e}") ;;
        send_error env "Susi Excel Workflow: Instagram Post Generation Failed"
          ("Failed to generate Instagram post for content '" +:+ py_str content
             +:+ "', target group '" +:+ py_str target_group +:+ "'." +:+ nl
             +:+ "Error: " +:+ exn_msg e)
          config ;;
        ret (fallback_caption content target_group news_articles)
    end ;;
  write_stages idx content target_group news_articles caption.

(** Lines 102 to 113: the news stage. *)
Definition news_stage (content target_group : scalar) : M St (list article) :=
  r <- attempt (news <- call (fetch_news_articles env content target_group)
                          (fun r => NewsFetch content target_group (is_ok r)) ;;
                emit (Log INFO "Fetched {len(news_articles)} news articles for content '{content}'.") ;;
                ret news) ;;
  match r with
  | Ok news => ret news
  | Raise e =>
      emit (Log ERROR "Failed to fetch news articles for content '{content}': {e}") ;;
      send_error env "Susi Excel Workflow: News Fetch Failed"
        ("Failed to fetch news articles for content '" +:+ py_str content
           +:+ "', target group '" +:+ py_str target_group +:+ "'." +:+ nl
           +:+ "Error: " +:+ exn_msg e)
        config ;;
      ret []
  end.

(** The [try] that encloses a row's handling, with the handler of lines 178
    to 185. *)
Definition row_guard (idx : nat) (content : scalar) (body : M St unit) : M St unit :=
  o <- attempt body ;;
  match o with
  | Ok _ => ret tt
  | Raise e =>
      let tb := format_exc env e in
      emit (Log ERROR "Error processing Excel row {idx}: {e}\n{tb}") ;;
      send_error env "Susi Excel Workflow: Unexpected Error"
        ("Unexpected error processing Excel row " +:+ pretty idx +:+ ", content '"
           +:+ py_str content +:+ "'." +:+ nl +:+ "Error: " +:+ exn_msg e +:+ nl +:+ nl
           +:+ "Traceback:" +:+ nl +:+ tb)
        config
  end.

(** The body of the [for idx, row in enumerate(rows)] loop (lines 94 to
    185). *)
Definition process_row (idx : nat) (r : row) : M St unit :=
  emit (Log DEBUG "Processing Excel row {idx}: {row}") ;;
  let content := row_content r in
  let target_group := row_target_group r in
  row_guard idx content
    (if negb (truthy content) then
       emit (Log WARNING "Row {idx} missing 'content' column, skipping.")
     else
       emit (Log INFO "Processing Excel row {idx}: content='{content}', target_group='{target_group}'") ;;
       news_articles <- news_stage content target_group ;;
       stages_after_news idx content target_group news_articles).

(** [for idx, row in enumerate(rows)], from index [idx] on. *)
Fixpoint for_rows (idx : nat) (rows : list row) : M St unit :=
  match rows with
  | [] => ret tt
  | r :: rows' => process_row idx r ;; for_rows (S idx) rows'
  end.

Definition process_excel_topics : M St unit :=
  emit (Log INFO "Starting Excel-driven topic processing.") ;;
  rows <- get_excel_rows env ;;
  match rows with
  | [] => emit (Log INFO "No new topics found in Excel file.")
  | _ :: _ => for_rows 0 rows
  end.

End ExcelWorkflow.

(** ** main.py: the image workflow *)

Section ImageWorkflow.
Context {St : Type} (env : Env St) (config : yaml).

Definition keep_onedrive_token_alive : M St unit :=
  token <- call (get_access_token env) (fun r => TokenRequest (is_ok r)) ;;
  if truthy token then
    emit (Log INFO "OneDrive access token keep-alive: token is valid or refreshed.")
  else
    emit (Log WARNING "OneDrive access token keep-alive: failed to refresh token. Re-authentication may be required.").

(** [processed_folder.rstrip('/')] needs a string. *)
Definition cfg_string (v : yaml) : result string :=
  match v with
  | YScalar (SStr s) => Ok s
  | _ => Raise (mkExn AttributeError "object has no attribute 'rstrip'")
  end.

(** The request is sent and its status only decides which line is logged:
    the function returns [None] either way. *)
Definition move_onedrive_file_to_processed (it : item) : M St unit :=
  emit (Log INFO "Moving file '{item['name']}' (ID: {item['id']}) to processed folder in OneDrive.") ;;
  _ <- call (get_access_token env) (fun r => TokenRequest (is_ok r)) ;;
  onedrive <- lift (cfg_item config "onedrive") ;;
  processed_folder <- lift (cfg_item onedrive "processed_folder") ;;
  _ <- lift (cfg_string processed_folder) ;;
  status <- call (graph_patch_parent env it processed_folder)
                 (fun r => MoveRequest it
                             (match r with Ok c => Some c | Raise _ => None end)) ;;
  if (status =? 200) || (status =? 201) then
    emit (Log INFO "Moved '{item['name']}' to '{processed_folder}' in OneDrive.")
  else
    emit (Log ERROR "Failed to move '{item['name']}' to '{processed_folder}': {resp.text}").

Definition get_seen_ids : M St (gset string) :=
  fun w => (Ok (seen_ids w), w, []).

(** [seen_ids.add(id)]: the caller's set object is updated in place. *)
Definition seen_ids_add (id : string) : M St unit :=
  fun w => (Ok tt,
            mkWorld (outside w) ({[id]} ∪ seen_ids w) (day_jobs w) (scheduled w),
            []).

(** [not s3_url]. *)
Definition no_url (u : option string) : bool :=
  match u with
  | None => true
  | Some s => String.eqb s ""
  end.

Definition traceback_body (e : exn) : string :=
  "Error: " +:+ exn_msg e +:+ nl +:+ nl +:+ "Traceback:" +:+ nl +:+ format_exc env e.

(** Lines 293 to 317: publish, archive, notify, remember. *)
Definition publish_stages (seen_supplied : bool) (it : item)
    (local_path caption s3_url : string) : M St unit :=
  emit (Log INFO "Posting image to social platform: {s3_url}") ;;
  p <- attempt (success <- call (poster_post env s3_url caption)
                             (fun r => Post s3_url caption
                                         (match r with Ok b => Some b | Raise _ => None end)) ;;
                if negb success then
                  raise (mkExn InstagramPostError
                           ("poster.post returned False for " +:+ item_name it))
                else ret tt) ;;
  match p with
  | Raise e =>
      emit (Log ERROR "Social post failed for {item['name']}: {e}\n{tb}") ;;
      send_error env "Susi Social Post Failed"
        ("Failed to post " +:+ s3_url +:+ " to social platform." +:+ nl
           +:+ traceback_body e)
        config
  | Ok _ =>
      emit (Log INFO "Successfully posted image to social platform: {item['name']}") ;;
      traced (MoveToProcessed it) (move_onedrive_file_to_processed it) ;;
      call (os_remove env local_path) (fun r => Remove local_path (is_ok r)) ;;
      emit (Log INFO "Deleted local file: {local_path}") ;;
      send_confirmation env "Susi Post Created"
        ("A post was successfully created for image: " +:+ item_name it +:+ nl +:+ nl
           +:+ "Caption:" +:+ nl +:+ caption)
        config ;;
      if seen_supplied then seen_ids_add (item_id it) else ret tt
  end.

(** Lines 269 to 317: upload to the object store, then publish.  The two
    [aws_cfg.get(...)] arguments of the call cannot fail once
    [aws_cfg['s3_bucket']] has been read, and are left out. *)
Definition upload_stages (seen_supplied : bool) (it : item)
    (local_path caption : string) : M St unit :=
  aws_cfg <- lift (cfg_item config "aws") ;;
  _ <- lift (cfg_item aws_cfg "s3_bucket") ;;
  emit (Log INFO "Uploading {local_path} to S3 bucket '{aws_cfg['s3_bucket']}'...") ;;
  u <- attempt (bucket <- lift (cfg_item aws_cfg "s3_bucket") ;;
                region <- lift (cfg_item aws_cfg "region") ;;
                s3_url <- call (upload_file_to_s3 env local_path bucket region)
                            (fun r => Upload local_path
                                        (match r with Ok u => u | Raise _ => None end)
                                        (is_ok r)) ;;
                if no_url s3_url then
                  raise (mkExn S3UploadError
                           ("upload_file_to_s3 returned None for " +:+ local_path))
                else ret (match s3_url with Some u => u | None => "" end)) ;;
  match u with
  | Raise e =>
      emit (Log ERROR "S3 upload failed for {item['name']}: {e}\n{tb}") ;;
      send_error env "Susi S3 Upload Failed"
        ("Failed to upload " +:+ local_path +:+ " to S3." +:+ nl +:+ traceback_body e)
        config
  | Ok s3_url =>
      emit (Log INFO "Uploaded to S3: {s3_url}") ;;
      publish_stages seen_supplied it local_path caption s3_url
  end.

(** The [try] that encloses an item's handling, with the handler of lines
    318 to 325. *)
Definition image_guard (it : item) (body : M St unit) : M St unit :=
  o <- attempt body ;;
  match o with
  | Ok _ => ret tt
  | Raise e =>
      emit (Log ERROR "Unexpected error processing {item['name']}: {e}\n{tb}") ;;
      send_error env "Susi Unexpected Error"
        ("Unexpected error processing " +:+ item_name it +:+ ": " +:+ exn_msg e
           +:+ nl +:+ nl +:+ "Traceback:" +:+ nl +:+ format_exc env e)
        config
  end.

(** Lines 254 to 317: metadata and caption, then upload and publish. *)
Definition caption_stages (seen_supplied : bool) (template : yaml) (it : item)
    (local_path : string) : M St unit :=
  c <- attempt
         (metadata <- call (extract_metadata env local_path)
                        (fun r => MetadataRead local_path (is_ok r)) ;;
          emit (Log DEBUG "Extracted metadata: {metadata}") ;;
          caption <- call (generate_post_text env metadata template)
                       (fun r => CaptionRendered (is_ok r)) ;;
          emit (Log DEBUG "Generated caption: {caption}") ;;
          ret caption) ;;
  match c with
  | Raise e =>
      emit (Log ERROR "Metadata extraction or caption generation failed for {item['name']}: {e}\n{tb}") ;;
      send_error env "Susi Metadata/Caption Error"
        ("Failed to extract metadata or generate caption for "
           +:+ item_name it +:+ "." +:+ nl +:+ traceback_body e)
        config
  | Ok caption => upload_stages seen_supplied it local_path caption
  end.

(** The body of the [for item in images] loop (lines 240 to 325). *)
Definition process_image (seen_supplied : bool) (template : yaml) (it : item)
  : M St unit :=
  image_guard it
    (emit (Log INFO "Processing image: {item['name']} (ID: {item['id']})") ;;
     d <- attempt (call (download_onedrive_image env it)
                        (fun r => Download it (is_ok r))) ;;
     match d with
     | Raise e =>
         emit (Log ERROR "OneDrive download failed for {item['name']}: {e}\n{tb}") ;;
         send_error env "Susi OneDrive Download Failed"
           ("Failed to download " +:+ item_name it +:+ " from OneDrive." +:+ nl
              +:+ traceback_body e)
           config
     | Ok local_path =>
         emit (Log INFO "Downloaded image to {local_path}") ;;
         caption_stages seen_supplied template it local_path
     end).

Fixpoint for_images (seen_supplied : bool) (template : yaml) (images : list item)
  : M St unit :=
  match images with
  | [] => ret tt
  | it :: images' =>
      process_image seen_supplied template it ;;
      for_images seen_supplied template images'
  end.

(** [images] is [None] or the list handed in; [seen_supplied] says whether
    a [seen_ids] set was handed in (it then is the one of the state). *)
Definition process_images (images : option (list item)) (seen_supplied : bool)
  : M St unit :=
  keep_onedrive_token_alive ;;
  template <- lift (cfg_item config "template") ;;
  images <- match images with
            | None =>
                emit (Log INFO "Fetching images from OneDrive...") ;;
                call (list_onedrive_images env) (fun r => Listing (is_ok r))
            | Some l => ret l
            end ;;
  images <- (if seen_supplied then
               seen <- get_seen_ids ;;
               ret (List.filter (fun img => bool_decide (item_id img ∉ seen)) images)
             else ret images) ;;
  match images with
  | [] => emit (Log INFO "No new images found in OneDrive.")
  | _ :: _ => for_images seen_supplied template images
  end.

End ImageWorkflow.

(** ** config.py and main.py: the trigger loop *)

Definition SCHEDULE_KEY : string := "schedule".
Definition IMAGE_DAY_KEY : string := "image_day".
Definition IMAGE_TIME_KEY : string := "image_time".
Definition INSTAGRAM_DAY_KEY : string := "instagram_day".
Definition INSTAGRAM_TIME_KEY : string := "instagram_time".

(** Each name is bound to one job object, created when the module is
    loaded. *)
Definition DAY_MAP : list (string * weekday) :=
  [("monday", monday); ("tuesday", tuesday); ("wednesday", wednesday);
   ("thursday", thursday); ("friday", friday); ("saturday", saturday);
   ("sunday", sunday)].

Definition weekday_eqb (a b : weekday) : bool :=
  match a, b with
  | monday, monday | tuesday, tuesday | wednesday, wednesday
  | thursday, thursday | friday, friday | saturday, saturday
  | sunday, sunday => true
  | _, _ => false
  end.

(** The function a day's job object currently holds. *)
Fixpoint job_of (d : weekday) (jobs : list (weekday * job)) : option job_func :=
  match jobs with
  | [] => None
  | (d', j) :: jobs' => if weekday_eqb d d' then job_fn j else job_of d jobs'
  end.

(** [main] never returns from its loops: after the iterations that [fuel]
    allows it is still running. *)
Inductive running := StillRunning.

Section Main.
Context {St : Type} (env : Env St) (config : yaml).

(** [config[SCHEDULE_KEY].get(key, default)]. *)
Definition schedule_setting (key default : string) : result yaml :=
  match cfg_item config SCHEDULE_KEY with
  | Ok sched => cfg_get sched key (YScalar (SStr default))
  | Raise e => Raise e
  end.

(** [config[SCHEDULE_KEY].get(key, default).lower()]. *)
Definition schedule_day (key default : string) : result string :=
  match schedule_setting key default with
  | Ok v => cfg_lower v
  | Raise e => Raise e
  end.

(** [job.at(time)] of the scheduling library: a time that is not a string
    is refused with TypeError, a string the library cannot read with its own
    ScheduleValueError, which is not a ValueError. *)
Definition job_at (time : yaml) : result unit :=
  match time with
  | YScalar (SStr _) =>
      if schedule_accepts_time env time then Ok tt
      else Raise (mkExn ScheduleValueError "Invalid time format")
  | _ => Raise (mkExn TypeError "at() should be passed a string")
  end.

(** [DAY_MAP[day].at(time).do(f)]: the day's job object takes the time and
    the function and is appended to the scheduler's list. *)
Definition schedule_at_do (day : weekday) (time : yaml) (f : job_func) : M St unit :=
  _ <- lift (job_at time) ;;
  fun w =>
    (Ok tt,
     mkWorld (outside w) (seen_ids w)
             ((day, mkJob (Some time) (Some f)) :: day_jobs w)
             (scheduled w ++ [day]),
     [JobRegistered day f]).

Definition run_job (f : job_func) : M St unit :=
  emit (JobRun f) ;;
  match f with
  | job_process_images => process_images env config None false
  | job_process_excel_topics => process_excel_topics env config
  end.

Fixpoint run_jobs (days : list weekday) : M St unit :=
  match days with
  | [] => ret tt
  | d :: days' =>
      (fun w => match job_of d (day_jobs w) with
                | Some f => run_job f w
                | None => (Ok tt, w, [])
                end) ;;
      run_jobs days'
  end.

(** [schedule.run_pending()]: the library picks the entries of its list that
    are due and runs them in the order it chooses. *)
Definition run_pending : M St unit :=
  due <- (fun w =>
            let '(due, s) := schedule_due env (scheduled w) (outside w) in
            (Ok (List.filter (fun d => existsb (weekday_eqb d) (scheduled w)) due),
             mkWorld s (seen_ids w) (day_jobs w) (scheduled w), [])) ;;
  run_jobs due.

Definition sleep (seconds : Z) : M St unit :=
  fun w =>
    (Ok tt,
     mkWorld (time_sleep env seconds (outside w)) (seen_ids w) (day_jobs w) (scheduled w),
     [Sleep seconds]).

Fixpoint schedule_loop (fuel : nat) : M St running :=
  match fuel with
  | O => ret StillRunning
  | S fuel' => run_pending ;; sleep 30 ;; schedule_loop fuel'
  end.

Fixpoint polling_loop (fuel : nat) : M St running :=
  match fuel with
  | O => ret StillRunning
  | S fuel' =>
      images <- call (list_onedrive_images env) (fun r => Listing (is_ok r)) ;;
      process_images env config (Some images) true ;;
      process_excel_topics env config ;;
      sleep 3600 ;;
      polling_loop fuel'
  end.

Definition main (trigger_mode : string) (fuel : nat) : M St running :=
  emit (Log INFO "Susi started with trigger mode: {trigger_mode}") ;;
  if String.eqb trigger_mode "polling" then
    (fun w => (Ok tt, mkWorld (outside w) ∅ (day_jobs w) (scheduled w), [])) ;;
    polling_loop fuel
  else if String.eqb trigger_mode "schedule" then
    img_day <- lift (schedule_day IMAGE_DAY_KEY "Tuesday") ;;
    img_time <- lift (schedule_setting IMAGE_TIME_KEY "09:00") ;;
    post_day <- lift (schedule_day INSTAGRAM_DAY_KEY "Thursday") ;;
    post_time <- lift (schedule_setting INSTAGRAM_TIME_KEY "09:00") ;;
    match assoc img_day DAY_MAP with
    | Some d => schedule_at_do d img_time job_process_images
    | None =>
        emit (Log ERROR "Unknown image workflow schedule day: {img_day}") ;;
        raise (mkExn ValueError ("Unknown image workflow schedule day: " +:+ img_day))
    end ;;
    match assoc post_day DAY_MAP with
    | Some d => schedule_at_do d post_time job_process_excel_topics
    | None =>
        emit (Log ERROR "Unknown Instagram workflow schedule day: {post_day}") ;;
        raise (mkExn ValueError ("Unknown Instagram workflow schedule day: " +:+ post_day))
    end ;;
    emit (Log INFO "Scheduler started.") ;;
    schedule_loop fuel
  else
    emit (Log ERROR "Unknown trigger_mode: {trigger_mode}") ;;
    raise (mkExn ValueError ("Unknown trigger_mode: " +:+ trigger_mode)).

End Main.

(** ** Observations on runs *)

(** The outcome [x] with the events [evs] put in front of its own. *)
Definition after {St A : Type} (evs : list event)
    (x : result A * world St * list event) : result A * world St * list event :=
  let '(r, w, evs') := x in (r, w, evs ++ evs').

(** What the notification transports produce below the entry into
    [send_error] or [send_confirmation]. *)
Definition transport_event (ev : event) : Prop :=
  match ev with
  | Log _ _ | GmailService _ | GmailSend _ _ _ | SmtpSend _ _ _ | TenacityWait => True
  | _ => False
  end.

(** The number of calls of [send_error]. *)
Fixpoint failure_notifications (evs : list event) : nat :=
  match evs with
  | [] => O
  | SendError _ _ :: evs' => S (failure_notifications evs')
  | _ :: evs' => failure_notifications evs'
  end.

(** The number of calls of [send_confirmation]. *)
Fixpoint success_notifications (evs : list event) : nat :=
  match evs with
  | [] => O
  | SendConfirmation _ _ :: evs' => S (success_notifications evs')
  | _ :: evs' => success_notifications evs'
  end.

(** Some transport accepted the message. *)
Definition delivered (evs : list event) : Prop :=
  exists subject body,
    In (GmailSend subject body true) evs \/ In (SmtpSend subject body true) evs.

Definition error_logged (evs : list event) : Prop :=
  exists fmt, In (Log ERROR fmt) evs.

(** The rows marked processed, and the Instagram and LinkedIn texts that
    reached the sheet, in the order of the run. *)
Fixpoint marked_rows (evs : list event) : list nat :=
  match evs with
  | [] => []
  | MarkProcessed idx true :: evs' => idx :: marked_rows evs'
  | _ :: evs' => marked_rows evs'
  end.

Fixpoint instagram_written (evs : list event) : list (nat * string) :=
  match evs with
  | [] => []
  | WriteInstagram idx text true :: evs' => (idx, text) :: instagram_written evs'
  | _ :: evs' => instagram_written evs'
  end.

Fixpoint linkedin_written (evs : list event) : list (nat * string) :=
  match evs with
  | [] => []
  | WriteLinkedIn idx text true :: evs' => (idx, text) :: linkedin_written evs'
  | _ :: evs' => linkedin_written evs'
  end.

(** The cells patched, in the order of the run. *)
Fixpoint patched_cells (evs : list event) : list cell_address :=
  match evs with
  | [] => []
  | RangePatch a _ _ :: evs' => a :: patched_cells evs'
  | _ :: evs' => patched_cells evs'
  end.

(** Following the claim about the fallback caption: one line [- <title>]
    per article that has a title. *)
Fixpoint claimed_title_lines (articles : list article) : list string :=
  match articles with
  | [] => []
  | a :: articles' =>
      match assoc "title" a with
      | Some t => ("- " +:+ py_str t) :: claimed_title_lines articles'
      | None => claimed_title_lines articles'
      end
  end.

(** What [send_error] and [send_confirmation] produce, entry included. *)
Definition notification_event (ev : event) : Prop :=
  match ev with
  | SendError _ _ | SendConfirmation _ _ => True
  | _ => transport_event ev
  end.

(** What the handling of the row with enumeration index [idx] may produce:
    its sheet calls carry that index, its patches go to row [idx + 2], and
    nothing of the image workflow or the scheduler occurs. *)
Definition row_event (idx : nat) (ev : event) : Prop :=
  match ev with
  | RangePatch a _ _ => row_number a = (idx + 2)%nat
  | WriteInstagram i _ _ | WriteLinkedIn i _ _ | MarkProcessed i _ => i = idx
  | TokenRequest _ | UsedRangeGet _ | NewsFetch _ _ _
  | InstagramGeneration _ _ _ _ | LinkedInGeneration _ _ _ _ => True
  | _ => notification_event ev
  end.

(** Events that the handling of an image may produce once the upload to
    the object store has succeeded: anything but a further upload. *)
Definition not_upload (ev : event) : Prop :=
  match ev with
  | Upload _ _ _ => False
  | _ => True
  end.

(** No constraint between the state before and the state after. *)
Definition any_world {St : Type} (w w' : world St) : Prop := True.

(** Every event of [m] satisfies [P], and [m] relates the state it starts
    in to the state it ends in by [R]. *)
Definition safe {St A : Type} (P : event -> Prop)
    (R : world St -> world St -> Prop) (m : M St A) : Prop :=
  forall w, Forall P (m w).2 /\ R w (m w).1.2.

(** The [seen_ids] set and the scheduler are left as they were. *)
Definition same_process {St : Type} (w w' : world St) : Prop :=
  seen_ids w' = seen_ids w /\ day_jobs w' = day_jobs w /\ scheduled w' = scheduled w.

(** Not an upload that came back without a URL (or raised, which is
    recorded without a URL as well). *)
Definition not_failed_upload (ev : event) : Prop :=
  match ev with
  | Upload _ u _ => no_url u = false
  | _ => True
  end.

(** What happens to an item up to the upload call. *)
Definition before_upload_event (ev : event) : Prop :=
  match ev with
  | Log _ _ | Download _ _ | MetadataRead _ _ | CaptionRendered _ => True
  | _ => False
  end.

(** What may happen to an item that is given up at the upload: the stages
    up to the upload, the upload itself and the failure notification.  No
    post, no move, no removal of the local file, no confirmation. *)
Definition aborted_item_event (ev : event) : Prop :=
  match ev with
  | Log _ _ | Download _ _ | MetadataRead _ _ | CaptionRendered _
  | Upload _ _ _ | SendError _ _ => True
  | _ => transport_event ev
  end.

(** The outcome of an item given up at the upload: it returns, leaves
    [seen_ids] and the scheduler alone, and has sent one failure
    notification. *)
Definition upload_abort {St : Type} (w : world St)
    (x : result unit * world St * list event) : Prop :=
  x.1.1 = Ok tt
  /\ same_process w x.1.2
  /\ failure_notifications x.2 = 1%nat
  /\ Forall aborted_item_event x.2.

(** Either no upload failed, or the item was given up as above. *)
Definition upload_fails_safely {St : Type} (w : world St)
    (x : result unit * world St * list event) : Prop :=
  Forall not_failed_upload x.2 \/ upload_abort w x.

(** What a write to the sheet for enumeration index [idx] produces below
    its own record. *)
Definition patch_event (idx : nat) (ev : event) : Prop :=
  match ev with
  | TokenRequest _ | UsedRangeGet _ => True
  | RangePatch a _ _ => row_number a = (idx + 2)%nat
  | _ => False
  end.

(** Not a record of [mark_row_processed]. *)
Definition not_mark (ev : event) : Prop :=
  match ev with
  | MarkProcessed _ _ => False
  | _ => True
  end.

(** What the code guarantees about a mark in the events of the row with
    enumeration index [idx]: a non-empty caption was handed to the Instagram
    write (which may have failed), and a LinkedIn write returned. *)
Definition mark_has_cause (idx : nat) (evs : list event) : Prop :=
  forall i b,
    In (MarkProcessed i b) evs ->
    exists caption ok text,
      nonempty caption = true
      /\ In (WriteInstagram idx caption ok) evs
      /\ In (WriteLinkedIn idx text true) evs.

(** The part of [mark_has_cause] that the stages after the Instagram write
    establish for the caption they were given. *)
Definition linkedin_cause (idx : nat) (caption : string) (evs : list event) : Prop :=
  forall (i : nat) (b : bool),
    In (MarkProcessed i b) evs ->
    nonempty caption = true /\ exists text, In (WriteLinkedIn idx text true) evs.

(** What [move_onedrive_file_to_processed] itself produces. *)
Definition move_body_event (ev : event) : Prop :=
  match ev with
  | Log _ _ | TokenRequest _ | MoveRequest _ _ => True
  | _ => False
  end.

(** Not a record of [move_onedrive_file_to_processed]. *)
Definition not_move (ev : event) : Prop :=
  match ev with
  | MoveToProcessed _ _ => False
  | _ => True
  end.

(** The outcome of an item with respect to [seen_ids]: the set is as it
    was, or it has gained the item's id after a successful post and a call
    of [move_onedrive_file_to_processed] that returned. *)
Definition seen_after_archive {St A : Type} (it : item) (w : world St)
    (x : result A * world St * list event) : Prop :=
  seen_ids x.1.2 = seen_ids w
  \/ (seen_ids x.1.2 = {[item_id it]} ∪ seen_ids w
      /\ (exists url caption, In (Post url caption (Some true)) x.2)
      /\ In (MoveToProcessed it true) x.2
      /\ forall i b, In (MoveToProcessed i b) x.2 -> b = true).

(** ** Concrete scenarios

    An outside world without state of its own, a sheet with the five
    columns of the tests, and collaborators whose outcomes are chosen per
    scenario. *)

Definition demo_header : list scalar :=
  [SStr "Content"; SStr "Target Group"; SStr "Instagram"; SStr "LinkedIn";
   SStr "processed"].

Definition demo_row (content target_group processed : string) : list scalar :=
  [SStr content; SStr target_group; SStr ""; SStr ""; SStr processed].

Definition demo_config (provider : string) : yaml :=
  YDict
    [("template", YScalar (SStr "{title}"));
     ("aws", YDict [("s3_bucket", YScalar (SStr "bucket"));
                    ("region", YScalar (SStr "region"))]);
     ("email", YDict [("provider", YScalar (SStr provider));
                      ("username", YScalar (SStr "dummy"));
                      ("recipient", YScalar (SStr "dummy"));
                      ("smtp_server", YScalar (SStr "localhost"));
                      ("smtp_port", YScalar (SInt 25));
                      ("password", YScalar (SStr "secret"))]);
     ("onedrive", YDict [("processed_folder", YScalar (SStr "/processed"))]);
     ("schedule", YDict [("image_day", YScalar (SStr "Tuesday"));
                         ("instagram_day", YScalar (SStr "Someday"))])].

(** A configuration file in which the [email] section was left out. *)
Definition config_without_email : yaml :=
  YDict
    [("template", YScalar (SStr "{title}"));
     ("aws", YDict [("s3_bucket", YScalar (SStr "bucket"));
                    ("region", YScalar (SStr "region"))]);
     ("onedrive", YDict [("processed_folder", YScalar (SStr "/processed"))])].

(** A schedule whose image time was written without quotes: YAML reads
    [10:30] as the number 630.  The Instagram day is no weekday. *)
Definition unquoted_time_config : yaml :=
  YDict
    [("schedule", YDict [("image_day", YScalar (SStr "Monday"));
                         ("image_time", YScalar (SInt 630));
                         ("instagram_day", YScalar (SStr "Someday"))])].

Definition down : exn := mkExn TransportError "service unavailable".

Definition demo_env (values : list (list scalar))
    (news : result (list article)) (instagram : result string)
    (patch : cell_address -> result unit)
    (upload : result (option string)) (post : result bool) (move : result Z)
  : Env unit :=
  {| get_access_token := fun s => (Ok (SStr "token"), s);
     graph_get_used_range := fun s => (Ok values, s);
     graph_patch_range := fun a _ s => (patch a, s);
     fetch_news_articles := fun _ _ s => (news, s);
     generate_instagram_post := fun _ _ _ s => (instagram, s);
     generate_linkedin_post := fun _ _ _ s => (Ok "LinkedIn post (mocked)", s);
     get_gmail_service := fun s => (Ok tt, s);
     gmail_messages_send := fun _ _ s => (Ok tt, s);
     smtp_send_message := fun _ _ s => (Raise down, s);
     list_onedrive_images := fun s => (Ok [mkItem "1" "test.jpg"], s);
     download_onedrive_image := fun _ s => (Ok "downloads/test.jpg", s);
     extract_metadata := fun _ s => (Ok [("title", "Test")], s);
     generate_post_text := fun _ _ s => (Ok "Test caption", s);
     upload_file_to_s3 := fun _ _ _ s => (upload, s);
     poster_post := fun _ _ s => (post, s);
     graph_patch_parent := fun _ _ s => (move, s);
     os_remove := fun _ s => (Ok tt, s);
     format_exc := fun e => "Traceback (most recent call last)";
     schedule_accepts_time := fun _ => true;
     schedule_due := fun days s => (days, s);
     time_sleep := fun _ s => s |}.

Definition demo_world : world unit := mkWorld tt ∅ [] [].

Definition demo_article : article :=
  [("title", SStr "AI revolutionizes diagnosis");
   ("description", SStr "AI is helping doctors...")].

(** The sheet of one open row, and collaborators that all succeed; the
    SMTP server alone is down. *)
Definition one_row_sheet : list (list scalar) :=
  [demo_header; demo_row "AI in Healthcare" "Doctors" ""].

Definition calm_env : Env unit :=
  demo_env one_row_sheet (Ok [demo_article]) (Ok "Instagram post (mocked)")
    (fun _ => Ok tt) (Ok (Some "https://bucket.s3.region.amazonaws.com/test.jpg"))
    (Ok true) (Ok 200).

(** A row whose [Content] cell is empty. *)
Definition blank_row : ExcelMonitor.row :=
  combine demo_header (demo_row "" "Doctors" "").

(** The patch of the Instagram column (the third one, letter C) is
    refused; every other call succeeds. *)
Definition instagram_write_fails_env : Env unit :=
  demo_env one_row_sheet (Ok [demo_article]) (Ok "Instagram post (mocked)")
    (fun a => if (column_chr a =? 67)%nat then Raise down else Ok tt)
    (Ok (Some "https://bucket.s3.region.amazonaws.com/test.jpg"))
    (Ok true) (Ok 200).

(** The news search is down; every other call succeeds. *)
Definition news_down_env : Env unit :=
  demo_env one_row_sheet (Raise down) (Ok "Instagram post (mocked)")
    (fun _ => Ok tt) (Ok (Some "https://bucket.s3.region.amazonaws.com/test.jpg"))
    (Ok true) (Ok 200).

(** The news search is down in the state [false] and leaves it in the state
    [true], in which it finds nothing; no other call looks at the state. *)
Definition recovering_news_env : Env bool :=
  {| get_access_token := fun s => (Ok (SStr "token"), s);
     graph_get_used_range := fun s => (Ok one_row_sheet, s);
     graph_patch_range := fun _ _ s => (Ok tt, s);
     fetch_news_articles :=
       fun _ _ (s : bool) => if s then (Ok [], true) else (Raise down, true);
     generate_instagram_post := fun _ _ _ s => (Ok "Instagram post (mocked)", s);
     generate_linkedin_post := fun _ _ _ s => (Ok "LinkedIn post (mocked)", s);
     get_gmail_service := fun s => (Ok tt, s);
     gmail_messages_send := fun _ _ s => (Ok tt, s);
     smtp_send_message := fun _ _ s => (Raise down, s);
     list_onedrive_images := fun s => (Ok [], s);
     download_onedrive_image := fun _ s => (Ok "downloads/test.jpg", s);
     extract_metadata := fun _ s => (Ok [], s);
     generate_post_text := fun _ _ s => (Ok "Test caption", s);
     upload_file_to_s3 := fun _ _ _ s => (Ok None, s);
     poster_post := fun _ _ s => (Ok true, s);
     graph_patch_parent := fun _ _ s => (Ok 200, s);
     os_remove := fun _ s => (Ok tt, s);
     format_exc := fun e => "Traceback (most recent call last)";
     schedule_accepts_time := fun _ => true;
     schedule_due := fun days s => (days, s);
     time_sleep := fun _ s => s |}.

(** The language model is down for the Instagram post. *)
Definition model_down_env : Env unit :=
  demo_env one_row_sheet (Ok [demo_article]) (Raise down)
    (fun _ => Ok tt) (Ok (Some "https://bucket.s3.region.amazonaws.com/test.jpg"))
    (Ok true) (Ok 200).

Definition open_row : ExcelMonitor.row :=
  combine demo_header (demo_row "AI in Healthcare" "Doctors" "").

(** The sheet of the unit test of [get_excel_rows], with the processed row
    first. *)
Definition mixed_sheet : list (list scalar) :=
  [demo_header; demo_row "ML" "Nurses" "x"; demo_row "AI" "Doctors" ""].

(** The object store returns no URL. *)
Definition upload_none_env : Env unit :=
  demo_env one_row_sheet (Ok [demo_article]) (Ok "Instagram post (mocked)")
    (fun _ => Ok tt) (Ok None) (Ok true) (Ok 200).

(** The move request is answered with status 500. *)
Definition move_refused_env : Env unit :=
  demo_env one_row_sheet (Ok [demo_article]) (Ok "Instagram post (mocked)")
    (fun _ => Ok tt) (Ok (Some "https://bucket.s3.region.amazonaws.com/test.jpg"))
    (Ok true) (Ok 500).

Definition test_item : item := mkItem "1" "test.jpg".
Definition second_item : item := mkItem "2" "next.jpg".

(** The collaborators of [calm_env] on [mixed_sheet]. *)
Definition mixed_env : Env unit :=
  demo_env mixed_sheet (Ok [demo_article]) (Ok "Instagram post (mocked)")
    (fun _ => Ok tt) (Ok (Some "https://bucket.s3.region.amazonaws.com/test.jpg"))
    (Ok true) (Ok 200).

(** ** Observations on the notification transports *)

(** Calls of the two transports, waits of the retry loop, and sends that a
    transport accepted. *)
Definition gmail_send (ev : event) : bool :=
  match ev with GmailSend _ _ _ => true | _ => false end.

Definition smtp_send (ev : event) : bool :=
  match ev with SmtpSend _ _ _ => true | _ => false end.

Definition tenacity_wait (ev : event) : bool :=
  match ev with TenacityWait => true | _ => false end.

Definition accepted (ev : event) : bool :=
  match ev with GmailSend _ _ true | SmtpSend _ _ true => true | _ => false end.

Definition occurrences (p : event -> bool) (evs : list event) : nat :=
  length (List.filter p evs).

(** The number of sends that were still tried after a transport had
    accepted the message. *)
Fixpoint sends_after_delivery (evs : list event) : nat :=
  match evs with
  | [] => O
  | ev :: evs' =>
      if accepted ev
      then (occurrences gmail_send evs' + occurrences smtp_send evs')%nat
      else sends_after_delivery evs'
  end.

(** The use a run makes of the transports when it may start over [retries]
    times: each transport is tried at most [retries + 1] times, the loop
    waits at most [retries] times, nothing is sent after a transport has
    accepted the message, and a run that raises has delivered nothing. *)
Definition transport_use {St A : Type} (retries : nat)
    (x : result A * world St * list event) : Prop :=
  (occurrences gmail_send x.2 <= S retries)%nat
  /\ (occurrences smtp_send x.2 <= S retries)%nat
  /\ (occurrences tenacity_wait x.2 <= retries)%nat
  /\ sends_after_delivery x.2 = O
  /\ (is_ok x.1.1 = false -> occurrences accepted x.2 = O).

(** Not a call of the Gmail API. *)
Definition not_gmail (ev : event) : Prop :=
  match ev with
  | GmailService _ | GmailSend _ _ _ => False
  | _ => True
  end.

(** A header that names [processed] twice: the header of the test sheet
    with a further column in front. *)
Definition twice_processed_header : list scalar := SStr "processed" :: demo_header.

(** ** Runs seen from their history *)

(** [wp m Q h w]: started in the state [w] after the events [h], the run of
    [m] ends with a result, a history and a state that satisfy [Q].  A
    history lists the events latest first. *)
Definition wp {St A : Type} (m : M St A)
    (Q : result A -> list event -> world St -> Prop)
    (h : list event) (w : world St) : Prop :=
  Q (m w).1.1 (rev (m w).2 ++ h) (m w).1.2.

(** Every event of the history [h] finds among the events before it what
    [needs] asks for. *)
Fixpoint settled (needs : list event -> event -> bool) (h : list event) : bool :=
  match h with
  | [] => true
  | ev :: h' => needs h' ev && settled needs h'
  end.

Definition item_eqb (a b : item) : bool :=
  String.eqb (item_id a) (item_id b) && String.eqb (item_name a) (item_name b).

(** What an event of the image workflow needs to have happened before it:
    metadata is read after a download that returned; a caption is rendered
    after metadata was read; a file is uploaded after its metadata was read
    and a caption was rendered; a URL is posted after an upload returned it;
    the archive move of an item is requested, and recorded, after a post
    that returned [True] and the download of that item; a file is removed
    after a move that returned; the confirmation is entered after a
    removal that returned. *)
Definition image_needs (h : list event) (ev : event) : bool :=
  match ev with
  | MetadataRead _ _ =>
      existsb (fun e => match e with Download _ true => true | _ => false end) h
  | CaptionRendered _ =>
      existsb (fun e => match e with MetadataRead _ true => true | _ => false end) h
  | Upload path _ _ =>
      existsb (fun e => match e with
                        | MetadataRead p true => String.eqb p path
                        | _ => false
                        end) h
      && existsb (fun e => match e with CaptionRendered true => true | _ => false end) h
  | Post url _ _ =>
      nonempty url
      && existsb (fun e => match e with
                           | Upload _ (Some u) true => String.eqb u url
                           | _ => false
                           end) h
  | MoveRequest it _ | MoveToProcessed it _ =>
      existsb (fun e => match e with Post _ _ (Some true) => true | _ => false end) h
      && existsb (fun e => match e with
                           | Download i true => item_eqb i it
                           | _ => false
                           end) h
  | Remove path _ =>
      existsb (fun e => match e with MoveToProcessed _ true => true | _ => false end) h
      && existsb (fun e => match e with
                           | MetadataRead p true => String.eqb p path
                           | _ => false
                           end) h
  | SendConfirmation _ _ =>
      existsb (fun e => match e with Remove _ true => true | _ => false end) h
  | _ => true
  end.

(** What [send_error] produces, entry included. *)
Definition failure_event (ev : event) : Prop :=
  match ev with
  | SendError _ _ => True
  | _ => transport_event ev
  end.

(** ** Observations on the sheet workflow *)

(** What an event of the sheet workflow needs to have happened before it: a
    LinkedIn text is written only if it is not empty and a generation
    returned; a row is marked only after a write of a non-empty LinkedIn
    text for that row returned and a non-empty caption was handed to the
    Instagram write for that row. *)
Definition sheet_needs (h : list event) (ev : event) : bool :=
  match ev with
  | WriteLinkedIn _ text _ =>
      nonempty text
      && existsb (fun e => match e with
                           | LinkedInGeneration _ _ _ true => true
                           | _ => false
                           end) h
  | MarkProcessed i _ =>
      existsb (fun e => match e with
                        | WriteLinkedIn j text true => Nat.eqb j i && nonempty text
                        | _ => false
                        end) h
      && existsb (fun e => match e with
                           | WriteInstagram j caption _ => Nat.eqb j i && nonempty caption
                           | _ => false
                           end) h
  | _ => true
  end.

(** Entries into [send_confirmation], and marks that returned. *)
Definition confirmation (ev : event) : bool :=
  match ev with SendConfirmation _ _ => true | _ => false end.

Definition mark_returned (ev : event) : bool :=
  match ev with MarkProcessed _ true => true | _ => false end.

(** Neither a LinkedIn write nor a mark. *)
Definition sheet_quiet (ev : event) : Prop :=
  match ev with
  | WriteLinkedIn _ _ _ | MarkProcessed _ _ => False
  | _ => True
  end.

(** Neither a mark nor an entry into [send_confirmation]. *)
Definition count_quiet (ev : event) : Prop :=
  match ev with
  | SendConfirmation _ _ | MarkProcessed _ _ => False
  | _ => True
  end.

(** ** Observations on the items of a cycle *)

(** The events that name an item name one that satisfies [P]. *)
Definition about_item (P : item -> Prop) (ev : event) : Prop :=
  match ev with
  | Download i _ | MoveRequest i _ | MoveToProcessed i _ => P i
  | _ => True
  end.

(** A second image of the folder, and a state of polling mode in which the
    first one has been handled. *)
Definition other_item : item := mkItem "2" "other.jpg".

Definition seen_first_world : world unit := mkWorld tt {[ "1" ]} [] [].

(** ** Observations on the scheduler *)

(** Neither the registration nor the run of a job. *)
Definition no_job_event (ev : event) : Prop :=
  match ev with
  | JobRun _ | JobRegistered _ _ => False
  | _ => True
  end.

(** The only workflow that is run is the sheet workflow. *)
Definition sheet_runs_only (ev : event) : Prop :=
  match ev with
  | JobRun f => f = job_process_excel_topics
  | _ => True
  end.

(** Every job object that has been configured holds the sheet workflow. *)
Definition only_sheet_jobs {St : Type} (w : world St) : Prop :=
  forall d f, job_of d (day_jobs w) = Some f -> f = job_process_excel_topics.

Definition job_run (ev : event) : bool :=
  match ev with JobRun _ => true | _ => false end.

(** Both workflows on Mondays, at different times. *)
Definition same_day_config : yaml :=
  YDict
    [("template", YScalar (SStr "{title}"));
     ("aws", YDict [("s3_bucket", YScalar (SStr "bucket"));
                    ("region", YScalar (SStr "region"))]);
     ("email", YDict [("provider", YScalar (SStr "gmail"));
                      ("username", YScalar (SStr "dummy"));
                      ("recipient", YScalar (SStr "dummy"))]);
     ("onedrive", YDict [("processed_folder", YScalar (SStr "/processed"))]);
     ("schedule", YDict [("image_day", YScalar (SStr "Monday"));
                         ("image_time", YScalar (SStr "09:00"));
                         ("instagram_day", YScalar (SStr "monday"));
                         ("instagram_time", YScalar (SStr "17:00"))])].

(** The sheet cannot be read: the request for the used range is refused. *)
Definition sheet_down_env : Env unit :=
  {| get_access_token := fun s => (Ok (SStr "token"), s);
     graph_get_used_range := fun s => (Raise down, s);
     graph_patch_range := fun _ _ s => (Ok tt, s);
     fetch_news_articles := fun _ _ s => (Ok [demo_article], s);
     generate_instagram_post := fun _ _ _ s => (Ok "Instagram post (mocked)", s);
     generate_linkedin_post := fun _ _ _ s => (Ok "LinkedIn post (mocked)", s);
     get_gmail_service := fun s => (Ok tt, s);
     gmail_messages_send := fun _ _ s => (Ok tt, s);
     smtp_send_message := fun _ _ s => (Raise down, s);
     list_onedrive_images := fun s => (Ok [], s);
     download_onedrive_image := fun _ s => (Ok "downloads/test.jpg", s);
     extract_metadata := fun _ s => (Ok [("title", "Test")], s);
     generate_post_text := fun _ _ s => (Ok "Test caption", s);
     upload_file_to_s3 := fun _ _ _ s => (Ok None, s);
     poster_post := fun _ _ s => (Ok true, s);
     graph_patch_parent := fun _ _ s => (Ok 200, s);
     os_remove := fun _ s => (Ok tt, s);
     format_exc := fun e => "Traceback (most recent call last)";
     schedule_accepts_time := fun _ => true;
     schedule_due := fun days s => (days, s);
     time_sleep := fun _ s => s |}.

(** ** services/s3.py *)

Module S3.

Fixpoint has_slash (p : string) : bool :=
  match p with
  | EmptyString => false
  | String c p' => Ascii.eqb c "/" || has_slash p'
  end.

(** [os.path.basename(p)]: what follows the last slash. *)
Fixpoint basename (p : string) : string :=
  match p with
  | EmptyString => EmptyString
  | String c p' =>
      if has_slash p' then basename p'
      else if Ascii.eqb c "/" then p' else String c p'
  end.

(** The records that a call adds to the log of the [logging] module. *)
Definition log := list (level * string).

Section Upload.
Context {St : Type}.
(** [boto3.client('s3', aws_access_key_id=..., aws_secret_access_key=...,
    region_name=...)] and [s3_client.upload_file(file_path, bucket_name,
    object_name, ExtraArgs=...)]. *)
Variable boto3_client : scalar -> scalar -> scalar -> St -> result unit * St.
Variable upload_file : string -> scalar -> string -> St -> result unit * St.
(** The class test of [except ClientError]. *)
Variable ClientError : exn -> bool.

(** The function as written, before it is decorated.  The state is the
    outside world together with the log. *)
Definition upload (file_path : string) (bucket_name : scalar)
    (object_name : option string)
    (aws_access_key_id aws_secret_access_key region_name : scalar)
    (st : St * log) : result (option string) * (St * log) :=
  let object_name :=
    match object_name with
    | None => basename file_path
    | Some n => n
    end in
  match boto3_client aws_access_key_id aws_secret_access_key region_name st.1 with
  | (Raise e, s1) => (Raise e, (s1, st.2))
  | (Ok _, s1) =>
      match upload_file file_path bucket_name object_name s1 with
      | (Raise e, s2) =>
          if ClientError e
          then (Ok None, (s2, st.2 ++ [(ERROR, "Error uploading to S3 (ClientError): {e}")]))
          else (Ok None, (s2, st.2 ++ [(ERROR, "Unexpected error uploading to S3: {e}")]))
      | (Ok _, s2) =>
          let url := "https://" +:+ py_str bucket_name +:+ ".s3." +:+ py_str region_name
                       +:+ ".amazonaws.com/" +:+ object_name in
          (Ok (Some url), (s2, st.2 ++ [(INFO, "File uploaded to S3: {url}")]))
      end
  end.

(** [@retry(Exception, tries=3, delay=2, backoff=2, logger=...)]. *)
Definition upload_file_to_s3 (file_path : string) (bucket_name : scalar)
    (object_name : option string)
    (aws_access_key_id aws_secret_access_key region_name : scalar)
  : St * log -> result (option string) * (St * log) * list Retry.event :=
  Retry.f_retry (fun _ => true) 3 2 2 true Retry.time_sleep
    (upload file_path bucket_name object_name
       aws_access_key_id aws_secret_access_key region_name).

End Upload.

(** A bucket that refuses every upload. *)
Definition refusing_bucket (s : nat) : result unit * nat :=
  (Raise (mkExn TransportError "access denied"), S s).

End S3.

(** ** instagram.py *)

Module Instagram.

(** What a call does that can be observed: the three kinds of request to
    the Graph API with their outcome, the sleeps between two polls, and the
    records written to the log. *)
Inductive event :=
| MediaRequest (image_url caption : string) (status : option Z)
| StatusRequest (status : result scalar)
| Slept (seconds : Z)
| PublishRequest (creation_id : scalar) (status : option Z)
| Logged (lvl : level) (fmt : string).

(** The outside world together with the events so far. *)
Definition trace (St : Type) : Type := St * list event.

(** [status == s] for a value of the decoded response. *)
Definition is_str (v : scalar) (s : string) : bool :=
  match v with
  | SStr t => String.eqb t s
  | _ => false
  end.

Section Poll.
Context {St : Type}.
(** [requests.get(url)], [resp.json()] and [data.get("status_code")] for
    the media object [creation_id]: the status, or the exception that one
    of the three raised. *)
Variable get_status : scalar -> yaml -> St -> result scalar * St.
Variable time_sleep : Z -> St -> St.

(** The [while waited < max_wait] loop of [wait_for_media_ready] and what
    follows it; [fuel] bounds the number of iterations, and [None] says
    that it did not suffice. *)
Fixpoint wait_loop (creation_id : scalar) (access_token : yaml)
    (max_wait poll_interval : Z)
    (fuel : nat) (waited : Z) (t : trace St) : option (bool * trace St) :=
  if waited <? max_wait then
    match fuel with
    | O => None
    | S fuel' =>
        let '(r, s1) := get_status creation_id access_token t.1 in
        let polled := t.2 ++ [StatusRequest r] in
        let again (evs : list event) :=
          wait_loop creation_id access_token max_wait poll_interval fuel'
            (waited + poll_interval)
            (time_sleep poll_interval s1, polled ++ evs ++ [Slept poll_interval]) in
        match r with
        | Ok status =>
            if is_str status "FINISHED" then Some (true, (s1, polled))
            else if is_str status "ERROR" then
              Some (false,
                    (s1, polled ++ [Logged ERROR "Instagram media processing failed: {data}"]))
            else again []
        | Raise e => again [Logged ERROR "Error polling Instagram media status: {e}"]
        end
    end
  else
    Some (false,
          (t.1, t.2 ++ [Logged ERROR "Timeout waiting for Instagram media to be ready."])).

End Poll.

(** The number of polls that [max_wait] allows. *)
Definition polls_allowed (max_wait poll_interval : Z) : nat :=
  Z.to_nat ((max_wait + poll_interval - 1) / poll_interval).

Fixpoint status_requests (evs : list event) : nat :=
  match evs with
  | [] => O
  | StatusRequest _ :: evs' => S (status_requests evs')
  | _ :: evs' => status_requests evs'
  end.

Fixpoint slept (evs : list event) : Z :=
  match evs with
  | [] => 0
  | Slept d :: evs' => d + slept evs'
  | _ :: evs' => slept evs'
  end.

(** What a run of the loop adds to the trace: at most [n] polls, at most one
    sleep of [poll_interval] seconds per poll, and the result [True] exactly
    if a poll reported [FINISHED]. *)
Definition waited_for {St : Type} (poll_interval : Z) (n : nat) (t : trace St)
    (b : bool) (t' : trace St) : Prop :=
  exists evs,
    t'.2 = t.2 ++ evs
    /\ (status_requests evs <= n)%nat
    /\ slept evs <= Z.of_nat (status_requests evs) * poll_interval
    /\ (b = true <-> In (StatusRequest (Ok (SStr "FINISHED"))) evs).

(** The body of a response to a POST as far as the code reads it:
    [resp.status_code] and the outcome of [resp.json().get('id')]. *)
Record response := mkResponse { status_code : Z; json_id : result scalar }.

Section Post.
Context {St : Type}.
(** [requests.post(create_url, data=payload)] and
    [requests.post(publish_url, data=payload)]. *)
Variable post_media : yaml -> string -> string -> yaml -> St -> result response * St.
Variable post_publish : yaml -> scalar -> yaml -> St -> result Z * St.
(** The decorated [wait_for_media_ready]. *)
Variable wait_for_media_ready :
  scalar -> yaml -> Z -> Z -> trace St -> result bool * trace St.

(** [config['instagram']['access_token']] and
    [config['instagram']['user_id']]. *)
Definition credentials (config : yaml) : result (yaml * yaml) :=
  match cfg_item config "instagram" with
  | Raise e => Raise e
  | Ok ig =>
      match cfg_item ig "access_token" with
      | Raise e => Raise e
      | Ok access_token =>
          match cfg_item ig "user_id" with
          | Raise e => Raise e
          | Ok user_id => Ok (access_token, user_id)
          end
      end
  end.

(** [post_to_instagram] as written, before it is decorated. *)
Definition post (image_url caption : string) (config : yaml) (t : trace St)
  : result bool * trace St :=
  match credentials config with
  | Raise e => (Raise e, t)
  | Ok (access_token, user_id) =>
      match post_media user_id image_url caption access_token t.1 with
      | (Raise e, s1) => (Raise e, (s1, t.2 ++ [MediaRequest image_url caption None]))
      | (Ok resp, s1) =>
          let t1 := (s1, t.2 ++ [MediaRequest image_url caption (Some (status_code resp))]) in
          if negb (status_code resp =? 200) then
            (Ok false, (t1.1, t1.2 ++ [Logged ERROR "Failed to create media object: {resp.text}"]))
          else
            match json_id resp with
            | Raise e => (Raise e, t1)
            | Ok creation_id =>
                if negb (truthy creation_id) then
                  (Ok false,
                   (t1.1, t1.2 ++ [Logged ERROR "No creation_id returned from Instagram: {resp.text}"]))
                else
                  match wait_for_media_ready creation_id access_token 60 5 t1 with
                  | (Raise e, t2) => (Raise e, t2)
                  | (Ok false, t2) =>
                      (Ok false,
                       (t2.1, t2.2 ++ [Logged ERROR "Media object {creation_id} not ready for publishing after waiting."]))
                  | (Ok true, t2) =>
                      match post_publish user_id creation_id access_token t2.1 with
                      | (Raise e, s3) =>
                          (Raise e, (s3, t2.2 ++ [PublishRequest creation_id None]))
                      | (Ok status, s3) =>
                          let t3 := (s3, t2.2 ++ [PublishRequest creation_id (Some status)]) in
                          if negb (status =? 200) then
                            (Ok false, (t3.1, t3.2 ++ [Logged ERROR "Failed to publish media: {resp.text}"]))
                          else
                            (Ok true, (t3.1, t3.2 ++ [Logged INFO "Successfully posted image to Instagram: {image_url}"]))
                      end
                  end
            end
      end
  end.

(** [@retry(Exception, tries=3, delay=2, backoff=2, logger=...)]. *)
Definition post_to_instagram (image_url caption : string) (config : yaml)
  : trace St -> result bool * trace St * list Retry.event :=
  Retry.f_retry (fun _ => true) 3 2 2 true Retry.time_sleep
    (post image_url caption config).

End Post.

(** A media object that is still in progress at the first two polls. *)
Definition slow_media (creation_id : scalar) (access_token : yaml) (s : nat)
  : result scalar * nat :=
  if (s <? 2)%nat then (Ok (SStr "IN_PROGRESS"), S s) else (Ok (SStr "FINISHED"), S s).

End Instagram.

(** ** genai_api.py *)

Module GenAI.

(** [c.isspace()] for a character below 256. *)
Definition is_space (a : ascii) : bool :=
  let n := nat_of_ascii a in
  ((9 <=? n) && (n <=? 13) || (28 <=? n) && (n <=? 32) || (n =? 133) || (n =? 160))%nat.

Fixpoint lstrip (s : string) : string :=
  match s with
  | EmptyString => EmptyString
  | String a s' => if is_space a then lstrip s' else s
  end.

(** Nothing but white space. *)
Fixpoint blank (s : string) : bool :=
  match s with
  | EmptyString => true
  | String a s' => is_space a && blank s'
  end.

Fixpoint rstrip (s : string) : string :=
  match s with
  | EmptyString => EmptyString
  | String a s' => if blank s then EmptyString else String a (rstrip s')
  end.

(** [s.strip()]. *)
Definition strip (s : string) : string := lstrip (rstrip s).

(** [needle in s] for two strings. *)
Definition contains (needle s : string) : bool :=
  match String.index 0 needle s with
  | Some _ => true
  | None => false
  end.

(** [s.split(sep, 1)[-1]]: what follows the first occurrence of [sep], the
    whole of [s] when there is none. *)
Definition after_first (sep s : string) : string :=
  match String.index 0 sep s with
  | Some i => substring (i + String.length sep) (String.length s) s
  | None => s
  end.

(** Truthiness of a decoded JSON value. *)
Definition truthy_value (v : yaml) : bool :=
  match v with
  | YScalar s => truthy s
  | YList [] | YDict [] => false
  | YList (_ :: _) | YDict (_ :: _) => true
  end.

Definition and_then {A B : Type} (r : result A) (k : A -> result B) : result B :=
  match r with
  | Ok a => k a
  | Raise e => Raise e
  end.

(** [k in data] for a string [k]. *)
Definition py_in (k : string) (data : yaml) : result bool :=
  match data with
  | YDict d => Ok (match assoc k d with Some _ => true | None => false end)
  | YList l =>
      Ok (existsb (fun v => match v with
                            | YScalar (SStr s) => String.eqb s k
                            | _ => false
                            end) l)
  | YScalar (SStr s) => Ok (contains k s)
  | YScalar _ => Raise (mkExn TypeError "argument is not iterable")
  end.

(** [v[0]]. *)
Definition first_item (v : yaml) : result yaml :=
  match v with
  | YList (x :: _) => Ok x
  | YList [] => Raise (mkExn IndexError "list index out of range")
  | YDict _ => Raise (mkExn KeyError "0")
  | YScalar (SStr (String a _)) => Ok (YScalar (SStr (String a EmptyString)))
  | YScalar (SStr EmptyString) => Raise (mkExn IndexError "string index out of range")
  | YScalar _ => Raise (mkExn TypeError "object is not subscriptable")
  end.

(** [v.strip()]. *)
Definition py_strip (v : yaml) : result string :=
  match v with
  | YScalar (SStr s) => Ok (strip s)
  | _ => Raise (mkExn AttributeError "object has no attribute 'strip'")
  end.

(** What is returned for the decoded response [data] (the lines after
    [data = resp.json()]). *)
Definition extract_post (data : yaml) : result yaml :=
  and_then (py_in "choices" data) (fun present =>
  and_then (if present then
              and_then (cfg_item data "choices") (fun c => Ok (truthy_value c))
            else Ok false) (fun usable =>
  if usable then
    and_then (cfg_item data "choices") (fun choices =>
    and_then (first_item choices) (fun choice =>
    and_then (cfg_item choice "message") (fun message =>
    and_then (cfg_item message "content") (fun raw =>
    and_then (py_strip raw) (fun content =>
    if contains "</think>" content then
      let post := strip (after_first "</think>" content) in
      if nonempty post then Ok (YScalar (SStr post)) else Ok (YScalar (SStr content))
    else Ok (YScalar (SStr content)))))))
  else
    and_then (cfg_get data "result" (YScalar SNone)) (fun r =>
    if truthy_value r then Ok r
    else
      and_then (cfg_get data "text" (YScalar SNone)) (fun t =>
      if truthy_value t then Ok t
      else Ok (YScalar (SStr "[No response from model]")))))).

(** [a.get('description', '')[:200]]. *)
Definition description_start (a : article) : result string :=
  match match assoc "description" a with Some d => d | None => SStr "" end with
  | SStr s => Ok (substring 0 200 s)
  | _ => Raise (mkExn TypeError "object is not subscriptable")
  end.

(** The lines that the generator expression hands to [join]: one per
    article that has a title; the first description that cannot be sliced
    ends it. *)
Fixpoint summary_lines (news_articles : list article) : result (list string) :=
  match news_articles with
  | [] => Ok []
  | a :: rest =>
      match assoc "title" a with
      | None => summary_lines rest
      | Some title =>
          and_then (description_start a) (fun d =>
          and_then (summary_lines rest) (fun lines =>
          Ok (("- " +:+ py_str title +:+ ": " +:+ d) :: lines)))
      end
  end.

Definition news_summary (news_articles : list article) : result string :=
  match news_articles with
  | [] => Ok "No recent news articles found."
  | _ :: _ => and_then (summary_lines news_articles) (fun lines => Ok (join nl lines))
  end.

Definition user_prompt (content target_group : scalar) (news_summary closing : string)
  : string :=
  "Topic: " +:+ py_str content +:+ nl
    +:+ "Target Group: " +:+ py_str (py_or target_group (SStr "")) +:+ nl
    +:+ "Relevant News:" +:+ nl +:+ news_summary +:+ nl
    +:+ nl +:+ closing.

Section Generate.
Context {St : Type}.
(** [os.getenv("LOCAL_GENAI_API_URL")]. *)
Variable GENAI_API_URL : option string.
(** [requests.post(GENAI_API_URL, json=payload, timeout=180)],
    [resp.raise_for_status()] and [resp.json()], for the system prompt, the
    user prompt and [max_tokens] of the payload. *)
Variable post_chat : string -> string -> string -> Z -> St -> result yaml * St.

(** The common body of [generate_linkedin_post] and
    [generate_instagram_post]. *)
Definition generate_post (system_prompt closing : string) (max_tokens : Z)
    (content target_group : scalar) (news_articles : list article) (s : St)
  : result yaml * St :=
  match GENAI_API_URL with
  | None | Some EmptyString =>
      (Raise (mkExn RuntimeError "LOCAL_GENAI_API_URL environment variable not set."), s)
  | Some url =>
      match news_summary news_articles with
      | Raise e => (Raise e, s)
      | Ok summary =>
          let prompt := user_prompt content target_group summary closing in
          match post_chat url system_prompt prompt max_tokens s with
          | (Raise e, s1) => (Raise e, s1)
          | (Ok data, s1) => (extract_post data, s1)
          end
      end
  end.

Definition generate_linkedin_post (LINKEDIN_SYSTEM_PROMPT : string) :=
  generate_post LINKEDIN_SYSTEM_PROMPT "Write a LinkedIn post for this context." 900.

Definition generate_instagram_post (SYSTEM_PROMPT : string) :=
  generate_post SYSTEM_PROMPT "Write an Instagram post for this context." 600.

End Generate.

(** An article as the news search delivers it when it has no summary. *)
Definition article_without_description : article :=
  [("title", SStr "AI revolutionizes diagnosis"); ("description", SNone)].

(** The answer of a reasoning model. *)
Definition reasoning_answer : yaml :=
  YDict [("choices",
          YList [YDict [("message",
                         YDict [("content",
                                 YScalar (SStr " <think>plan</think> New post! "))])]])].

End GenAI.

(** ** config.py: loading the configuration *)

Module Config.

(** What [yaml.safe_load] hands over: the scalars, lists and mappings of
    [yaml], and leaves of any other Python type (a date, a timestamp, bytes,
    a set), kept with the text that [type(obj)] prints as.  Keys are strings,
    as in [yaml]. *)
Inductive loaded :=
| LScalar (v : scalar)
| LOther (type_name : string)
| LList (l : list loaded)
| LDict (d : list (string * loaded)).

(** A configuration of [yaml] seen as a loaded value. *)
Fixpoint of_yaml (y : yaml) : loaded :=
  match y with
  | YScalar v => LScalar v
  | YList l => LList (map of_yaml l)
  | YDict d => LDict (map (fun kv => (kv.1, of_yaml kv.2)) d)
  end.

(** [s.endswith(suffix)]. *)
Definition endswith (suffix s : string) : bool :=
  let n := String.length s in
  let m := String.length suffix in
  (m <=? n)%nat && String.eqb (substring (n - m) m s) suffix.

Section ResolveEnvVars.

(** The process environment, and [Template(s).safe_substitute(environ)] of
    the standard library. *)
Variable environ : gmap string string.
Variable safe_substitute : gmap string string -> string -> string.

(** The string case of [resolve_env_vars]; [s[2:-1]] is taken from a string
    of at least three characters. *)
Definition resolve_str (s : string) : string :=
  if String.prefix "${" s && endswith "}" s then
    let var := substring 2 (String.length s - 3) s in
    match environ !! var with
    | Some value => value
    | None => s
    end
  else safe_substitute environ s.

Fixpoint resolve_env_vars (obj : loaded) : loaded :=
  match obj with
  | LDict d => LDict (map (fun kv => (kv.1, resolve_env_vars kv.2)) d)
  | LList l => LList (map resolve_env_vars l)
  | LScalar (SStr s) => LScalar (SStr (resolve_str s))
  | LScalar _ | LOther _ => obj
  end.

Definition invalid_type (path type_name : string) : exn :=
  mkExn TypeError ("Invalid type in config at " ++ path ++ ": " ++ type_name).

(** [_assert_valid_config_types]: the entries of a mapping and the items
    of a list are checked in order, each under its own path. *)
Fixpoint _assert_valid_config_types (obj : loaded) (path : string) : result unit :=
  match obj with
  | LDict d =>
      (fix entries (d : list (string * loaded)) : result unit :=
         match d with
         | [] => Ok tt
         | (k, v) :: d' =>
             GenAI.and_then (_assert_valid_config_types v (path ++ "['" ++ k ++ "']"))
               (fun _ => entries d')
         end) d
  | LList l =>
      (fix items (l : list loaded) (i : nat) : result unit :=
         match l with
         | [] => Ok tt
         | v :: l' =>
             GenAI.and_then (_assert_valid_config_types v (path ++ "[" ++ pretty i ++ "]"))
               (fun _ => items l' (S i))
         end) l 0%nat
  | LOther type_name => Raise (invalid_type path type_name)
  | LScalar _ => Ok tt
  end.

(** [get_config]; [safe_load] stands for opening and parsing the file that
    [SUSI_CONFIG] names. *)
Definition get_config (safe_load : result loaded) : result loaded :=
  GenAI.and_then safe_load (fun raw_config =>
  let config := resolve_env_vars raw_config in
  GenAI.and_then (_assert_valid_config_types config "config") (fun _ =>
  Ok config)).

End ResolveEnvVars.

(** A substitution that replaces every name it knows, as a stand-in for the
    standard library's. *)
Definition known_names (environ : gmap string string) (s : string) : string :=
  match environ !! s with
  | Some value => value
  | None => s
  end.

Definition host_and_port : gmap string string :=
  <["HOST" := "example.org"]> (<["PORT" := "587"]> ∅).

Definition dated_config : loaded :=
  LDict [("email", LDict [("smtp_port", LScalar (SInt 587))]);
         ("onedrive", LDict [("folders", LList [LScalar (SStr "in"); LOther "<class 'datetime.date'>"])])].

Definition small_config : loaded :=
  LDict [("email", LDict [("smtp_server", LScalar (SStr "${HOST}"))]);
         ("days", LList [LScalar (SStr "monday")])].

End Config.

(** * Properties *)

(** ** The retry decorator *)

Module RetryFacts.
Import Retry.

Section Loop.
Context {St A : Type}.
Variable ExceptionToCheck : exn -> bool.
Variables backoff : Z.
Variable logger : bool.
Variable sleep : Z -> result unit.
Variable f : St -> result A * St.

(** After [k] retryable failures, each followed by a sleep that returned,
    the next call decides: its result is returned when it is a success, and
    also when it is the last attempt the loop allows. *)
Lemma f_retry_loop_run k : forall fuel mtries mdelay s es s1 r s2,
  failing_run ExceptionToCheck f k s es s1 ->
  f s1 = (r, s2) ->
  (k <= fuel)%nat ->
  Z.of_nat k < mtries ->
  Forall (fun d => sleep d = Ok tt) (backoff_delays k mdelay backoff) ->
  is_ok r = true \/ Z.of_nat k = mtries - 1 ->
  exists evs,
    f_retry_loop ExceptionToCheck backoff logger sleep f fuel mtries mdelay s
    = (r, s2, evs)
    /\ invocations evs = S k
    /\ sleeps evs = backoff_delays k mdelay backoff.
Proof.
  induction k as [|k IH];
    intros fuel mtries mdelay s es s1 r s2 Hrun Hlast Hfuel Hk Hsleep Hend.
  - inversion Hrun; subst. exists [Invoked].
    destruct fuel as [|fuel]; simpl; rewrite Hlast.
    + done.
    + destruct (1 <? mtries) eqn:Hm; [|done].
      destruct r as [v|e]; [done|].
      destruct Hend as [Hok|Hlim]; [discriminate|].
      apply Z.ltb_lt in Hm. simpl in Hlim. lia.
  - inversion Hrun as [|k' s' e sa es' sb Hf He Hrest]; subst.
    destruct fuel as [|fuel]; [lia|].
    cbn [backoff_delays] in Hsleep. apply Forall_cons in Hsleep as [Hnow Hlater].
    destruct (IH fuel (mtries - 1) (mdelay * backoff) sa es' s1 r s2)
      as (evs & Hloop & Hinv & Hsl); try done; try lia.
    { destruct Hend as [Hok|Hlim]; [by left|right; lia]. }
    exists (Invoked :: Warned logger e mdelay (mtries - 1) :: Slept mdelay :: evs).
    simpl. replace (1 <? mtries) with true by (symmetry; apply Z.ltb_lt; lia).
    rewrite Hf, He, Hnow, Hloop. simpl. rewrite Hinv, Hsl. done.
Qed.

(** After [k] retryable failures with sleeps that returned, a further
    retryable failure inside the loop leads to a sleep; when that sleep
    raises, its exception leaves the loop and no further call is made. *)
Lemma f_retry_loop_refused k : forall fuel mtries mdelay s es s1 e',
  failing_run ExceptionToCheck f (S k) s es s1 ->
  (S k <= fuel)%nat ->
  Z.of_nat (S k) < mtries ->
  Forall (fun d => sleep d = Ok tt) (backoff_delays k mdelay backoff) ->
  sleep (mdelay * backoff ^ Z.of_nat k) = Raise e' ->
  exists evs,
    f_retry_loop ExceptionToCheck backoff logger sleep f fuel mtries mdelay s
    = (Raise e', s1, evs)
    /\ invocations evs = S k
    /\ sleeps evs = backoff_delays k mdelay backoff.
Proof.
  induction k as [|k IH];
    intros fuel mtries mdelay s es s1 e' Hrun Hfuel Hk Hsleep Hrefused.
  - inversion Hrun as [|k' s' e sa es' sb Hf He Hrest]; subst.
    inversion Hrest; subst.
    destruct fuel as [|fuel]; [lia|].
    exists [Invoked; Warned logger e mdelay (mtries - 1)].
    simpl. replace (1 <? mtries) with true by (symmetry; apply Z.ltb_lt; lia).
    rewrite Hf, He. simpl in Hrefused. rewrite Z.mul_1_r in Hrefused.
    by rewrite Hrefused.
  - inversion Hrun as [|k' s' e sa es' sb Hf He Hrest]; subst.
    destruct fuel as [|fuel]; [lia|].
    cbn [backoff_delays] in Hsleep. apply Forall_cons in Hsleep as [Hnow Hlater].
    destruct (IH fuel (mtries - 1) (mdelay * backoff) sa es' s1 e')
      as (evs & Hloop & Hinv & Hsl); try done; try lia.
    { rewrite <- Hrefused. rewrite (Nat2Z.inj_succ k), Z.pow_succ_r by lia. f_equal. lia. }
    exists (Invoked :: Warned logger e mdelay (mtries - 1) :: Slept mdelay :: evs).
    simpl. replace (1 <? mtries) with true by (symmetry; apply Z.ltb_lt; lia).
    rewrite Hf, He, Hnow, Hloop. simpl. rewrite Hinv, Hsl. done.
Qed.

End Loop.

Lemma backoff_delays_pow k : forall delay backoff,
  backoff_delays k delay backoff
  = map (fun i => delay * backoff ^ Z.of_nat i) (seq 0 k).
Proof.
  induction k as [|k IH]; intros delay backoff; [done|].
  simpl backoff_delays. rewrite IH. cbn [seq map].
  rewrite <- seq_shift, map_map. f_equal.
  - simpl. lia.
  - apply map_ext. intros i. rewrite Nat2Z.inj_succ, Z.pow_succ_r by lia. lia.
Qed.

(** The first [k] delays are sleep lengths that [sleep] accepts. *)
Lemma accepted_delays (sleep : Z -> result unit) (k : nat) (delay backoff : Z) :
  (forall i, (i < k)%nat -> sleep (delay * backoff ^ Z.of_nat i) = Ok tt) ->
  Forall (fun d => sleep d = Ok tt) (backoff_delays k delay backoff).
Proof.
  intros H. rewrite backoff_delays_pow. apply Forall_map, Forall_forall.
  intros i Hi. apply list_elem_of_In, in_seq in Hi. apply H. lia.
Qed.

(** [time.sleep] accepts exactly the lengths from 0 to 9223372036 seconds. *)
Lemma time_sleep_accepts (seconds : Z) :
  time_sleep seconds = Ok tt <-> 0 <= seconds <= 9223372036.
Proof.
  unfold time_sleep.
  destruct (seconds <? -9223372036) eqn:H1; destruct (9223372036 <? seconds) eqn:H2;
    destruct (seconds <? 0) eqn:H3; simpl;
    try apply Z.ltb_lt in H1; try apply Z.ltb_ge in H1;
    try apply Z.ltb_lt in H2; try apply Z.ltb_ge in H2;
    try apply Z.ltb_lt in H3; try apply Z.ltb_ge in H3;
    split; try discriminate; try lia; done.
Qed.

(** C1 (as amended).  A function wrapped by [retry] with [tries >= 1] that
    raises retryable exceptions [k < tries] times and then succeeds returns
    that success after exactly [k] sleeps of [delay], [delay * backoff],
    ..., [delay * backoff ^ (k - 1)] seconds, provided [time.sleep] accepts
    these lengths; one that raises on every attempt is called exactly
    [tries] times, and the exception of the last call reaches the caller
    unchanged, provided [time.sleep] accepts the [tries - 1] lengths.  When
    [time.sleep] refuses the length it is given after the [(k + 1)]-th
    failure, its exception leaves the wrapper after these [k + 1] calls and
    [k] sleeps. *)
Theorem retry_bounded_backoff {St A : Type}
    (ExceptionToCheck : exn -> bool) (tries delay backoff : Z) (logger : bool)
    (sleep : Z -> result unit) (f : St -> result A * St) :
  1 <= tries ->
  (forall k s es s1 v s2,
      Z.of_nat k < tries ->
      (forall i, (i < k)%nat -> sleep (delay * backoff ^ Z.of_nat i) = Ok tt) ->
      failing_run ExceptionToCheck f k s es s1 ->
      f s1 = (Ok v, s2) ->
      exists evs,
        f_retry ExceptionToCheck tries delay backoff logger sleep f s = (Ok v, s2, evs)
        /\ invocations evs = S k
        /\ sleeps evs = map (fun i => delay * backoff ^ Z.of_nat i) (seq 0 k))
  /\ (forall s es s1 e s2,
      (forall i, (i < Z.to_nat (tries - 1))%nat ->
                 sleep (delay * backoff ^ Z.of_nat i) = Ok tt) ->
      failing_run ExceptionToCheck f (Z.to_nat (tries - 1)) s es s1 ->
      f s1 = (Raise e, s2) ->
      exists evs,
        f_retry ExceptionToCheck tries delay backoff logger sleep f s = (Raise e, s2, evs)
        /\ Z.of_nat (invocations evs) = tries
        /\ sleeps evs
           = map (fun i => delay * backoff ^ Z.of_nat i) (seq 0 (Z.to_nat (tries - 1))))
  /\ (forall k s es s1 e',
      Z.of_nat (S k) < tries ->
      (forall i, (i < k)%nat -> sleep (delay * backoff ^ Z.of_nat i) = Ok tt) ->
      sleep (delay * backoff ^ Z.of_nat k) = Raise e' ->
      failing_run ExceptionToCheck f (S k) s es s1 ->
      exists evs,
        f_retry ExceptionToCheck tries delay backoff logger sleep f s = (Raise e', s1, evs)
        /\ invocations evs = S k
        /\ sleeps evs = map (fun i => delay * backoff ^ Z.of_nat i) (seq 0 k)).
Proof.
  intros Htries. split; [|split].
  - intros k s es s1 v s2 Hk Hsleep Hrun Hok.
    assert (Hfuel : (k <= Z.to_nat tries)%nat) by lia.
    destruct (f_retry_loop_run ExceptionToCheck backoff logger sleep f k
                (Z.to_nat tries) tries delay s es s1 (Ok v) s2
                Hrun Hok Hfuel Hk (accepted_delays sleep k delay backoff Hsleep)
                (or_introl eq_refl))
      as (evs & Hloop & Hinv & Hsl).
    exists evs. unfold f_retry. by rewrite Hloop, Hinv, Hsl, backoff_delays_pow.
  - intros s es s1 e s2 Hsleep Hrun Hlast.
    assert (Hfuel : (Z.to_nat (tries - 1) <= Z.to_nat tries)%nat) by lia.
    assert (Hk : Z.of_nat (Z.to_nat (tries - 1)) < tries) by lia.
    assert (Hlim : Z.of_nat (Z.to_nat (tries - 1)) = tries - 1) by lia.
    destruct (f_retry_loop_run ExceptionToCheck backoff logger sleep f
                (Z.to_nat (tries - 1))
                (Z.to_nat tries) tries delay s es s1 (Raise e) s2
                Hrun Hlast Hfuel Hk (accepted_delays sleep _ delay backoff Hsleep)
                (or_intror Hlim))
      as (evs & Hloop & Hinv & Hsl).
    exists evs. unfold f_retry. rewrite Hloop, Hinv, Hsl, backoff_delays_pow.
    split; [done|]. split; [lia|done].
  - intros k s es s1 e' Hk Hsleep Hrefused Hrun.
    assert (Hfuel : (S k <= Z.to_nat tries)%nat) by lia.
    destruct (f_retry_loop_refused ExceptionToCheck backoff logger sleep f k
                (Z.to_nat tries) tries delay s es s1 e'
                Hrun Hfuel Hk (accepted_delays sleep k delay backoff Hsleep) Hrefused)
      as (evs & Hloop & Hinv & Hsl).
    exists evs. unfold f_retry. by rewrite Hloop, Hinv, Hsl, backoff_delays_pow.
Qed.

(** A function that is down for its first two calls, wrapped with
    [tries = 3], [delay = 2], [backoff = 2]. *)
Lemma retry_bounded_backoff_witness :
  1 <= 3
  /\ exists evs,
      f_retry (fun _ => true) 3 2 2 true time_sleep flaky 0%nat
      = (Ok "done"%string, 3%nat, evs)
      /\ invocations evs = 3%nat
      /\ sleeps evs = map (fun i => 2 * 2 ^ Z.of_nat i) (seq 0 2).
Proof.
  split; [lia|].
  apply (proj1 (retry_bounded_backoff (fun _ => true) 3 2 2 true time_sleep flaky
                  ltac:(lia))
           2%nat 0%nat
           [mkExn TransportError "down"; mkExn TransportError "down"] 2%nat).
  - lia.
  - intros [|[|i]] Hi; [reflexivity|reflexivity|lia].
  - eapply failing_cons; [reflexivity|reflexivity|].
    eapply failing_cons; [reflexivity|reflexivity|]. apply failing_nil.
  - reflexivity.
Defined.

(** C1 as stated fails.  With [tries = 3], [delay = -1] and [backoff = 2] the
    function that is down for its first two calls and then succeeds is
    called once: [time.sleep(-1)] raises ValueError in the handler of the
    first failure, and that exception, not the success value, reaches the
    caller. *)
Lemma retry_negative_delay_loses_the_success :
  failing_run (fun _ => true) flaky 2 0%nat
    [mkExn TransportError "down"; mkExn TransportError "down"] 2%nat
  /\ flaky 2%nat = (Ok "done"%string, 3%nat)
  /\ f_retry (fun _ => true) 3 (-1) 2 true time_sleep flaky 0%nat
     = (Raise (mkExn ValueError "sleep length must be non-negative"), 1%nat,
        [Invoked; Warned true (mkExn TransportError "down") (-1) 2]).
Proof.
  split; [|split; reflexivity].
  eapply failing_cons; [reflexivity|reflexivity|].
  eapply failing_cons; [reflexivity|reflexivity|]. apply failing_nil.
Qed.

End RetryFacts.

(** ** Reasoning about computations *)

Section Frame.
Context {St : Type}.
Variable P : event -> Prop.
Variable R : world St -> world St -> Prop.
Hypothesis R_refl : forall w, R w w.
Hypothesis R_trans : forall w1 w2 w3, R w1 w2 -> R w2 w3 -> R w1 w3.
Hypothesis R_outside :
  forall w s, R w (mkWorld s (seen_ids w) (day_jobs w) (scheduled w)).

Lemma safe_ret {A : Type} (a : A) : safe P R (ret a).
Proof. intros w. simpl. auto. Qed.

Lemma safe_raise {A : Type} (e : exn) : safe P R (raise (A := A) e).
Proof. intros w. simpl. auto. Qed.

Lemma safe_lift {A : Type} (r : result A) : safe P R (lift r).
Proof. intros w. simpl. auto. Qed.

Lemma safe_emit (ev : event) : P ev -> safe P R (emit ev).
Proof. intros Hev w. simpl. auto. Qed.

Lemma safe_call {A : Type} (o : St -> result A * St) (ev : result A -> event) :
  (forall r, P (ev r)) -> safe P R (call o ev).
Proof.
  intros Hev w. unfold call. destruct (o (outside w)) as [r s]. simpl. auto.
Qed.

Lemma safe_bind {A B : Type} (m : M St A) (k : A -> M St B) :
  safe P R m -> (forall a, safe P R (k a)) -> safe P R (bind m k).
Proof.
  intros Hm Hk w. unfold bind. specialize (Hm w).
  destruct (m w) as [[[a|e] w1] evs1]; simpl in *; [|done].
  specialize (Hk a w1). destruct (k a w1) as [[r w2] evs2]. simpl in *.
  destruct Hm, Hk. split; [by apply Forall_app|eauto].
Qed.

Lemma safe_attempt {A : Type} (m : M St A) : safe P R m -> safe P R (attempt m).
Proof.
  intros Hm w. unfold attempt. specialize (Hm w).
  by destruct (m w) as [[r w1] evs].
Qed.

Lemma safe_traced {A : Type} (ev : bool -> event) (m : M St A) :
  safe P R m -> (forall b, P (ev b)) -> safe P R (traced ev m).
Proof.
  intros Hm Hev w. unfold traced. specialize (Hm w).
  destruct (m w) as [[r w1] evs]. simpl in *. destruct Hm.
  split; [apply Forall_app; auto|done].
Qed.

End Frame.

Lemma safe_weaken {St A : Type} (P Q : event -> Prop)
    (R : world St -> world St -> Prop) (m : M St A) :
  (forall ev, P ev -> Q ev) -> safe P R m -> safe Q R m.
Proof.
  intros HPQ Hm w. destruct (Hm w) as [Hev HR].
  split; [|done]. eapply Forall_impl; eauto.
Qed.

Lemma same_process_refl {St : Type} (w : world St) : same_process w w.
Proof. by unfold same_process. Qed.

Lemma same_process_trans {St : Type} (w1 w2 w3 : world St) :
  same_process w1 w2 -> same_process w2 w3 -> same_process w1 w3.
Proof. unfold same_process. intros (? & ? & ?) (? & ? & ?). split_and!; congruence. Qed.

Lemma same_process_outside {St : Type} (w : world St) (s : St) :
  same_process w (mkWorld s (seen_ids w) (day_jobs w) (scheduled w)).
Proof. by unfold same_process. Qed.

(** One step of a proof that a computation is [safe]: follow the shape of
    the computation. *)
Ltac safe_step :=
  lazymatch goal with
  | |- safe _ _ (bind _ _) =>
      apply safe_bind;
      [first [apply same_process_trans | by intros ? ? ?] | | intros ?]
  | |- safe _ _ (ret _) => apply safe_ret; first [apply same_process_refl | done]
  | |- safe _ _ (raise _) => apply safe_raise; first [apply same_process_refl | done]
  | |- safe _ _ (lift _) => apply safe_lift; first [apply same_process_refl | done]
  | |- safe _ _ (emit _) =>
      apply safe_emit;
      [first [apply same_process_refl | done] | first [exact I | simpl; lia]]
  | |- safe _ _ (call _ _) =>
      apply safe_call;
      [first [apply same_process_outside | done]
      | intros ?; first [exact I | simpl; lia]]
  | |- safe _ _ (attempt _) => apply safe_attempt
  | |- safe _ _ (traced _ _) =>
      apply safe_traced; [ | intros ?; first [exact I | simpl; lia]]
  | |- safe _ _ (match ?x with _ => _ end) => destruct x
  end.

(** ** Notifications *)

Section EmailFacts.
Context {St : Type} (env : Env St).

Lemma send_gmail_safe subject body config :
  safe transport_event same_process (send_gmail env subject body config).
Proof. unfold send_gmail. repeat safe_step. Qed.

Lemma send_error_email_attempt_safe subject body config :
  safe transport_event same_process (send_error_email_attempt env subject body config).
Proof.
  unfold send_error_email_attempt.
  repeat first [apply send_gmail_safe | safe_step].
Qed.

Lemma tenacity_retry_safe {A : Type} retries (body : M St A) :
  safe transport_event same_process body ->
  safe transport_event same_process (tenacity_retry retries body).
Proof.
  intros Hbody. induction retries as [|retries IH]; simpl; repeat first [done | safe_step].
Qed.

Lemma send_error_email_safe subject body config :
  safe transport_event same_process (send_error_email env subject body config).
Proof.
  unfold send_error_email, _send_error_email_with_retry.
  repeat first [apply tenacity_retry_safe, send_error_email_attempt_safe | safe_step].
Qed.

End EmailFacts.

Section NotificationFacts.
Context {St : Type} (env : Env St).

Lemma delivered_app_l evs1 evs2 : delivered evs1 -> delivered (evs1 ++ evs2).
Proof. intros (s & b & H). exists s, b. rewrite !in_app_iff. tauto. Qed.

Lemma delivered_app_r evs1 evs2 : delivered evs2 -> delivered (evs1 ++ evs2).
Proof. intros (s & b & H). exists s, b. rewrite !in_app_iff. tauto. Qed.

Lemma send_gmail_delivers subject body config w a w' evs :
  send_gmail env subject body config w = (Ok a, w', evs) ->
  In (GmailSend subject body true) evs.
Proof.
  unfold send_gmail, bind, call, lift. intros H.
  repeat (case_match; simplify_eq; simpl in * ). tauto.
Qed.

Lemma send_error_email_attempt_delivers subject body config w a w' evs :
  send_error_email_attempt env subject body config w = (Ok a, w', evs) ->
  delivered evs.
Proof.
  unfold send_error_email_attempt, bind, attempt, lift, ret, raise, emit. intros H.
  destruct (email_provider config) as [p|]; [|done].
  destruct (String.eqb p "gmail").
  - destruct (send_gmail env subject body config w) as [[[u|e] w1] evs1] eqn:Hg.
    + apply send_gmail_delivers in Hg. simpl in H. simplify_eq.
      exists subject, body. rewrite !in_app_iff. tauto.
    + simpl in H. unfold call in H.
      repeat (case_match; simplify_eq; simpl in * ).
      apply delivered_app_r. exists subject, body. simpl. tauto.
  - simpl in H. unfold call in H.
    repeat (case_match; simplify_eq; simpl in * ).
    exists subject, body. simpl. tauto.
Qed.

Lemma tenacity_retry_delivers {A : Type} (body : M St A) :
  (forall w a w' evs, body w = (Ok a, w', evs) -> delivered evs) ->
  forall retries w a w' evs,
    tenacity_retry retries body w = (Ok a, w', evs) -> delivered evs.
Proof.
  intros Hbody. induction retries as [|retries IH]; intros w a w' evs; simpl;
    unfold bind, attempt, ret, raise, emit;
    destruct (body w) as [[[b|e] w1] evs1] eqn:Hb; simpl; intros H.
  - simplify_eq. rewrite app_nil_r. eauto.
  - done.
  - simplify_eq. rewrite app_nil_r. eauto.
  - destruct (tenacity_retry retries body w1) as [[r2 w2] evs2] eqn:Hr.
    simplify_eq. apply delivered_app_r. simpl. apply IH in Hr.
    destruct Hr as (s & b & Hr). exists s, b. simpl. tauto.
Qed.

(** [send_error_email] swallows every failure of its transports. *)
Lemma send_error_email_returns subject body config w :
  exists w' evs,
    send_error_email env subject body config w = (Ok tt, w', evs)
    /\ Forall transport_event evs
    /\ same_process w w'
    /\ (delivered evs \/ error_logged evs).
Proof.
  destruct (send_error_email_safe env subject body config w) as [Hev HR].
  revert Hev HR. unfold send_error_email, bind, attempt, ret, emit.
  destruct (_send_error_email_with_retry env subject body config w)
    as [[[u|e] w1] evs1] eqn:Hr; simpl; intros Hev HR.
  - exists w1, (evs1 ++ []). split; [by destruct u|]. split; [done|]. split; [done|].
    left. apply delivered_app_l.
    eapply tenacity_retry_delivers; [|exact Hr].
    apply send_error_email_attempt_delivers.
  - eexists _, _. split; [done|]. split; [done|]. split; [done|].
    right. eexists. rewrite in_app_iff. right. simpl. eauto.
Qed.

(** With a readable [email] section, [send_error] returns whatever the
    transports do. *)
Lemma send_error_returns subject body config w :
  is_ok (email_provider config) = true ->
  exists w' evs,
    send_error env subject body config w = (Ok tt, w', SendError subject body :: evs)
    /\ Forall transport_event evs
    /\ same_process w w'
    /\ (delivered evs \/ error_logged evs).
Proof.
  intros Hcfg. unfold send_error, bind, emit, lift.
  destruct (email_provider config) as [p|]; [|done].
  destruct (String.eqb p "gmail").
  - destruct (send_gmail_safe env subject body config w) as [Hev HR].
    unfold attempt.
    destruct (send_gmail env subject body config w) as [[[u|e] w1] evs1] eqn:Hg;
      simpl in *.
    + eexists _, _. split_and!; try done.
      * rewrite app_nil_r. apply Forall_app. split; [done|]. by repeat constructor.
      * left. exists subject, body. apply send_gmail_delivers in Hg.
        rewrite !in_app_iff. tauto.
    + eexists _, _. split_and!; try done.
      * apply Forall_app. split; [done|]. by repeat constructor.
      * right. eexists. rewrite in_app_iff. right. simpl. eauto.
  - destruct (send_error_email_returns subject body config w)
      as (w' & evs & -> & ? & ? & ?). simpl. eauto 10.
Qed.

Lemma send_confirmation_returns subject body config w :
  is_ok (email_provider config) = true ->
  exists w' evs,
    send_confirmation env subject body config w
      = (Ok tt, w', SendConfirmation subject body :: evs)
    /\ Forall transport_event evs
    /\ same_process w w'
    /\ (delivered evs \/ error_logged evs).
Proof.
  intros Hcfg. unfold send_confirmation, bind, emit, lift.
  destruct (email_provider config) as [p|]; [|done].
  destruct (String.eqb p "gmail").
  - destruct (send_gmail_safe env subject body config w) as [Hev HR].
    unfold attempt.
    destruct (send_gmail env subject body config w) as [[[u|e] w1] evs1] eqn:Hg;
      simpl in *.
    + eexists _, _. split_and!; try done.
      * rewrite app_nil_r. apply Forall_app. split; [done|]. by repeat constructor.
      * left. exists subject, body. apply send_gmail_delivers in Hg.
        rewrite !in_app_iff. tauto.
    + eexists _, _. split_and!; try done.
      * apply Forall_app. split; [done|]. by repeat constructor.
      * right. eexists. rewrite in_app_iff. right. simpl. eauto.
  - destruct (send_error_email_returns subject body config w)
      as (w' & evs & -> & ? & ? & ?). simpl. eauto 10.
Qed.

Lemma send_error_safe subject body config :
  safe notification_event same_process (send_error env subject body config).
Proof.
  unfold send_error.
  repeat first
    [ apply (safe_weaken transport_event notification_event);
      [ by intros [] | first [apply send_gmail_safe | apply send_error_email_safe] ]
    | safe_step ].
Qed.

Lemma send_confirmation_safe subject body config :
  safe notification_event same_process (send_confirmation env subject body config).
Proof.
  unfold send_confirmation.
  repeat first
    [ apply (safe_weaken transport_event notification_event);
      [ by intros [] | first [apply send_gmail_safe | apply send_error_email_safe] ]
    | safe_step ].
Qed.

End NotificationFacts.

Lemma email_provider_ok_iff (config : yaml) :
  is_ok (email_provider config) = true
  <-> exists d email,
        config = YDict d
        /\ assoc "email" d = Some (YDict email)
        /\ (assoc "provider" email = None
            \/ exists s, assoc "provider" email = Some (YScalar (SStr s))).
Proof.
  unfold email_provider, cfg_item, cfg_get, cfg_lower. split.
  - intros H. repeat (case_match; simplify_eq; simpl in * ); eauto 10.
  - intros (d & email & -> & -> & [->| [s ->]]); done.
Qed.

(** C10 (as amended).  For every subject and body, and for every
    configuration whose [email] entry is a mapping with no [provider] or a
    string as [provider], [send_error] and [send_confirmation] return to
    their caller whatever the Gmail and SMTP transports do: below the entry
    event there are transport events only, and either a transport accepted
    the message or an error was logged. *)
Theorem notifications_never_raise {St : Type} (env : Env St)
    (subject body : string) (config : yaml) (w : world St) :
  is_ok (email_provider config) = true ->
  (exists w' evs,
      send_error env subject body config w
        = (Ok tt, w', SendError subject body :: evs)
      /\ Forall transport_event evs
      /\ (delivered evs \/ error_logged evs))
  /\ (exists w' evs,
      send_confirmation env subject body config w
        = (Ok tt, w', SendConfirmation subject body :: evs)
      /\ Forall transport_event evs
      /\ (delivered evs \/ error_logged evs)).
Proof.
  intros Hcfg. split.
  - destruct (send_error_returns env subject body config w Hcfg)
      as (w' & evs & ? & ? & ? & ?). eauto.
  - destruct (send_confirmation_returns env subject body config w Hcfg)
      as (w' & evs & ? & ? & ? & ?). eauto.
Qed.

(** The SMTP server is down for all three attempts. *)
Lemma notifications_never_raise_witness :
  is_ok (email_provider (demo_config "smtp")) = true
  /\ (exists w' evs,
        send_error calm_env "subject" "body" (demo_config "smtp") demo_world
          = (Ok tt, w', SendError "subject" "body" :: evs)
        /\ Forall transport_event evs
        /\ (delivered evs \/ error_logged evs)).
Proof.
  split; [reflexivity|].
  apply (notifications_never_raise calm_env "subject" "body" (demo_config "smtp")
           demo_world eq_refl).
Defined.

(** C10 as stated fails: a configuration without an [email] entry makes
    both helpers raise [KeyError] to their caller. *)
Lemma notifications_raise_without_email_section :
  send_error calm_env "subject" "body" config_without_email demo_world
    = (Raise (mkExn KeyError "email"), demo_world, [SendError "subject" "body"])
  /\ send_confirmation calm_env "subject" "body" config_without_email demo_world
    = (Raise (mkExn KeyError "email"), demo_world,
       [SendConfirmation "subject" "body"]).
Proof. split; reflexivity. Qed.

(** ** The Excel-driven workflow *)

(** C8.  A row whose content is empty or missing only produces the debug
    record and the warning: no notification, no write, no mark; the loop
    goes on with the next row. *)
Theorem empty_content_row_is_skipped {St : Type} (env : Env St) (config : yaml)
    (idx : nat) (r : ExcelMonitor.row) (rows : list ExcelMonitor.row) (w : world St) :
  truthy (row_content r) = false ->
  process_row env config idx r w
    = (Ok tt, w,
       [Log DEBUG "Processing Excel row {idx}: {row}";
        Log WARNING "Row {idx} missing 'content' column, skipping."])
  /\ for_rows env config idx (r :: rows) w
    = after [Log DEBUG "Processing Excel row {idx}: {row}";
             Log WARNING "Row {idx} missing 'content' column, skipping."]
        (for_rows env config (S idx) rows w).
Proof.
  intros Hc.
  assert (Hrow : process_row env config idx r w
                 = (Ok tt, w,
                    [Log DEBUG "Processing Excel row {idx}: {row}";
                     Log WARNING "Row {idx} missing 'content' column, skipping."])).
  { unfold process_row, row_guard, bind, attempt, emit, ret. rewrite Hc. reflexivity. }
  split; [done|].
  cbn [for_rows]. unfold bind at 1. rewrite Hrow. unfold after.
  by destruct (for_rows env config (S idx) rows w) as [[r' w'] evs'].
Qed.

Lemma empty_content_row_is_skipped_witness :
  truthy (row_content blank_row) = false
  /\ process_row calm_env (demo_config "gmail") 1 blank_row demo_world
    = (Ok tt, demo_world,
       [Log DEBUG "Processing Excel row {idx}: {row}";
        Log WARNING "Row {idx} missing 'content' column, skipping."]).
Proof.
  split; [reflexivity|].
  apply (empty_content_row_is_skipped calm_env (demo_config "gmail") 1 blank_row []
           demo_world eq_refl).
Defined.

(** C2 fails on the code.  With one open row, a refused write of the
    Instagram cell and everything else succeeding, the run marks row 0
    processed and sends the success notification although no Instagram
    caption reached the sheet. *)
Theorem row_marked_processed_without_instagram_write :
  let evs := (process_excel_topics instagram_write_fails_env (demo_config "gmail")
                demo_world).2 in
  In (WriteInstagram 0 "Instagram post (mocked)" false) evs
  /\ instagram_written evs = []
  /\ linkedin_written evs = [(0%nat, "LinkedIn post (mocked)")]
  /\ marked_rows evs = [0%nat]
  /\ success_notifications evs = 1%nat.
Proof. vm_compute. tauto. Qed.

Section ExcelFacts.
Context {St : Type} (env : Env St) (config : yaml).

Lemma triple_eta {A B C : Type} (y : A * B * C) : y = (y.1.1, y.1.2, y.2).
Proof. by destruct y as [[? ?] ?]. Defined.

(** What a [bind] that has run tells about its two parts. *)
Lemma bind_inv {A B : Type} (m : M St A) (k : A -> M St B) w r w' evs :
  bind m k w = (r, w', evs) ->
  (exists a w1 evs1 evs2,
      m w = (Ok a, w1, evs1) /\ k a w1 = (r, w', evs2) /\ evs = evs1 ++ evs2)
  \/ (exists e w1 evs1, m w = (Raise e, w1, evs1) /\ r = Raise e).
Proof.
  unfold bind. destruct (m w) as [[[a|e] w1] evs1].
  - destruct (k a w1) as [[r2 w2] evs2] eqn:Hk. intros [= <- <- <-].
    left. by exists a, w1, evs1, evs2.
  - intros [= <- <- <-]. right. by exists e, w1, evs1.
Qed.

Lemma after_after {A : Type} evs1 evs2 (x : result A * world St * list event) :
  after evs1 (after evs2 x) = after (evs1 ++ evs2) x.
Proof. destruct x as [[r w] evs]. simpl. by rewrite app_assoc. Qed.

Lemma bind_after {A B : Type} (m : M St A) (k : A -> M St B) w a w1 evs1 :
  m w = (Ok a, w1, evs1) -> bind m k w = after evs1 (k a w1).
Proof. intros H. unfold bind, after. by rewrite H. Qed.

(** A prefix of the guarded body that returns can be run before the
    guard. *)
Lemma row_guard_prefix {A : Type} idx content (pre : M St A) (k : A -> M St unit)
    w a w1 evs1 :
  pre w = (Ok a, w1, evs1) ->
  row_guard env config idx content (bind pre k) w
  = after evs1 (row_guard env config idx content (k a) w1).
Proof.
  intros H. unfold row_guard, attempt.
  unfold bind at 1. unfold bind at 1. rewrite H.
  unfold bind at 2.
  destruct (k a w1) as [[r w2] evs2]. simpl.
  match goal with
  | |- context [match r with Ok _ => ?n | Raise e => @?h e end w2] =>
      destruct (match r with Ok _ => n | Raise e => h e end w2) as [[r0 w0] evs0]
  end.
  simpl. by rewrite app_assoc.
Qed.

(** The row's [try] catches whatever its body raises: with a readable
    [email] section the loop body always returns. *)
Lemma row_guard_returns idx content (body : M St unit) w :
  is_ok (email_provider config) = true ->
  exists w' evs, row_guard env config idx content body w = (Ok tt, w', evs).
Proof.
  intros Hcfg. unfold row_guard, bind, attempt, ret, emit.
  destruct (body w) as [[[u|e] w1] evs1]; simpl; [eauto|].
  edestruct (send_error_returns env) as (w2 & evs2 & -> & _); [done|]. eauto.
Qed.

Lemma failure_notifications_app evs1 evs2 :
  failure_notifications (evs1 ++ evs2)
  = (failure_notifications evs1 + failure_notifications evs2)%nat.
Proof.
  induction evs1 as [|ev evs1 IH]; [done|]. destruct ev; simpl; rewrite ?IH; done.
Qed.

Lemma failure_notifications_transport evs :
  Forall transport_event evs -> failure_notifications evs = O.
Proof.
  induction 1 as [|ev evs Hev _ IH]; [done|]. by destruct ev.
Qed.

Lemma news_stage_failure content target_group w e s1 :
  is_ok (email_provider config) = true ->
  fetch_news_articles env content target_group (outside w) = (Raise e, s1) ->
  exists body evs_n w2,
    news_stage env config content target_group w
    = (Ok [], w2,
       [NewsFetch content target_group false;
        Log ERROR "Failed to fetch news articles for content '{content}': {e}";
        SendError "Susi Excel Workflow: News Fetch Failed" body] ++ evs_n)
    /\ Forall transport_event evs_n
    /\ same_process w w2.
Proof.
  intros Hcfg Hf. unfold news_stage, bind, attempt, call, emit, ret. rewrite Hf. simpl.
  edestruct (send_error_returns env) as (w2 & evs & -> & Hev & HR & _); [done|].
  simpl. eexists _, evs, w2. rewrite app_nil_r. split; [done|]. split; done.
Qed.

Lemma news_stage_success content target_group w news s1 :
  fetch_news_articles env content target_group (outside w) = (Ok news, s1) ->
  news_stage env config content target_group w
  = (Ok news, mkWorld s1 (seen_ids w) (day_jobs w) (scheduled w),
     [NewsFetch content target_group true;
      Log INFO "Fetched {len(news_articles)} news articles for content '{content}'."]).
Proof.
  intros Hf. unfold news_stage, bind, attempt, call, emit, ret. by rewrite Hf.
Qed.

End ExcelFacts.

Section CaptionFacts.
Context {St : Type} (env : Env St) (config : yaml).

Lemma claimed_title_lines_code (articles : list article) :
  map title_line (List.filter has_title articles) = claimed_title_lines articles.
Proof.
  induction articles as [|a articles IH]; [done|].
  cbn [List.filter claimed_title_lines]. unfold has_title at 1.
  destruct (assoc "title" a) as [t|] eqn:Ht.
  - cbn [map]. unfold title_line at 1. rewrite Ht. f_equal. exact IH.
  - exact IH.
Qed.

(** The write stage is entered with the caption it is given. *)
Lemma write_stages_attempts_write idx content target_group news caption w :
  exists ok,
    In (WriteInstagram idx caption ok)
       (write_stages env config idx content target_group news caption w).2.
Proof.
  unfold write_stages. unfold bind at 1. unfold bind at 1. unfold attempt, bind at 1, traced.
  destruct (ExcelMonitor.write_instagram_post env idx caption w) as [[r w1] evs1].
  exists (is_ok r).
  destruct r as [u|e]; simpl.
  - match goal with |- context [bind ?m ?k w1] => destruct (bind m k w1) as [[r2 w2] evs2] end.
    simpl. rewrite !in_app_iff. simpl. tauto.
  - match goal with |- context [bind ?m ?k w1] => destruct (bind m k w1) as [[r2 w2] evs2] end.
    destruct r2; simpl.
    + match goal with |- context [bind ?m ?k w2] => destruct (bind m k w2) as [[r3 w3] evs3] end.
      simpl. rewrite !in_app_iff. simpl. tauto.
    + rewrite !in_app_iff. simpl. tauto.
Qed.

End CaptionFacts.

(** C6 (as amended).  With a readable [email] section, when the Instagram
    generation raises, exactly one failure notification is sent for it, and
    the caption that the write stages then use is the fallback text: the placeholder form when the article list is
    empty, the topic header followed by one title line per article with a
    title otherwise. *)
Theorem instagram_generation_failure_uses_fallback {St : Type} (env : Env St)
    (config : yaml) (idx : nat) (content target_group : scalar)
    (articles : list article) (w : world St) (e : exn) (s1 : St) :
  is_ok (email_provider config) = true ->
  generate_instagram_post env content target_group articles (outside w)
    = (Raise e, s1) ->
  exists body evs_n w2 caption,
    let generation_events :=
      [InstagramGeneration content target_group articles false;
       Log ERROR "Failed to generate Instagram post for content '{content}': {e}";
       SendError "Susi Excel Workflow: Instagram Post Generation Failed" body]
      ++ evs_n in
    Forall transport_event evs_n
    /\ failure_notifications generation_events = 1%nat
    /\ stages_after_news env config idx content target_group articles w
       = after generation_events
           (write_stages env config idx content target_group articles caption w2)
    /\ (exists ok,
          In (WriteInstagram idx caption ok)
             (write_stages env config idx content target_group articles caption w2).2)
    /\ caption
       = match articles with
         | [] =>
             "Topic: " +:+ py_str content +:+ nl +:+ "Target Group: "
               +:+ py_str target_group +:+ nl +:+ "(No relevant news articles found)"
         | _ :: _ =>
             "Topic: " +:+ py_str content +:+ nl +:+ "Target Group: "
               +:+ py_str target_group +:+ nl +:+ nl +:+ "Relevant News:" +:+ nl
               +:+ join nl (claimed_title_lines articles)
         end.
Proof.
  intros Hcfg Hg.
  edestruct (send_error_returns env) as (w2 & evs_n & Hs & Hev & _ & _); [exact Hcfg|].
  eexists _, evs_n, w2, (fallback_caption content target_group articles). cbv zeta.
  split; [exact Hev|]. split.
  { rewrite failure_notifications_app, (failure_notifications_transport evs_n Hev).
    reflexivity. }
  split.
  { unfold stages_after_news. unfold bind at 1. unfold attempt, bind at 1, call.
    rewrite Hg. cbn iota beta. unfold bind at 1. unfold bind at 1. unfold bind at 1.
    unfold emit at 1. cbn iota beta. rewrite Hs. cbn iota beta. unfold ret at 1.
    cbn iota beta.
    destruct (write_stages env config idx content target_group articles
                (fallback_caption content target_group articles) w2) as [[r w3] evs3].
    unfold after. f_equal. simpl. by rewrite app_nil_r. }
  split; [apply write_stages_attempts_write|].
  unfold fallback_caption. destruct articles as [|a articles]; [done|].
  by rewrite claimed_title_lines_code.
Qed.

(** The model is down for the open row; the search had returned one
    article. *)
Lemma instagram_generation_failure_uses_fallback_witness :
  is_ok (email_provider (demo_config "gmail")) = true
  /\ generate_instagram_post model_down_env (SStr "AI in Healthcare") (SStr "Doctors")
       [demo_article] (outside demo_world) = (Raise down, tt)
  /\ exists body evs_n w2,
      stages_after_news model_down_env (demo_config "gmail") 0
        (SStr "AI in Healthcare") (SStr "Doctors") [demo_article] demo_world
      = after
          ([InstagramGeneration (SStr "AI in Healthcare") (SStr "Doctors")
              [demo_article] false;
            Log ERROR "Failed to generate Instagram post for content '{content}': {e}";
            SendError "Susi Excel Workflow: Instagram Post Generation Failed" body]
           ++ evs_n)
          (write_stages model_down_env (demo_config "gmail") 0
             (SStr "AI in Healthcare") (SStr "Doctors") [demo_article]
             ("Topic: AI in Healthcare" +:+ nl +:+ "Target Group: Doctors" +:+ nl +:+ nl
                +:+ "Relevant News:" +:+ nl +:+ "- AI revolutionizes diagnosis")
             w2).
Proof.
  split; [reflexivity|]. split; [reflexivity|].
  destruct (instagram_generation_failure_uses_fallback model_down_env
              (demo_config "gmail") 0 (SStr "AI in Healthcare") (SStr "Doctors")
              [demo_article] demo_world down tt eq_refl eq_refl)
    as (body & evs_n & w2 & caption & _ & _ & Hrun & _ & Hcap).
  exists body, evs_n, w2. rewrite Hrun, Hcap. reflexivity.
Defined.

(** C6 as stated fails.  The configuration has no [email] section and the
    model is down for the first of two open rows: [send_error] raises in the
    handler of the generation stage and again in the handler of the row, so
    two notifications are entered, no caption is written, fallback or other,
    the exception leaves the loop and the second row is never looked at. *)
Lemma generation_failure_without_email_section_writes_no_caption :
  let x := for_rows model_down_env config_without_email 0 [open_row; open_row]
             demo_world in
  (exists a, In (InstagramGeneration (SStr "AI in Healthcare") (SStr "Doctors") a false) x.2)
  /\ (exists e, x.1.1 = Raise e /\ exn_kind e = KeyError)
  /\ failure_notifications x.2 = 2%nat
  /\ (forall idx caption ok, ~ In (WriteInstagram idx caption ok) x.2)
  /\ (forall a value ok, ~ In (RangePatch a value ok) x.2)
  /\ occurrences (fun ev => match ev with NewsFetch _ _ _ => true | _ => false end) x.2
     = 1%nat.
Proof.
  cbv zeta. split; [eexists; vm_compute; tauto|].
  split; [eexists; split; reflexivity|].
  split; [reflexivity|]. split; [|split; [|reflexivity]].
  - intros idx caption ok H. vm_compute in H.
    repeat (destruct H as [H|H]; [discriminate H|]). exact H.
  - intros a value ok H. vm_compute in H.
    repeat (destruct H as [H|H]; [discriminate H|]). exact H.
Qed.

(** ** Rows, indices and cells *)

Section RowFacts.
Context {St : Type} (env : Env St) (config : yaml).

Lemma patch_column_events column idx value :
  safe (patch_event idx) same_process (ExcelMonitor.patch_column env column idx value).
Proof.
  unfold ExcelMonitor.patch_column. repeat safe_step.
Qed.

Lemma patch_column_safe column idx value :
  safe (row_event idx) same_process (ExcelMonitor.patch_column env column idx value).
Proof.
  apply (safe_weaken (patch_event idx)); [by intros []|apply patch_column_events].
Qed.

Lemma process_row_safe idx r :
  safe (row_event idx) same_process (process_row env config idx r).
Proof.
  unfold process_row, row_guard, news_stage, stages_after_news, write_stages,
    linkedin_stage, completion_stage, ExcelMonitor.write_instagram_post,
    ExcelMonitor.write_linkedin_post, ExcelMonitor.mark_row_processed.
  repeat first
    [ apply patch_column_safe
    | apply (safe_weaken notification_event (row_event idx));
      [ by intros [] | first [apply send_error_safe | apply send_confirmation_safe] ]
    | safe_step ].
Qed.

Ltac safe_not_mark idx :=
  solve [ repeat first
            [ apply (safe_weaken (patch_event idx) not_mark);
              [ by intros [] | apply patch_column_events ]
            | apply (safe_weaken notification_event not_mark);
              [ by intros [] | apply send_error_safe ]
            | safe_step ] ].

(** [linkedin_stage] reports success only after a LinkedIn write that
    returned, and marks nothing itself. *)
Lemma linkedin_stage_success idx content target_group news w r w' evs :
  linkedin_stage env config idx content target_group news w = (r, w', evs) ->
  Forall not_mark evs
  /\ (r = Ok true -> exists text, In (WriteLinkedIn idx text true) evs).
Proof.
  intros Hrun. split.
  { assert (Hs : safe not_mark same_process
                   (linkedin_stage env config idx content target_group news)).
    { unfold linkedin_stage, ExcelMonitor.write_linkedin_post. safe_not_mark idx. }
    destruct (Hs w) as [Hev _]. by rewrite Hrun in Hev. }
  unfold linkedin_stage in Hrun.
  apply bind_inv in Hrun as [(g & w1 & evs1 & evs' & _ & Hrun & ->)|(? & ? & ? & ? & ->)];
    [|done].
  apply bind_inv in Hrun
    as [(linkedin_post & w2 & evs2 & evs3 & _ & Hrun & ->)|(? & ? & ? & ? & ->)];
    [|done].
  destruct linkedin_post as [post|]; [|by injection Hrun as <-].
  destruct (nonempty post); [|by injection Hrun as <-].
  apply bind_inv in Hrun as [(o & w3 & evs4 & evs5 & Hw & Hrun & ->)|(? & ? & ? & ? & ->)];
    [|done].
  destruct o as [[]|e].
  - intros _. exists post. rewrite !in_app_iff. right. right. left.
    unfold attempt in Hw.
    match type of Hw with
    | context [bind ?m ?k w2] => destruct (bind m k w2) as [[r4 w4] evs6] eqn:Hx
    end.
    injection Hw as -> -> ->.
    apply bind_inv in Hx as [(u & w5 & evs7 & evs8 & Ht & _ & ->)|(? & ? & ? & Ht & [=])].
    unfold traced in Ht.
    destruct (ExcelMonitor.write_linkedin_post env idx post w2) as [[r6 w6] evs9].
    injection Ht as -> -> <-. rewrite !in_app_iff. simpl. tauto.
  - apply bind_inv in Hrun as [(? & ? & ? & ? & _ & Hrun & ->)|(? & ? & ? & ? & ->)];
      [|done].
    apply bind_inv in Hrun as [(? & ? & ? & ? & _ & Hrun & ->)|(? & ? & ? & ? & ->)];
      [|done].
    by injection Hrun as <-.
Qed.

Lemma mark_has_cause_safe idx evs : Forall not_mark evs -> mark_has_cause idx evs.
Proof.
  intros Hev i b Hin. rewrite Forall_forall in Hev.
  by apply list_elem_of_In, Hev in Hin.
Qed.

Lemma mark_has_cause_app_r idx evs1 evs2 :
  Forall not_mark evs1 -> mark_has_cause idx evs2 -> mark_has_cause idx (evs1 ++ evs2).
Proof.
  intros Hev Hc i b [Hin|Hin]%in_app_iff.
  - rewrite Forall_forall in Hev. by apply list_elem_of_In, Hev in Hin.
  - destruct (Hc i b Hin) as (caption & ok & text & ? & ? & ?).
    exists caption, ok, text. rewrite !in_app_iff. tauto.
Qed.

Lemma mark_has_cause_app_l idx evs1 evs2 :
  mark_has_cause idx evs1 -> Forall not_mark evs2 -> mark_has_cause idx (evs1 ++ evs2).
Proof.
  intros Hc Hev i b [Hin|Hin]%in_app_iff.
  - destruct (Hc i b Hin) as (caption & ok & text & ? & ? & ?).
    exists caption, ok, text. rewrite !in_app_iff. tauto.
  - rewrite Forall_forall in Hev. by apply list_elem_of_In, Hev in Hin.
Qed.

Lemma mark_has_cause_bind {A B : Type} idx (m : M St A) (k : A -> M St B) w :
  safe not_mark same_process m ->
  (forall a w1, mark_has_cause idx (k a w1).2) ->
  mark_has_cause idx (bind m k w).2.
Proof.
  intros Hm Hk. destruct (Hm w) as [Hev _]. unfold bind.
  destruct (m w) as [[[a|e] w1] evs1]; simpl in *.
  - specialize (Hk a w1). destruct (k a w1) as [[r w2] evs2]. simpl in *.
    by apply mark_has_cause_app_r.
  - by apply mark_has_cause_safe.
Qed.

(** The same for the part of a row that follows the choice of the
    caption. *)
Lemma linkedin_cause_bind {A B : Type} idx caption (m : M St A) (k : A -> M St B) w :
  safe not_mark same_process m ->
  (forall a w1, linkedin_cause idx caption (k a w1).2) ->
  linkedin_cause idx caption (bind m k w).2.
Proof.
  intros Hm Hk. destruct (Hm w) as [Hev _]. unfold bind.
  rewrite Forall_forall in Hev.
  destruct (m w) as [[[a|e] w1] evs1]; simpl in *.
  - specialize (Hk a w1). destruct (k a w1) as [[r w2] evs2]. simpl in *.
    intros i b [Hin|Hin]%in_app_iff; [by apply list_elem_of_In, Hev in Hin|].
    destruct (Hk i b Hin) as (Hne & text & Ht).
    split; [done|]. exists text. apply in_app_iff. by right.
  - intros i b Hin. by apply list_elem_of_In, Hev in Hin.
Qed.

Lemma completion_after_linkedin idx content target_group news caption w :
  linkedin_cause idx caption
    (bind (linkedin_stage env config idx content target_group news)
       (fun linkedin_success =>
          completion_stage env config idx content target_group caption
            linkedin_success) w).2.
Proof.
  unfold bind.
  destruct (linkedin_stage env config idx content target_group news w)
    as [[[success|e] w1] evs1] eqn:Hl;
    apply linkedin_stage_success in Hl as [Hev Htrue]; simpl.
  - unfold completion_stage.
    destruct (nonempty caption) eqn:Hne; destruct success; simpl;
      try (rewrite app_nil_r; intros i b Hin; rewrite Forall_forall in Hev;
           by apply list_elem_of_In, Hev in Hin).
    destruct (Htrue eq_refl) as (text & Ht).
    match goal with
    | |- context [bind ?m ?k w1] => destruct (bind m k w1) as [[r2 w2] evs2]
    end.
    simpl. intros i b _. split; [done|]. exists text. apply in_app_iff. by left.
  - intros i b Hin. rewrite Forall_forall in Hev. by apply list_elem_of_In, Hev in Hin.
Qed.

Lemma write_stages_mark_has_cause idx content target_group news caption w :
  mark_has_cause idx
    (write_stages env config idx content target_group news caption w).2.
Proof.
  destruct (write_stages_attempts_write env config idx content target_group news
              caption w) as (ok & Hwrite).
  assert (Hl : linkedin_cause idx caption
                 (write_stages env config idx content target_group news caption w).2).
  { unfold write_stages.
    apply linkedin_cause_bind;
      [unfold ExcelMonitor.write_instagram_post; safe_not_mark idx|intros o w1].
    apply linkedin_cause_bind; [safe_not_mark idx|intros _ w2].
    apply completion_after_linkedin. }
  intros i b Hin. destruct (Hl i b Hin) as (Hne & text & Ht).
  by exists caption, ok, text.
Qed.

(** A mark in the events of a row has its cause in the events of that
    row. *)
Lemma process_row_mark_has_cause idx r w :
  mark_has_cause idx (process_row env config idx r w).2.
Proof.
  unfold process_row.
  apply mark_has_cause_bind; [safe_not_mark idx|intros _ w1].
  unfold row_guard. unfold bind at 1. unfold attempt.
  match goal with
  | |- context [(if ?c then ?a else ?b) w1] =>
      assert (Hbody : mark_has_cause idx ((if c then a else b) w1).2);
      [|destruct ((if c then a else b) w1) as [[[[]|e] w2] evs2]]
  end.
  - destruct (negb (truthy (row_content r))).
    + apply mark_has_cause_safe. by repeat constructor.
    + apply mark_has_cause_bind; [safe_not_mark idx|intros _ w2].
      apply mark_has_cause_bind;
        [unfold news_stage; safe_not_mark idx|intros news w3].
      unfold stages_after_news.
      apply mark_has_cause_bind; [safe_not_mark idx|intros g w4].
      apply mark_has_cause_bind; [safe_not_mark idx|intros caption w5].
      apply write_stages_mark_has_cause.
  - simpl in *. by rewrite app_nil_r.
  - simpl in *.
    match goal with
    | |- context [bind ?m ?k w2] =>
        assert (Hs : safe not_mark same_process (bind m k)) by safe_not_mark idx;
        destruct (Hs w2) as [Hev _];
        destruct (bind m k w2) as [[r3 w3] evs3]
    end.
    simpl in *. by apply mark_has_cause_app_l.
Qed.

End RowFacts.

Lemma unprocessed_positions_spec (header : list scalar) :
  forall (data : list (list scalar)) (pos idx p : nat),
    ExcelMonitor.unprocessed_positions header data pos !! idx = Some p ->
    (pos + idx <= p)%nat
    /\ List.filter ExcelMonitor.unprocessed (map (fun r => combine header r) data) !! idx
       = (fun r => combine header r) <$> data !! (p - pos)%nat
    /\ (p = (pos + idx)%nat
        <-> Forall (fun r => ExcelMonitor.unprocessed (combine header r) = true)
              (take (p - pos) data)).
Proof.
  induction data as [|r data IH]; intros pos idx p Hp; [done|].
  cbn [ExcelMonitor.unprocessed_positions map List.filter] in *.
  destruct (ExcelMonitor.unprocessed (combine header r)) eqn:Hr.
  - destruct idx as [|idx]; simpl in Hp.
    + simplify_eq. replace (p - p)%nat with O by lia. simpl.
      split; [lia|]. split; [done|]. split; [constructor|lia].
    + destruct (IH _ _ _ Hp) as (Hle & Hget & Hiff).
      replace (p - pos)%nat with (S (p - S pos)) by lia. simpl.
      split; [lia|]. split; [done|].
      rewrite Forall_cons. rewrite <- Hiff. split; [intros; split; [done|lia]|lia].
  - destruct (IH _ _ _ Hp) as (Hle & Hget & Hiff).
    replace (p - pos)%nat with (S (p - S pos)) by lia. simpl.
    split; [lia|]. split; [done|].
    rewrite Forall_cons. split; [lia|]. intros [? _]. congruence.
Qed.

(** On [mixed_sheet] the open row is sheet row 3; the run writes the
    Instagram text, the LinkedIn text and the mark into C2, D2 and E2, the
    cells of the row that was processed before. *)
Example mixed_sheet_run_patches_row_two :
  patched_cells (process_excel_topics mixed_env (demo_config "gmail") demo_world).2
  = [mkAddress 67 2; mkAddress 68 2; mkAddress 69 2].
Proof. vm_compute. reflexivity. Qed.

(** ** The image workflow *)

Section ImageFacts.
Context {St : Type} (env : Env St) (config : yaml).

Lemma safe_any_world {A : Type} (P : event -> Prop) (m : M St A) :
  safe P same_process m -> safe P any_world m.
Proof. intros Hm w. destruct (Hm w). done. Qed.

Lemma move_onedrive_file_to_processed_safe it :
  safe move_body_event same_process (move_onedrive_file_to_processed env config it).
Proof. unfold move_onedrive_file_to_processed. repeat safe_step. Qed.

Lemma publish_stages_safe seen_supplied it local_path caption s3_url :
  safe not_upload any_world
    (publish_stages env config seen_supplied it local_path caption s3_url).
Proof.
  unfold publish_stages.
  repeat first
    [ apply safe_any_world, (safe_weaken move_body_event not_upload);
      [ by intros [] | apply move_onedrive_file_to_processed_safe ]
    | apply safe_any_world, (safe_weaken notification_event not_upload);
      [ by intros [] | first [apply send_error_safe | apply send_confirmation_safe] ]
    | safe_step ].
  intros w. by split.
Qed.

End ImageFacts.

Section UploadFacts.
Context {St : Type} (env : Env St) (config : yaml).

Lemma success_notifications_app evs1 evs2 :
  success_notifications (evs1 ++ evs2)
  = (success_notifications evs1 + success_notifications evs2)%nat.
Proof.
  induction evs1 as [|ev evs1 IH]; [done|]. destruct ev; simpl; rewrite ?IH; done.
Qed.

Lemma before_upload_quiet evs :
  Forall before_upload_event evs ->
  failure_notifications evs = O
  /\ Forall not_failed_upload evs
  /\ Forall aborted_item_event evs.
Proof.
  induction 1 as [|ev evs Hev _ (IH1 & IH2 & IH3)]; [done|].
  destruct ev; try done; simpl; split_and!; try done; by constructor.
Qed.

(** A prefix that only produces events of the stages before the upload
    keeps the dichotomy. *)
Lemma upload_fails_safely_bind {A : Type} (m : M St A) (k : A -> M St unit) w :
  safe before_upload_event same_process m ->
  (forall a w1, upload_fails_safely w1 (k a w1)) ->
  upload_fails_safely w (bind m k w).
Proof.
  intros Hm Hk. destruct (Hm w) as [Hev HR]. unfold bind.
  destruct (m w) as [[[a|e] w1] evs1]; simpl in *.
  - destruct (before_upload_quiet evs1 Hev) as (Hc & Hn & Ha).
    specialize (Hk a w1). destruct (k a w1) as [[r w2] evs2].
    destruct Hk as [Hleft|(Hr & Hsame & Hcount & Hall)]; simpl in *.
    + left. simpl. by apply Forall_app.
    + right. unfold upload_abort. simpl. split; [done|].
      split; [by eapply same_process_trans|].
      split; [by rewrite failure_notifications_app, Hc, Hcount|by apply Forall_app].
  - left. simpl. by destruct (before_upload_quiet evs1 Hev) as (_ & ? & _).
Qed.

Lemma upload_fails_safely_left (m : M St unit)
    (R : world St -> world St -> Prop) w :
  safe not_failed_upload R m -> upload_fails_safely w (m w).
Proof. intros Hm. left. by destruct (Hm w). Qed.

Lemma handler_not_failed_upload (fmt subject body : string) :
  safe not_failed_upload same_process
    (bind (emit (Log ERROR fmt)) (fun _ => send_error env subject body config)).
Proof.
  repeat first
    [ apply (safe_weaken notification_event not_failed_upload);
      [ by intros [] | apply send_error_safe ]
    | safe_step ].
Qed.

(** The item's [try] keeps the dichotomy: what it adds after a raising body
    is the notification of the unexpected error. *)
Lemma upload_fails_safely_guard it (body : M St unit) w :
  upload_fails_safely w (body w) ->
  upload_fails_safely w (image_guard env config it body w).
Proof.
  intros Hb. unfold image_guard. unfold bind at 1. unfold attempt.
  destruct (body w) as [[[[]|e] w1] evs1]; simpl in *.
  - rewrite app_nil_r. exact Hb.
  - destruct Hb as [Hleft|(Hr & _)]; [|done]. left.
    match goal with
    | |- context [bind ?m ?k w1] =>
        destruct (handler_not_failed_upload
                    "Unexpected error processing {item['name']}: {e}\n{tb}"
                    "Susi Unexpected Error"
                    ("Unexpected error processing " +:+ item_name it +:+ ": "
                       +:+ exn_msg e +:+ nl +:+ nl +:+ "Traceback:" +:+ nl
                       +:+ format_exc env e) w1) as [Hh _];
        destruct (bind m k w1) as [[r2 w2] evs2]
    end.
    simpl in *. by apply Forall_app.
Qed.

Lemma publish_not_failed_upload seen_supplied it local_path caption s3_url w :
  Forall not_failed_upload
    (publish_stages env config seen_supplied it local_path caption s3_url w).2.
Proof.
  destruct (publish_stages_safe env config seen_supplied it local_path caption s3_url w)
    as [Hev _].
  eapply Forall_impl; [exact Hev|]. by intros [].
Qed.

(** The upload stage: a failed upload gives the item up with one failure
    notification; otherwise no upload has failed. *)
Lemma upload_stages_fails_safely seen_supplied it local_path caption w :
  is_ok (email_provider config) = true ->
  upload_fails_safely w
    (upload_stages env config seen_supplied it local_path caption w).
Proof.
  intros Hcfg. unfold upload_stages, bind, lift, attempt, emit, call, raise, ret.
  destruct (cfg_item config "aws") as [aws|e]; [|by left; simpl].
  destruct (cfg_item aws "s3_bucket") as [bucket|e]; [|by left; simpl].
  simpl.
  destruct (cfg_item aws "region") as [region|e]; simpl.
  - destruct (upload_file_to_s3 env local_path bucket region (outside w))
      as [[u|e] s1] eqn:Hup; simpl.
    + destruct (no_url u) eqn:Hu; simpl.
      * edestruct (send_error_returns env) as (w2 & evs & -> & Hev & Hsame & _);
          [exact Hcfg|].
        right. unfold upload_abort. simpl. split; [done|]. split; [exact Hsame|].
        split.
        { by rewrite (failure_notifications_transport evs Hev). }
        repeat constructor. simpl.
        eapply Forall_impl; [exact Hev|]. by intros [].
      * destruct u as [url|]; [|done].
        pose proof (publish_not_failed_upload seen_supplied it local_path caption url
                      (mkWorld s1 (seen_ids w) (day_jobs w) (scheduled w))) as Hp.
        destruct (publish_stages env config seen_supplied it local_path caption url
                    (mkWorld s1 (seen_ids w) (day_jobs w) (scheduled w)))
          as [[r w2] evs2].
        left. simpl in *. constructor; [done|]. constructor; [exact Hu|].
        by constructor.
    + edestruct (send_error_returns env) as (w2 & evs & -> & Hev & Hsame & _);
        [exact Hcfg|].
      right. unfold upload_abort. simpl. split; [done|]. split; [exact Hsame|].
      split.
      { by rewrite (failure_notifications_transport evs Hev). }
      repeat constructor. simpl.
      eapply Forall_impl; [exact Hev|]. by intros [].
  - edestruct (send_error_returns env) as (w2 & evs & -> & Hev & Hsame & _);
      [exact Hcfg|].
    left. simpl. repeat constructor.
    eapply Forall_impl; [exact Hev|]. by intros [].
Qed.

Lemma process_image_fails_safely seen_supplied template it w :
  is_ok (email_provider config) = true ->
  upload_fails_safely w (process_image env config seen_supplied template it w).
Proof.
  intros Hcfg. unfold process_image.
  apply upload_fails_safely_guard.
  apply upload_fails_safely_bind; [by repeat safe_step|intros _ w1].
  apply upload_fails_safely_bind; [by repeat safe_step|intros d w2].
  destruct d as [local_path|e].
  - apply upload_fails_safely_bind; [by repeat safe_step|intros _ w3].
    unfold caption_stages.
    apply upload_fails_safely_bind; [by repeat safe_step|intros c w4].
    destruct c as [caption|e].
    + by apply upload_stages_fails_safely.
    + eapply upload_fails_safely_left, handler_not_failed_upload.
  - eapply upload_fails_safely_left, handler_not_failed_upload.
Qed.

End UploadFacts.

(** C4 (as amended).  With a readable [email] section, if the upload of
    an item returns no URL or raises, the handling of the item returns after
    exactly one failure notification; the poster
    is not called, the file is not moved, the local copy is not removed,
    [seen_ids] is unchanged, and the loop goes on with the next item. *)
Theorem failed_upload_aborts_item {St : Type} (env : Env St) (config : yaml)
    (seen_supplied : bool) (template : yaml) (it : item) (images : list item)
    (w w' : world St) (r : result unit) (evs : list event)
    (path : string) (url : option string) (ok : bool) :
  is_ok (email_provider config) = true ->
  process_image env config seen_supplied template it w = (r, w', evs) ->
  In (Upload path url ok) evs ->
  no_url url = true ->
  r = Ok tt
  /\ failure_notifications evs = 1%nat
  /\ (forall u c x, ~ In (Post u c x) evs)
  /\ (forall i b, ~ In (MoveToProcessed i b) evs)
  /\ (forall i st, ~ In (MoveRequest i st) evs)
  /\ (forall p b, ~ In (Remove p b) evs)
  /\ (forall s b, ~ In (SendConfirmation s b) evs)
  /\ seen_ids w' = seen_ids w
  /\ for_images env config seen_supplied template (it :: images) w
     = after evs (for_images env config seen_supplied template images w').
Proof.
  intros Hcfg Hrun Hin Hno.
  pose proof (process_image_fails_safely env config seen_supplied template it w Hcfg)
    as Hcases.
  rewrite Hrun in Hcases.
  destruct Hcases as [Hleft|(Hr & (Hseen & _) & Hcount & Hall)]; simpl in *.
  { rewrite Forall_forall in Hleft. apply list_elem_of_In, Hleft in Hin.
    simpl in Hin. congruence. }
  rewrite Forall_forall in Hall.
  assert (Hnone : forall ev, In ev evs -> aborted_item_event ev).
  { intros ev Hev. by apply Hall, list_elem_of_In. }
  split; [done|]. split; [done|].
  split; [intros u c x Hev; exact (Hnone _ Hev)|].
  split; [intros i b Hev; exact (Hnone _ Hev)|].
  split; [intros i st Hev; exact (Hnone _ Hev)|].
  split; [intros p b Hev; exact (Hnone _ Hev)|].
  split; [intros s b Hev; exact (Hnone _ Hev)|].
  split; [done|].
  cbn [for_images]. subst r. erewrite bind_after by exact Hrun. reflexivity.
Qed.

(** The object store returns no URL for the one image of the listing. *)
Lemma failed_upload_aborts_item_witness :
  let x := process_image upload_none_env (demo_config "gmail") true
             (YScalar (SStr "{title}")) test_item demo_world in
  is_ok (email_provider (demo_config "gmail")) = true
  /\ In (Upload "downloads/test.jpg" None true) x.2
  /\ no_url None = true
  /\ x.1.1 = Ok tt
  /\ failure_notifications x.2 = 1%nat
  /\ (forall u c b, ~ In (Post u c b) x.2)
  /\ seen_ids x.1.2 = seen_ids demo_world.
Proof.
  intros x.
  assert (Hrun : process_image upload_none_env (demo_config "gmail") true
                   (YScalar (SStr "{title}")) test_item demo_world
                 = (x.1.1, x.1.2, x.2)) by apply triple_eta.
  assert (Hin : In (Upload "downloads/test.jpg" None true) x.2)
    by (vm_compute; tauto).
  destruct (failed_upload_aborts_item upload_none_env (demo_config "gmail") true
              (YScalar (SStr "{title}")) test_item [] demo_world x.1.2 x.1.1 x.2
              "downloads/test.jpg" None true eq_refl Hrun Hin eq_refl)
    as (Hr & Hcount & Hpost & _ & _ & _ & _ & Hseen & _).
  split; [reflexivity|]. split; [exact Hin|]. split; [reflexivity|].
  split; [exact Hr|]. split; [exact Hcount|]. split; [exact Hpost|exact Hseen].
Defined.

(** C4 as stated fails.  The configuration has no [email] section and the
    object store returns no URL for the first of two images: [send_error]
    raises in the handler of the upload stage and again in the handler of the
    item, so two notifications are entered, the exception leaves the loop and
    the second image is never downloaded. *)
Lemma failed_upload_without_email_section_leaves_the_loop :
  let x := for_images upload_none_env config_without_email true
             (YScalar (SStr "{title}")) [test_item; second_item] demo_world in
  In (Upload "downloads/test.jpg" None true) x.2
  /\ no_url None = true
  /\ (exists e, x.1.1 = Raise e /\ exn_kind e = KeyError)
  /\ failure_notifications x.2 = 2%nat
  /\ (forall ok, ~ In (Download second_item ok) x.2)
  /\ occurrences (fun ev => match ev with Download _ _ => true | _ => false end) x.2
     = 1%nat.
Proof.
  cbv zeta. split; [vm_compute; tauto|]. split; [reflexivity|].
  split; [eexists; split; reflexivity|].
  split; [reflexivity|]. split; [|reflexivity].
  intros ok H. vm_compute in H.
  repeat (destruct H as [H|H]; [discriminate H|]). exact H.
Qed.

Section ArchiveFacts.
Context {St : Type} (env : Env St) (config : yaml).

Lemma seen_after_archive_same {A : Type} it (w w' : world St) (r : result A) evs :
  same_process w w' -> Forall not_move evs -> seen_after_archive it w (r, w', evs).
Proof. intros (Hs & _) _. by left. Qed.









End ArchiveFacts.



(** C3 fails on the code.  The image is posted and the move request is
    answered with status 500: [move_onedrive_file_to_processed] only logs
    the refusal and returns, so the archive move has failed and the id of the
    item is in [seen_ids] after the run all the same. *)
Lemma seen_despite_refused_move :
  let x := process_images move_refused_env (demo_config "gmail") None true
             demo_world in
  In (MoveRequest test_item (Some 500)) x.2
  /\ In (Log ERROR "Failed to move '{item['name']}' to '{processed_folder}': {resp.text}")
       x.2
  /\ item_id test_item ∈ seen_ids x.1.2
  /\ item_id test_item ∉ seen_ids demo_world.
Proof.
  cbv zeta. split; [vm_compute; tauto|]. split; [vm_compute; tauto|].
  split; [|apply not_elem_of_empty].
  assert (Hb : bool_decide
                 (item_id test_item
                    ∈ seen_ids (process_images move_refused_env (demo_config "gmail")
                                  None true demo_world).1.2) = true)
    by (vm_compute; reflexivity).
  by apply bool_decide_eq_true in Hb.
Qed.

(** ** The trigger loop *)

Lemma schedule_setting_total (config : yaml) (key default : string) (day : string) :
  schedule_day config key default = Ok day ->
  forall key' default', exists t, schedule_setting config key' default' = Ok t.
Proof.
  unfold schedule_day, schedule_setting, cfg_get. intros H key' default'.
  destruct (cfg_item config SCHEDULE_KEY) as [sched|e]; [|done].
  destruct sched; try done. eauto.
Qed.

(** [job.at] raises no ValueError. *)
Lemma job_at_raises {St : Type} (env : Env St) (time : yaml) (e : exn) :
  job_at env time = Raise e -> exn_kind e <> ValueError.
Proof.
  unfold job_at. destruct time as [[| | |t]| |]; try (by intros [= <-]).
  destruct (schedule_accepts_time env _); [done|by intros [= <-]].
Qed.

(** C9 (as amended).  In schedule mode, when the configured image day or the
    configured Instagram day, lower-cased, is not a key of [DAY_MAP], [main]
    raises whatever the number of loop iterations one is ready to wait for,
    and the run is one of three.  With an unknown image day: the start
    record and the error record, and ValueError.  With a known image day
    whose time the library accepts: the start record, the registration of
    the image job and the error record, and ValueError.  With a known image
    day whose time the library refuses: the start record alone, and the
    library's exception, which is no ValueError.  In each of them no job
    runs, no notification is sent, and nothing outside the process is
    touched. *)
Theorem unknown_schedule_day_is_fatal {St : Type} (env : Env St) (config : yaml)
    (fuel : nat) (w : world St) (img_day post_day : string) :
  schedule_day config IMAGE_DAY_KEY "Tuesday" = Ok img_day ->
  schedule_day config INSTAGRAM_DAY_KEY "Thursday" = Ok post_day ->
  assoc img_day DAY_MAP = None \/ assoc post_day DAY_MAP = None ->
  (assoc img_day DAY_MAP = None
   /\ main env config "schedule" fuel w
      = (Raise (mkExn ValueError ("Unknown image workflow schedule day: " +:+ img_day)),
         w,
         [Log INFO "Susi started with trigger mode: {trigger_mode}";
          Log ERROR "Unknown image workflow schedule day: {img_day}"]))
  \/ (exists d img_time,
        assoc img_day DAY_MAP = Some d
        /\ schedule_setting config IMAGE_TIME_KEY "09:00" = Ok img_time
        /\ job_at env img_time = Ok tt
        /\ main env config "schedule" fuel w
           = (Raise (mkExn ValueError
                       ("Unknown Instagram workflow schedule day: " +:+ post_day)),
              mkWorld (outside w) (seen_ids w)
                ((d, mkJob (Some img_time) (Some job_process_images)) :: day_jobs w)
                (scheduled w ++ [d]),
              [Log INFO "Susi started with trigger mode: {trigger_mode}";
               JobRegistered d job_process_images;
               Log ERROR "Unknown Instagram workflow schedule day: {post_day}"]))
  \/ (exists d img_time e,
        assoc img_day DAY_MAP = Some d
        /\ schedule_setting config IMAGE_TIME_KEY "09:00" = Ok img_time
        /\ job_at env img_time = Raise e
        /\ exn_kind e <> ValueError
        /\ main env config "schedule" fuel w
           = (Raise e, w, [Log INFO "Susi started with trigger mode: {trigger_mode}"])).
Proof.
  intros Himg Hpost Hunknown.
  destruct (schedule_setting_total config _ _ _ Himg IMAGE_TIME_KEY "09:00")
    as (img_time & Hit).
  destruct (schedule_setting_total config _ _ _ Himg INSTAGRAM_TIME_KEY "09:00")
    as (post_time & Hpt).
  unfold main. simpl String.eqb. cbv iota.
  unfold bind, emit, lift, raise. rewrite Himg, Hit, Hpost, Hpt.
  destruct (assoc img_day DAY_MAP) as [d|] eqn:Hd.
  - right. destruct Hunknown as [?|Hp]; [done|].
    destruct (job_at env img_time) as [[]|e] eqn:Hat.
    + left. exists d, img_time. split; [done|]. split; [done|]. split; [done|].
      rewrite Hp. unfold schedule_at_do, bind, lift. rewrite Hat.
      destruct w; reflexivity.
    + right. exists d, img_time, e. split; [done|]. split; [done|]. split; [done|].
      split; [by eapply job_at_raises|].
      unfold schedule_at_do, bind, lift. rewrite Hat. destruct w; reflexivity.
  - left. split; [done|]. destruct w; reflexivity.
Qed.

(** The image day is a weekday, the Instagram day is not. *)
Lemma unknown_schedule_day_is_fatal_witness :
  schedule_day (demo_config "gmail") IMAGE_DAY_KEY "Tuesday" = Ok "tuesday"
  /\ schedule_day (demo_config "gmail") INSTAGRAM_DAY_KEY "Thursday" = Ok "someday"
  /\ assoc "someday" DAY_MAP = None
  /\ main calm_env (demo_config "gmail") "schedule" 5 demo_world
     = (Raise (mkExn ValueError "Unknown Instagram workflow schedule day: someday"),
        mkWorld tt ∅ [(tuesday, mkJob (Some (YScalar (SStr "09:00")))
                                  (Some job_process_images))] [tuesday],
        [Log INFO "Susi started with trigger mode: {trigger_mode}";
         JobRegistered tuesday job_process_images;
         Log ERROR "Unknown Instagram workflow schedule day: {post_day}"]).
Proof.
  split; [reflexivity|]. split; [reflexivity|]. split; [reflexivity|].
  destruct (unknown_schedule_day_is_fatal calm_env (demo_config "gmail") 5 demo_world
              "tuesday" "someday" eq_refl eq_refl (or_intror eq_refl))
    as [[Hnone _]|[(d & img_time & Hd & Ht & _ & Hrun)
                  |(d & img_time & e & _ & Ht & Hat & _)]].
  - discriminate Hnone.
  - rewrite Hrun. injection Hd as <-. injection Ht as <-. reflexivity.
  - injection Ht as <-. discriminate Hat.
Defined.

(** C9 as stated fails.  The image day is a weekday, the Instagram day is
    not, and the image time is a number: [job.at] raises TypeError before
    the Instagram day is looked at, so the exception that reaches the caller
    is no ValueError, and no error record is written. *)
Lemma refused_image_time_is_not_a_value_error :
  schedule_day unquoted_time_config INSTAGRAM_DAY_KEY "Thursday" = Ok "someday"
  /\ assoc "someday" DAY_MAP = None
  /\ main calm_env unquoted_time_config "schedule" 5 demo_world
     = (Raise (mkExn TypeError "at() should be passed a string"), demo_world,
        [Log INFO "Susi started with trigger mode: {trigger_mode}"]).
Proof. split; [reflexivity|]. split; reflexivity. Qed.

(** * Further properties of the code

    ** The retry decorator: every run *)

Module RetryRuns.
Import Retry.

Section Runs.
Context {St A : Type}.
Variable ExceptionToCheck : exn -> bool.
Variables tries delay backoff : Z.
Variable logger : bool.
Variable sleep : Z -> result unit.
Variable f : St -> result A * St.

Lemma f_retry_loop_shape fuel : forall mtries mdelay s,
  let evs :=
    (f_retry_loop ExceptionToCheck backoff logger sleep f fuel mtries mdelay s).2 in
  invocations evs = S (length (sleeps evs))
  /\ sleeps evs = backoff_delays (length (sleeps evs)) mdelay backoff
  /\ Z.of_nat (invocations evs) <= Z.max 1 mtries.
Proof.
  induction fuel as [|fuel IH]; intros mtries mdelay s; simpl.
  - destruct (f s) as [r s']. simpl. split; [done|]. split; [done|]. lia.
  - destruct (1 <? mtries) eqn:Hm.
    + apply Z.ltb_lt in Hm.
      destruct (f s) as [[v|e] s']; simpl; [split_and!; try done; lia|].
      destruct (ExceptionToCheck e); simpl; [|split_and!; try done; lia].
      destruct (sleep mdelay) as [[]|e']; simpl; [|split_and!; try done; lia].
      specialize (IH (mtries - 1) (mdelay * backoff) s').
      destruct (f_retry_loop ExceptionToCheck backoff logger sleep f fuel (mtries - 1)
                  (mdelay * backoff) s') as [[r s''] evs].
      simpl in *. destruct IH as (Hinv & Hsl & Hle).
      split; [by rewrite Hinv|]. split; [by rewrite <- Hsl|]. lia.
    + destruct (f s) as [r s']. simpl. split_and!; try done; lia.
Qed.

End Runs.

(** X1.  Whatever the wrapped function and [time.sleep] do, a run of the
    decorated function calls the wrapped function once more than the number
    of sleeps that returned, at most [max 1 tries] times, and the sleeps that
    returned are [delay], [delay * backoff], [delay * backoff ^ 2], ... in
    that order. *)
Theorem retry_calls_once_more_than_it_sleeps {St A : Type}
    (ExceptionToCheck : exn -> bool) (tries delay backoff : Z) (logger : bool)
    (sleep : Z -> result unit) (f : St -> result A * St) (s : St) :
  let evs := (f_retry ExceptionToCheck tries delay backoff logger sleep f s).2 in
  invocations evs = S (length (sleeps evs))
  /\ sleeps evs
     = map (fun i => delay * backoff ^ Z.of_nat i) (seq 0 (length (sleeps evs)))
  /\ Z.of_nat (invocations evs) <= Z.max 1 tries.
Proof.
  unfold f_retry.
  destruct (f_retry_loop_shape ExceptionToCheck backoff logger sleep f
              (Z.to_nat tries) tries delay s) as (Hinv & Hsl & Hle).
  split; [done|]. split; [|done].
  rewrite <- RetryFacts.backoff_delays_pow. exact Hsl.
Qed.

(** X2.  An exception that is not of the checked class leaves at the first call:
    no warning, no sleep, no second call, whatever [tries] is. *)
Theorem retry_unchecked_exception_leaves_at_once {St A : Type}
    (ExceptionToCheck : exn -> bool) (tries delay backoff : Z) (logger : bool)
    (sleep : Z -> result unit) (f : St -> result A * St) (s s' : St) (e : exn) :
  f s = (Raise e, s') ->
  ExceptionToCheck e = false ->
  f_retry ExceptionToCheck tries delay backoff logger sleep f s
  = (Raise e, s', [Invoked]).
Proof.
  intros Hf He. unfold f_retry.
  destruct (Z.to_nat tries) as [|fuel]; simpl; rewrite Hf; [done|].
  destruct (1 <? tries); [|done]. by rewrite He.
Qed.

Lemma retry_unchecked_exception_leaves_at_once_witness :
  f_retry (fun e => match exn_kind e with TransportError => false | _ => true end)
    3 2 2 true time_sleep flaky 0%nat
  = (Raise (mkExn TransportError "down"), 1%nat, [Invoked]).
Proof.
  apply (retry_unchecked_exception_leaves_at_once
           (fun e => match exn_kind e with TransportError => false | _ => true end)
           3 2 2 true time_sleep flaky 0%nat 1%nat (mkExn TransportError "down"));
    reflexivity.
Defined.

(** X3.  With [tries] at most one (zero and negative numbers included) the
    wrapped function is still called, exactly once, and its outcome is the
    outcome of the decorated function. *)
Theorem retry_without_tries_calls_once {St A : Type}
    (ExceptionToCheck : exn -> bool) (tries delay backoff : Z) (logger : bool)
    (sleep : Z -> result unit) (f : St -> result A * St) (s : St) :
  tries <= 1 ->
  f_retry ExceptionToCheck tries delay backoff logger sleep f s
  = ((f s).1, (f s).2, [Invoked]).
Proof.
  intros Ht. unfold f_retry.
  destruct (Z.to_nat tries) as [|fuel]; simpl.
  - by destruct (f s).
  - replace (1 <? tries) with false by (symmetry; apply Z.ltb_ge; lia).
    by destruct (f s).
Qed.

Lemma retry_without_tries_calls_once_witness :
  f_retry (fun _ => true) 0 2 2 true time_sleep flaky 0%nat
  = (Raise (mkExn TransportError "down"), 1%nat, [Invoked]).
Proof.
  apply (retry_without_tries_calls_once (fun _ => true) 0 2 2 true time_sleep flaky
           0%nat). lia.
Defined.

End RetryRuns.

(** ** The notification transports *)

Section TransportFacts.
Context {St : Type} (env : Env St).

Lemma occurrences_app p evs1 evs2 :
  occurrences p (evs1 ++ evs2) = (occurrences p evs1 + occurrences p evs2)%nat.
Proof. unfold occurrences. by rewrite List.filter_app, length_app. Qed.

Lemma occurrences_nil p : occurrences p [] = O.
Proof. done. Qed.

Lemma occurrences_cons p ev evs :
  occurrences p (ev :: evs) = ((if p ev then 1 else 0) + occurrences p evs)%nat.
Proof. unfold occurrences. simpl. by destruct (p ev). Qed.

Lemma sends_after_delivery_app evs1 evs2 :
  occurrences accepted evs1 = O ->
  sends_after_delivery (evs1 ++ evs2) = sends_after_delivery evs2.
Proof.
  induction evs1 as [|ev evs1 IH]; [done|]. unfold occurrences. simpl.
  destruct (accepted ev); [done|]. exact IH.
Qed.

Lemma sends_after_delivery_quiet evs1 evs2 :
  occurrences gmail_send evs2 = O -> occurrences smtp_send evs2 = O ->
  sends_after_delivery (evs1 ++ evs2) = sends_after_delivery evs1.
Proof.
  intros Hg Hs. induction evs1 as [|ev evs1 IH]; simpl.
  - induction evs2 as [|ev evs2 IH]; [done|]. simpl.
    unfold occurrences in *. simpl in *.
    destruct ev; simpl in *; try discriminate; auto.
  - destruct (accepted ev); [|done]. rewrite !occurrences_app. lia.
Qed.

Lemma send_error_email_attempt_one subject body config w :
  transport_use 0 (send_error_email_attempt env subject body config w).
Proof.
  unfold transport_use, send_error_email_attempt, send_gmail, bind, attempt, lift, ret,
    raise, emit, call.
  repeat (case_match; simplify_eq; simpl in * );
    unfold occurrences; simpl; split_and!; try done; try lia.
Qed.

Lemma tenacity_retry_transport_use {A : Type} (body : M St A) :
  (forall w, transport_use 0 (body w)) ->
  forall retries w, transport_use retries (tenacity_retry retries body w).
Proof.
  intros Hbody. induction retries as [|retries IH]; intros w; simpl;
    unfold bind, attempt, ret, raise, emit; specialize (Hbody w);
    destruct (body w) as [[[b|e] w1] evs1]; simpl;
    destruct Hbody as (Hg & Hs & Hw & Hq & Hr); simpl in *.
  - rewrite app_nil_r. unfold transport_use. simpl. split_and!; try done; lia.
  - unfold transport_use. simpl. rewrite app_nil_r. split_and!; try done; lia.
  - rewrite app_nil_r. unfold transport_use. simpl. split_and!; try done; lia.
  - specialize (IH w1).
    destruct (tenacity_retry retries body w1) as [[r2 w2] evs2].
    destruct IH as (Hg2 & Hs2 & Hw2 & Hq2 & Hr2). simpl in *.
    specialize (Hr eq_refl).
    unfold transport_use. simpl.
    rewrite !occurrences_app, sends_after_delivery_app, !occurrences_cons by done.
    simpl. split_and!; try lia.
    intros Hno. specialize (Hr2 Hno). lia.
Qed.

Lemma send_error_email_transport_use subject body config w :
  transport_use 2 (send_error_email env subject body config w)
  /\ (send_error_email env subject body config w).1.1 = Ok tt.
Proof.
  unfold send_error_email, _send_error_email_with_retry, bind, attempt, ret, emit.
  pose proof (tenacity_retry_transport_use _
                (fun w => send_error_email_attempt_one subject body config w) 2 w) as H.
  destruct (tenacity_retry 2 (send_error_email_attempt env subject body config) w)
    as [[[u|e] w1] evs1]; destruct H as (Hg & Hs & Hw & Hq & Hr); simpl in *.
  - rewrite app_nil_r. split; [by unfold transport_use|by destruct u].
  - split; [|done]. unfold transport_use. simpl.
    rewrite !occurrences_app, sends_after_delivery_quiet, !occurrences_cons,
      !occurrences_nil by done.
    simpl. split_and!; try done; lia.
Qed.

End TransportFacts.


(** X4.  [send_error_email] returns for every configuration and every behaviour
    of the transports, a configuration without [email] section included: a
    transport has accepted the message, or the failure of all attempts has
    been logged. *)
Theorem send_error_email_swallows_every_failure {St : Type} (env : Env St)
    (subject body : string) (config : yaml) (w : world St) :
  let x := send_error_email env subject body config w in
  x.1.1 = Ok tt
  /\ same_process w x.1.2
  /\ (delivered x.2
      \/ last x.2 = Some (Log ERROR "All attempts to send error email failed: {e}")).
Proof.
  destruct (send_error_email_safe env subject body config w) as [_ HR].
  revert HR. unfold send_error_email, bind, attempt, ret, emit.
  destruct (_send_error_email_with_retry env subject body config w)
    as [[[u|e] w1] evs1] eqn:Hr; simpl; intros HR.
  - split; [by destruct u|]. split; [done|]. left. apply delivered_app_l.
    eapply tenacity_retry_delivers; [|exact Hr].
    apply send_error_email_attempt_delivers.
  - split; [done|]. split; [done|]. right. by rewrite last_snoc.
Qed.

(** X5.  One call of [send_error_email] tries each transport at most three
    times, waits at most twice, and sends nothing more once a transport has
    accepted the message. *)
Theorem error_email_attempts_are_bounded {St : Type} (env : Env St)
    (subject body : string) (config : yaml) (w : world St) :
  let evs := (send_error_email env subject body config w).2 in
  (occurrences gmail_send evs <= 3)%nat
  /\ (occurrences smtp_send evs <= 3)%nat
  /\ (occurrences tenacity_wait evs <= 2)%nat
  /\ sends_after_delivery evs = O.
Proof.
  destruct (send_error_email_transport_use env subject body config w)
    as [(Hg & Hs & Hw & Hq & _) _].
  done.
Qed.

Section ProviderFacts.
Context {St : Type} (env : Env St).

Lemma tenacity_retry_keeps {A : Type} (P : event -> Prop) retries (body : M St A) :
  P (Log WARNING "Retrying after exception") -> P TenacityWait ->
  safe P same_process body ->
  safe P same_process (tenacity_retry retries body).
Proof.
  intros Hlog Hwait Hbody.
  induction retries as [|retries IH]; simpl;
    repeat first
      [ done
      | apply safe_emit; [apply same_process_refl | assumption]
      | safe_step ].
Qed.

Lemma safe_bind_lift_ok {A B : Type} (P : event -> Prop)
    (R : world St -> world St -> Prop) (a : A) (k : A -> M St B) :
  safe P R (k a) -> safe P R (bind (lift (Ok a)) k).
Proof.
  intros H w. specialize (H w). unfold bind, lift.
  by destruct (k a w) as [[r w2] evs2].
Qed.

Lemma send_error_email_smtp_only subject body config p :
  email_provider config = Ok p -> p <> "gmail" ->
  safe not_gmail same_process (send_error_email env subject body config).
Proof.
  intros Hp Hneq. unfold send_error_email, _send_error_email_with_retry.
  safe_step; [|repeat safe_step].
  safe_step. apply tenacity_retry_keeps; [done|done|].
  unfold send_error_email_attempt. rewrite Hp. apply safe_bind_lift_ok.
  replace (String.eqb p "gmail") with false
    by (symmetry; by apply String.eqb_neq).
  repeat safe_step.
Qed.

End ProviderFacts.

(** X6.  With [gmail] as provider, [send_error] and [send_confirmation] make one
    attempt through the Gmail API and leave it at that: no second attempt,
    no wait, and no fallback to SMTP when it fails. *)
Theorem gmail_provider_has_no_fallback {St : Type} (env : Env St)
    (subject body : string) (config : yaml) (w : world St) :
  email_provider config = Ok "gmail" ->
  let quiet (evs : list event) :=
    (occurrences gmail_send evs <= 1)%nat
    /\ occurrences smtp_send evs = O
    /\ occurrences tenacity_wait evs = O in
  quiet (send_error env subject body config w).2
  /\ quiet (send_confirmation env subject body config w).2.
Proof.
  intros Hp. cbv zeta.
  split; unfold send_error, send_confirmation, send_gmail, bind, attempt, lift, ret,
    emit, call; rewrite Hp; simpl String.eqb; cbv iota;
    repeat (case_match; simplify_eq; simpl in * );
    unfold occurrences; simpl; split_and!; try done; lia.
Qed.

Lemma gmail_provider_has_no_fallback_witness :
  (send_error calm_env "s" "b" (demo_config "Gmail") demo_world).2
  = [SendError "s" "b"; GmailService true; GmailSend "s" "b" true;
     Log INFO "Error email sent via Gmail API."]
  /\ occurrences smtp_send (send_error calm_env "s" "b" (demo_config "Gmail") demo_world).2
     = O.
Proof.
  split; [reflexivity|].
  apply (gmail_provider_has_no_fallback calm_env "s" "b" (demo_config "Gmail") demo_world).
  reflexivity.
Defined.

(** X7.  With any other provider, [send_error] and [send_confirmation] never
    touch the Gmail API: the message goes by SMTP, tried at most three
    times with at most two waits. *)
Theorem other_provider_uses_smtp_only {St : Type} (env : Env St)
    (subject body : string) (config : yaml) (w : world St) (p : string) :
  email_provider config = Ok p ->
  p <> "gmail" ->
  let smtp_only (evs : list event) :=
    Forall not_gmail evs
    /\ (occurrences smtp_send evs <= 3)%nat
    /\ (occurrences tenacity_wait evs <= 2)%nat in
  smtp_only (send_error env subject body config w).2
  /\ smtp_only (send_confirmation env subject body config w).2.
Proof.
  intros Hp Hneq. cbv zeta.
  destruct (send_error_email_smtp_only env subject body config p Hp Hneq w) as [Hev _].
  destruct (send_error_email_transport_use env subject body config w)
    as [(_ & Hs & Hw & _) _].
  split; unfold send_error, send_confirmation, bind, emit, lift; rewrite Hp;
    replace (String.eqb p "gmail") with false
      by (symmetry; by apply String.eqb_neq);
    destruct (send_error_email env subject body config w) as [[r w1] evs];
    simpl in *; rewrite !occurrences_cons; simpl; (split; [by constructor|done]).
Qed.

Lemma other_provider_uses_smtp_only_witness :
  Forall not_gmail (send_error calm_env "s" "b" (demo_config "smtp") demo_world).2.
Proof.
  apply (other_provider_uses_smtp_only calm_env "s" "b" (demo_config "smtp") demo_world
           "smtp"); [reflexivity|discriminate].
Defined.

(** ** The sheet: the column read and the column written *)

Section SheetFacts.
Import ExcelMonitor.

Lemma header_index_Some (name : string) (header : list scalar) (c : nat) :
  header_index name header = Some c ->
  header !! c = Some (SStr name) /\ ~ In (SStr name) (take c header).
Proof.
  revert c. induction header as [|x header IH]; intros c; simpl; [done|].
  assert (Hrec : option_map S (header_index name header) = Some c ->
                 x <> SStr name ->
                 (x :: header) !! c = Some (SStr name)
                 /\ ~ In (SStr name) (take c (x :: header))).
  { destruct (header_index name header) as [c'|]; [|done]. simpl.
    intros [= <-] Hx. destruct (IH c' eq_refl) as [Hget Hpre].
    split; [done|]. simpl. intros [?|?]; tauto. }
  destruct x as [| | |s]; try (intros H; by apply Hrec).
  destruct (String.eqb s name) eqn:Hs.
  - apply String.eqb_eq in Hs as ->. intros [= <-]. simpl. tauto.
  - apply String.eqb_neq in Hs. intros H. apply Hrec; [done|]. by intros [= ?].
Qed.

Lemma header_index_None (name : string) (header : list scalar) :
  header_index name header = None <-> ~ In (SStr name) header.
Proof.
  split.
  - induction header as [|c header IH]; simpl; [tauto|].
    destruct (header_index name header) as [n|] eqn:Hn.
    + destruct c as [|b|z|s]; try discriminate. by destruct (String.eqb s name).
    + destruct c as [|b|z|s]; try (intros _ [?|?]; [discriminate|tauto]).
      destruct (String.eqb s name) eqn:Hs; [discriminate|].
      apply String.eqb_neq in Hs. intros _ [[= ?]|?]; [done|tauto].
  - destruct (header_index name header) as [n|] eqn:Hn; [|done].
    apply header_index_Some in Hn as [Hget _]. intros Hno. exfalso. apply Hno.
    apply list_elem_of_In. by eapply list_elem_of_lookup_2.
Qed.

Lemma row_get_no_key (r : row) (key : string) (acc : scalar) :
  ~ In (SStr key) (map fst r) ->
  fold_left
    (fun acc kv =>
       match fst kv with
       | SStr k => if String.eqb k key then snd kv else acc
       | _ => acc
       end) r acc
  = acc.
Proof.
  revert acc. induction r as [|[k v] r IH]; intros acc Hno; [done|]. simpl in *.
  rewrite IH by tauto.
  destruct k as [| | |k]; try done.
  destruct (String.eqb k key) eqn:Hk; [|done].
  apply String.eqb_eq in Hk as ->. tauto.
Qed.

Lemma combine_keys_in (header : list scalar) (r : list scalar) (k : scalar) :
  In k (map fst (combine header r)) -> In k header.
Proof.
  revert r. induction header as [|x header IH]; intros [|y r]; simpl; try tauto.
  intros [?|?]; [tauto|right; eauto].
Qed.

Lemma combine_append {A B : Type} (l1 l2 : list A) (k1 k2 : list B) :
  length l1 = length k1 ->
  combine (l1 ++ l2) (k1 ++ k2) = combine l1 k1 ++ combine l2 k2.
Proof.
  revert k1. induction l1 as [|x l1 IH]; intros [|y k1] Hlen; simpl in *; try done.
  f_equal. apply IH. lia.
Qed.

(** The value that [row.get(name)] finds in [dict(zip(header, row))] is the
    cell below the column that [header.index(name)] finds, as long as no
    later column bears the same name. *)
Lemma row_get_header_index (name : string) (header r : list scalar) (c : nat)
    (v : scalar) :
  header_index name header = Some c ->
  header_index name (drop (S c) header) = None ->
  r !! c = Some v ->
  row_get (combine header r) name = v.
Proof.
  intros Hc Hlater Hv.
  apply header_index_Some in Hc as [Hget _].
  apply header_index_None in Hlater.
  rewrite <- (take_drop_middle header c (SStr name)) by done.
  rewrite <- (take_drop_middle r c v) by done.
  unfold row_get.
  assert (Hlen : length (take c header) = length (take c r)).
  { rewrite !length_take. apply lookup_lt_Some in Hget, Hv. lia. }
  rewrite combine_append by done. rewrite fold_left_app. simpl.
  rewrite String.eqb_refl. apply row_get_no_key.
  intros Hin. apply combine_keys_in in Hin. done.
Qed.

End SheetFacts.

(** X8.  Once the cell of a data row in the column that [mark_row_processed]
    addresses (the first one named [processed]) holds ["x"],
    [get_excel_rows] no longer returns that row, and returns the other rows
    as before; this needs that no later column is named [processed] as
    well. *)
Theorem marked_row_is_no_longer_fetched (header : list scalar)
    (data : list (list scalar)) (p c : nat) (r : list scalar) :
  ExcelMonitor.header_index "processed" header = Some c ->
  ExcelMonitor.header_index "processed" (drop (S c) header) = None ->
  data !! p = Some r ->
  (c < length r)%nat ->
  ExcelMonitor.rows_of_values (header :: <[p := <[c := SStr "x"]> r]> data)
  = ExcelMonitor.rows_of_values (header :: delete p data).
Proof.
  intros Hc Hlater Hp Hlen.
  assert (Hmarked :
    ExcelMonitor.unprocessed (combine header (<[c := SStr "x"]> r)) = false).
  { unfold ExcelMonitor.unprocessed.
    rewrite (row_get_header_index "processed" header _ c (SStr "x")); try done.
    apply list_lookup_insert_eq. done. }
  assert (Hfilter :
    List.filter ExcelMonitor.unprocessed
      (map (fun r => combine header r) (<[p := <[c := SStr "x"]> r]> data))
    = List.filter ExcelMonitor.unprocessed
        (map (fun r => combine header r) (delete p data))).
  { clear Hc Hlater Hlen. revert p Hp.
    induction data as [|r0 data IH]; intros [|p] Hp; simpl in *; try done.
    - injection Hp as ->. by rewrite Hmarked.
    - by rewrite (IH p Hp). }
  unfold ExcelMonitor.rows_of_values.
  destruct data as [|r0 data]; [done|].
  destruct p as [|p].
  - simpl in Hfilter. simpl. rewrite Hfilter.
    destruct data as [|r1 data]; [done|]. done.
  - destruct data as [|r1 data]; [done|]. exact Hfilter.
Qed.

Lemma marked_row_is_no_longer_fetched_witness :
  ExcelMonitor.rows_of_values
    [demo_header; demo_row "ML" "Nurses" ""; demo_row "AI" "Doctors" "x"]
  = ExcelMonitor.rows_of_values [demo_header; demo_row "ML" "Nurses" ""].
Proof.
  apply (marked_row_is_no_longer_fetched demo_header
           [demo_row "ML" "Nurses" ""; demo_row "AI" "Doctors" ""] 1 4
           (demo_row "AI" "Doctors" ""));
    [reflexivity|reflexivity|reflexivity|simpl; lia].
Defined.

(** With two columns named [processed] the mark goes to the first and the
    filter reads the last: the marked row is fetched again. *)
Example duplicate_processed_column_defeats_the_mark :
  ExcelMonitor.header_index "processed" twice_processed_header = Some 0%nat
  /\ ExcelMonitor.rows_of_values
       [twice_processed_header; SStr "x" :: demo_row "AI" "Doctors" ""]
     = [combine twice_processed_header (SStr "x" :: demo_row "AI" "Doctors" "")].
Proof. split; reflexivity. Qed.

(** X9.  [write_instagram_post], [write_linkedin_post] and [mark_row_processed]
    on a sheet that can be read: without a header row the call raises
    [IndexError], without the column it raises ["No '...' column found in
    sheet header."], in both cases before any cell is written; otherwise
    exactly one cell is patched, in the first column of that name and in row
    [row_index + 2], and the call returns or raises as that request does. *)
Theorem write_needs_its_column {St : Type} (env : Env St) (column : string)
    (row_index : nat) (value : string) (w : world St) (token : scalar) (s1 s2 : St)
    (values : list (list scalar)) :
  get_access_token env (outside w) = (Ok token, s1) ->
  graph_get_used_range env s1 = (Ok values, s2) ->
  let w2 := mkWorld s2 (seen_ids w) (day_jobs w) (scheduled w) in
  let read := [TokenRequest true; UsedRangeGet true] in
  ExcelMonitor.patch_column env column row_index value w
  = match values with
    | [] => (Raise (mkExn IndexError "list index out of range"), w2, read)
    | header :: _ =>
        match ExcelMonitor.header_index column header with
        | None =>
            (Raise (mkExn OtherError
                      ("No '" +:+ column +:+ "' column found in sheet header.")),
             w2, read)
        | Some c =>
            let address := mkAddress (65 + c) (row_index + 2) in
            let '(r, s3) := graph_patch_range env address value s2 in
            (r, mkWorld s3 (seen_ids w) (day_jobs w) (scheduled w),
             read ++ [RangePatch address value (is_ok r)])
        end
    end.
Proof.
  intros Htoken Hrange. cbv zeta.
  unfold ExcelMonitor.patch_column, bind, call, lift. rewrite Htoken. simpl.
  rewrite Hrange. simpl.
  destruct values as [|header rest]; [done|].
  destruct (ExcelMonitor.header_index column header) as [c|]; [|done].
  unfold ExcelMonitor.cell_of. simpl.
  replace (row_index + 1 + 1)%nat with (row_index + 2)%nat by lia.
  by destruct (graph_patch_range env _ value s2) as [r s3].
Qed.

Lemma write_needs_its_column_witness :
  ExcelMonitor.mark_row_processed calm_env 0 demo_world
  = (Ok tt, demo_world,
     [TokenRequest true; UsedRangeGet true; RangePatch (mkAddress 69 2) "x" true])
  /\ ExcelMonitor.patch_column calm_env "Twitter" 0 "text" demo_world
     = (Raise (mkExn OtherError "No 'Twitter' column found in sheet header."),
        demo_world, [TokenRequest true; UsedRangeGet true]).
Proof.
  split.
  - apply (write_needs_its_column calm_env "processed" 0 "x" demo_world
             (SStr "token") tt tt one_row_sheet eq_refl eq_refl).
  - apply (write_needs_its_column calm_env "Twitter" 0 "text" demo_world
             (SStr "token") tt tt one_row_sheet eq_refl eq_refl).
Defined.

(** ** The order of the image pipeline *)

Section History.
Context {St : Type}.
Implicit Types (h : list event) (w : world St).

Lemma wp_ret {A : Type} (a : A) (Q : result A -> list event -> world St -> Prop) h w :
  Q (Ok a) h w -> wp (ret a) Q h w.
Proof. done. Qed.

Lemma wp_raise {A : Type} (e : exn) (Q : result A -> list event -> world St -> Prop) h w :
  Q (Raise e) h w -> wp (raise e) Q h w.
Proof. done. Qed.

Lemma wp_lift {A : Type} (r : result A) (Q : result A -> list event -> world St -> Prop)
    h w :
  Q r h w -> wp (lift r) Q h w.
Proof. done. Qed.

Lemma wp_emit (ev : event) (Q : result unit -> list event -> world St -> Prop) h w :
  Q (Ok tt) (ev :: h) w -> wp (emit ev) Q h w.
Proof. done. Qed.

Lemma wp_call {A : Type} (o : St -> result A * St) (ev : result A -> event)
    (Q : result A -> list event -> world St -> Prop) h w :
  (forall r s, o (outside w) = (r, s) ->
               Q r (ev r :: h) (mkWorld s (seen_ids w) (day_jobs w) (scheduled w))) ->
  wp (call o ev) Q h w.
Proof.
  intros H. unfold wp, call. destruct (o (outside w)) as [r s] eqn:Ho. simpl. eauto.
Qed.

Lemma wp_bind {A B : Type} (m : M St A) (k : A -> M St B)
    (Q : result B -> list event -> world St -> Prop) h w :
  wp m (fun r h' w' =>
          match r with
          | Ok a => wp (k a) Q h' w'
          | Raise e => Q (Raise e) h' w'
          end) h w ->
  wp (bind m k) Q h w.
Proof.
  unfold wp, bind. destruct (m w) as [[[a|e] w1] evs1]; simpl; [|done].
  destruct (k a w1) as [[r w2] evs2]. simpl. by rewrite rev_app_distr, <- app_assoc.
Qed.

Lemma wp_attempt {A : Type} (m : M St A)
    (Q : result (result A) -> list event -> world St -> Prop) h w :
  wp m (fun r => Q (Ok r)) h w -> wp (attempt m) Q h w.
Proof. unfold wp, attempt. by destruct (m w) as [[r w1] evs]. Qed.

Lemma wp_traced {A : Type} (ev : bool -> event) (m : M St A)
    (Q : result A -> list event -> world St -> Prop) h w :
  wp m (fun r h' w' => Q r (ev (is_ok r) :: h') w') h w -> wp (traced ev m) Q h w.
Proof.
  unfold wp, traced. destruct (m w) as [[r w1] evs]. simpl.
  by rewrite rev_app_distr.
Qed.

Lemma wp_mono {A : Type} (m : M St A)
    (Q1 Q2 : result A -> list event -> world St -> Prop) h w :
  wp m Q1 h w -> (forall r h' w', Q1 r h' w' -> Q2 r h' w') -> wp m Q2 h w.
Proof. unfold wp. eauto. Qed.

(** A computation known only by what its events are and how it changes the
    state. *)
Lemma wp_safe {A : Type} (P : event -> Prop) (R : world St -> world St -> Prop)
    (m : M St A) (Q : result A -> list event -> world St -> Prop) h w :
  safe P R m ->
  (forall r evs w', Forall P evs -> R w w' -> Q r (evs ++ h) w') ->
  wp m Q h w.
Proof.
  intros Hm HQ. destruct (Hm w) as [Hev HR]. unfold wp. apply HQ; [|done].
  by apply Forall_rev.
Qed.

Lemma wp_seen_ids_add (id : string)
    (Q : result unit -> list event -> world St -> Prop) h w :
  Q (Ok tt) h (mkWorld (outside w) ({[id]} ∪ seen_ids w) (day_jobs w) (scheduled w)) ->
  wp (seen_ids_add id) Q h w.
Proof. done. Qed.

Lemma wp_get_seen_ids (Q : result (gset string) -> list event -> world St -> Prop) h w :
  Q (Ok (seen_ids w)) h w -> wp get_seen_ids Q h w.
Proof. done. Qed.

Section Order.
Variable needs : list event -> event -> bool.

Lemma settled_free h evs :
  Forall (fun ev => forall h', needs h' ev = true) evs ->
  settled needs (evs ++ h) = settled needs h.
Proof.
  intros Hfree. induction Hfree as [|ev evs Hev _ IH]; simpl; [done|].
  by rewrite Hev, IH.
Qed.

Lemma settled_split h h2 ev h1 :
  settled needs h = true -> h = h2 ++ ev :: h1 -> needs h1 ev = true.
Proof.
  intros H ->. induction h2 as [|ev2 h2 IH]; simpl in H.
  - by apply andb_prop in H as [H _].
  - apply andb_prop in H as [_ H]. eauto.
Qed.

End Order.

End History.

Lemma send_confirmation_entry {St : Type} (env : Env St) subject body config
    (w : world St) :
  exists evs,
    (send_confirmation env subject body config w).2 = SendConfirmation subject body :: evs
    /\ Forall transport_event evs
    /\ same_process w (send_confirmation env subject body config w).1.2.
Proof.
  unfold send_confirmation, bind, emit, lift.
  destruct (email_provider config) as [p|e]; simpl;
    [|exists []; split; [done|]; split; [constructor|apply same_process_refl]].
  destruct (String.eqb p "gmail").
  - destruct (send_gmail_safe env subject body config w) as [Hev HR].
    unfold attempt.
    destruct (send_gmail env subject body config w) as [[[u|e] w1] evs1]; simpl in *;
      eexists; (split; [reflexivity|]); (split; [|done]);
      rewrite ?app_nil_r, ?Forall_app; repeat split; try done; by repeat constructor.
  - destruct (send_error_email_safe env subject body config w) as [Hev HR].
    destruct (send_error_email env subject body config w) as [[r w1] evs1]; simpl in *.
    eauto.
Qed.

Lemma wp_send_confirmation {St : Type} (env : Env St) subject body config
    (Q : result unit -> list event -> world St -> Prop) h (w : world St) :
  (forall r evs w', Forall transport_event evs -> same_process w w' ->
                    Q r (evs ++ SendConfirmation subject body :: h) w') ->
  wp (send_confirmation env subject body config) Q h w.
Proof.
  intros HQ. destruct (send_confirmation_entry env subject body config w)
    as (evs & Heq & Hev & HR).
  unfold wp. rewrite Heq. simpl. rewrite <- app_assoc. apply HQ; [|done].
  by apply Forall_rev.
Qed.

Lemma send_error_failure_safe {St : Type} (env : Env St) subject body config :
  safe failure_event same_process (send_error env subject body config).
Proof.
  unfold send_error.
  repeat first
    [ apply (safe_weaken transport_event failure_event);
      [ by intros [] | first [apply send_gmail_safe | apply send_error_email_safe] ]
    | safe_step ].
Qed.

(** One step of a run, in the order of the program. *)
Ltac wp_step :=
  lazymatch goal with
  | |- wp (bind _ _) _ _ _ => apply wp_bind
  | |- wp (ret _) _ _ _ => apply wp_ret
  | |- wp (raise _) _ _ _ => apply wp_raise
  | |- wp (lift ?r) _ _ _ => apply wp_lift; destruct r eqn:?
  | |- wp (emit _) _ _ _ => apply wp_emit
  | |- wp (call _ _) _ _ _ => apply wp_call; intros [?|?] ? _
  | |- wp (attempt _) _ _ _ => apply wp_attempt
  | |- wp (traced _ _) _ _ _ => apply wp_traced
  | |- wp (seen_ids_add _) _ _ _ => apply wp_seen_ids_add
  | |- wp (send_error _ _ _ _) _ _ _ =>
      apply (wp_safe failure_event same_process);
      [apply send_error_failure_safe | intros ? ? ? ? _]
  | |- wp (send_confirmation _ _ _ _) _ _ _ =>
      apply wp_send_confirmation; intros ? ? ? ? _
  | |- wp (match ?x with _ => _ end) _ _ _ => destruct x eqn:?
  | |- match ?x with _ => _ end => destruct x eqn:?
  end; cbn beta iota.

Lemma item_eqb_refl (it : item) : item_eqb it it = true.
Proof. unfold item_eqb. by rewrite !String.eqb_refl. Qed.

(** The segments of a history that are known only by the kind of their
    events need nothing. *)
Ltac settled_opaque :=
  repeat match goal with
  | H : Forall _ ?evs |- context [settled ?n (?evs ++ ?h)] =>
      rewrite (settled_free n h evs)
        by (eapply Forall_impl; [exact H | intros [] ? ?; done])
  end.

Section ImageOrder.
Context {St : Type} (env : Env St) (config : yaml).

Lemma process_image_settled seen_supplied template it w :
  settled image_needs (rev (process_image env config seen_supplied template it w).2)
  = true.
Proof.
  rewrite <- (app_nil_r (rev _)).
  change (wp (process_image env config seen_supplied template it)
            (fun _ h _ => settled image_needs h = true) [] w).
  unfold process_image, image_guard, caption_stages, upload_stages, publish_stages,
    move_onedrive_file_to_processed.
  repeat wp_step.
  all: repeat (simpl settled; settled_opaque).
  all: repeat match goal with
       | H : no_url ?u = false |- _ => destruct u; simpl in H; [|discriminate]
       | H : negb ?b = false |- _ => destruct b; [clear H|discriminate]
       end; unfold nonempty; simpl;
       repeat match goal with H : String.eqb _ _ = false |- _ => rewrite H end;
       rewrite ?String.eqb_refl, ?item_eqb_refl; simpl; done.
Qed.

End ImageOrder.

Lemma settled_before (needs : list event -> event -> bool)
    (evs evs1 evs2 : list event) (ev : event) :
  settled needs (rev evs) = true -> evs = evs1 ++ ev :: evs2 ->
  needs (rev evs1) ev = true.
Proof.
  intros H ->. eapply settled_split; [exact H|].
  rewrite rev_app_distr. simpl. by rewrite <- app_assoc.
Qed.

Lemma existsb_rev_In (p : event -> bool) (l : list event) :
  existsb p (rev l) = true -> exists ev, In ev l /\ p ev = true.
Proof.
  intros (ev & Hin & Hp)%existsb_exists. exists ev. by rewrite in_rev.
Qed.

Lemma item_eqb_eq (a b : item) : item_eqb a b = true -> a = b.
Proof.
  destruct a, b. unfold item_eqb. simpl.
  intros [->%String.eqb_eq ->%String.eqb_eq]%andb_prop. done.
Qed.

(** What an [existsb] over the earlier events has found. *)
Ltac found H :=
  let e := fresh "e" in
  let Hin := fresh "Hin" in
  apply existsb_rev_In in H as (e & Hin & H);
  destruct e; try discriminate H;
  repeat (case_match; try discriminate);
  repeat match goal with
  | H' : String.eqb _ _ = true |- _ => apply String.eqb_eq in H'
  | H' : item_eqb _ _ = true |- _ => apply item_eqb_eq in H'
  end;
  simplify_eq.

(** X10.  For one image: a file is uploaded only after the download returned, its
    metadata was read and a caption was rendered from it, and what is
    posted is a non-empty URL that the upload returned.  An image whose
    download, metadata, caption or upload failed is never posted. *)
Theorem publish_needs_every_earlier_stage {St : Type} (env : Env St) (config : yaml)
    (seen_supplied : bool) (template : yaml) (it : item) (w : world St)
    (evs1 evs2 : list event) (ev : event) :
  (process_image env config seen_supplied template it w).2 = evs1 ++ ev :: evs2 ->
  (forall path u ok, ev = Upload path u ok ->
     In (MetadataRead path true) evs1
     /\ In (CaptionRendered true) evs1
     /\ exists i, In (Download i true) evs1)
  /\ (forall url caption r, ev = Post url caption r ->
        url <> ""
        /\ exists path, In (Upload path (Some url) true) evs1).
Proof.
  intros Hsplit.
  pose proof (process_image_settled env config seen_supplied template it w) as Hall.
  pose proof (settled_before _ _ _ _ _ Hall Hsplit) as Hev.
  split.
  - intros path u ok ->. simpl in Hev.
    apply andb_prop in Hev as [Hmeta Hcap]. found Hmeta. found Hcap.
    split; [done|]. split; [done|].
    apply in_split in Hin as (a & b & Ha).
    assert (Hdown : image_needs (rev a) (MetadataRead path true) = true).
    { eapply (settled_before image_needs); [exact Hall|].
      rewrite Hsplit, Ha, <- app_assoc. reflexivity. }
    simpl in Hdown. found Hdown.
    eexists. rewrite in_app_iff. left. eassumption.
  - intros url caption r ->. simpl in Hev.
    apply andb_prop in Hev as [Hurl Hup].
    split; [intros ->; discriminate|].
    found Hup. eauto.
Qed.

Lemma publish_needs_every_earlier_stage_witness :
  let evs := (process_image calm_env (demo_config "gmail") true
                (YScalar (SStr "{title}")) test_item demo_world).2 in
  "https://bucket.s3.region.amazonaws.com/test.jpg" <> ""
  /\ exists path,
       In (Upload path (Some "https://bucket.s3.region.amazonaws.com/test.jpg") true)
          (take 11 evs).
Proof.
  intros evs.
  exact (proj2 (publish_needs_every_earlier_stage calm_env (demo_config "gmail") true
                  (YScalar (SStr "{title}")) test_item demo_world
                  (take 11 evs) (drop 12 evs)
                  (Post "https://bucket.s3.region.amazonaws.com/test.jpg"
                     "Test caption" (Some true))
                  eq_refl)
           _ _ _ eq_refl).
Defined.

(** X11.  For one image: the move to the processed folder is requested only for
    the item that was downloaded and only after a post that returned
    [True]; the local file is removed only after the move call returned;
    the confirmation is sent only after the removal returned. *)
Theorem archive_cleanup_confirmation_order {St : Type} (env : Env St) (config : yaml)
    (seen_supplied : bool) (template : yaml) (it : item) (w : world St)
    (evs1 evs2 : list event) (ev : event) :
  (process_image env config seen_supplied template it w).2 = evs1 ++ ev :: evs2 ->
  (forall i status, ev = MoveRequest i status ->
     In (Download i true) evs1
     /\ exists url caption, In (Post url caption (Some true)) evs1)
  /\ (forall path ok, ev = Remove path ok ->
        exists i, In (MoveToProcessed i true) evs1)
  /\ (forall subject body, ev = SendConfirmation subject body ->
        exists path, In (Remove path true) evs1).
Proof.
  intros Hsplit.
  pose proof (process_image_settled env config seen_supplied template it w) as Hall.
  pose proof (settled_before _ _ _ _ _ Hall Hsplit) as Hev.
  split; [|split].
  - intros i status ->. simpl in Hev.
    apply andb_prop in Hev as [Hpost Hdown]. found Hpost. found Hdown. eauto.
  - intros path ok ->. simpl in Hev.
    apply andb_prop in Hev as [Hmove _]. found Hmove. eauto.
  - intros subject body ->. simpl in Hev. found Hev. eauto.
Qed.

Lemma archive_cleanup_confirmation_order_witness :
  let evs := (process_image calm_env (demo_config "gmail") true
                (YScalar (SStr "{title}")) test_item demo_world).2 in
  exists i, In (MoveToProcessed i true) (take 18 evs).
Proof.
  intros evs.
  exact (proj1 (proj2 (archive_cleanup_confirmation_order calm_env
                         (demo_config "gmail") true (YScalar (SStr "{title}"))
                         test_item demo_world (take 18 evs) (drop 19 evs)
                         (Remove "downloads/test.jpg" true) eq_refl))
           _ _ eq_refl).
Defined.

(** ** The order of the sheet workflow *)

Lemma wp_invariant {St A : Type} (P : event -> Prop)
    (Inv : list event -> Prop) (m : M St A) h (w : world St) :
  safe P same_process m ->
  (forall evs h', Forall P evs -> Inv h' -> Inv (evs ++ h')) ->
  Inv h ->
  wp m (fun _ h' _ => Inv h') h w.
Proof. intros Hm Hpre Hh. apply (wp_safe P same_process); eauto. Qed.

Lemma settled_quiet (needs : list event -> event -> bool) (P : event -> Prop) :
  (forall ev, P ev -> forall h, needs h ev = true) ->
  forall evs h, Forall P evs -> settled needs h = true -> settled needs (evs ++ h) = true.
Proof.
  intros Hfree evs h Hevs Hh. rewrite settled_free; [done|].
  eapply Forall_impl; [exact Hevs|]. auto.
Qed.

Ltac sheet_step :=
  lazymatch goal with
  | |- wp (ExcelMonitor.patch_column _ _ ?idx _) _ _ _ =>
      apply (wp_safe (patch_event idx) same_process);
      [apply patch_column_events | intros ? ? ? ? _]
  | |- _ => wp_step
  end; cbn beta iota.

Ltac sheet_done :=
  repeat (simpl settled; settled_opaque);
  repeat match goal with
  | H : andb _ _ = true |- _ => apply andb_prop in H as [? ?]
  end;
  repeat (rewrite ?existsb_app; simpl;
          repeat match goal with H : _ = true |- _ => rewrite H end;
          rewrite ?Nat.eqb_refl, ?orb_true_r; simpl);
  try done.

Ltac safe_quiet :=
  repeat first
    [ apply (safe_weaken failure_event sheet_quiet);
      [ by intros [] | apply send_error_failure_safe ]
    | eapply (safe_weaken (patch_event _) sheet_quiet);
      [ by intros [] | apply patch_column_events ]
    | safe_step ].

Section SheetOrder.
Context {St : Type} (env : Env St) (config : yaml).

Lemma write_stages_settled idx content target_group news caption h w :
  settled sheet_needs h = true ->
  wp (write_stages env config idx content target_group news caption)
    (fun _ h' _ => settled sheet_needs h' = true) h w.
Proof.
  intros Hh.
  unfold write_stages, linkedin_stage, completion_stage,
    ExcelMonitor.write_instagram_post, ExcelMonitor.write_linkedin_post,
    ExcelMonitor.mark_row_processed.
  repeat sheet_step.
  all: sheet_done.
Qed.

Lemma process_row_settled idx r h w :
  settled sheet_needs h = true ->
  wp (process_row env config idx r) (fun _ h' _ => settled sheet_needs h' = true) h w.
Proof.
  intros Hh. unfold process_row, row_guard.
  sheet_step. sheet_step. sheet_step. sheet_step.
  apply (wp_mono _ (fun _ h' _ => settled sheet_needs h' = true)).
  - sheet_step; [by sheet_step|].
    sheet_step. sheet_step. sheet_step.
    apply (wp_mono _ (fun _ h' _ => settled sheet_needs h' = true)).
    { apply (wp_invariant sheet_quiet); [unfold news_stage; safe_quiet| |done].
      apply settled_quiet. by intros []. }
    intros [news|e] h1 w1 Hh1; [|done].
    unfold stages_after_news. sheet_step.
    apply (wp_mono _ (fun _ h' _ => settled sheet_needs h' = true)).
    { apply (wp_invariant sheet_quiet); [safe_quiet| |done].
      apply settled_quiet. by intros []. }
    intros [g|e] h2 w2 Hh2; [|done].
    sheet_step.
    apply (wp_mono _ (fun _ h' _ => settled sheet_needs h' = true)).
    { apply (wp_invariant sheet_quiet); [destruct g; safe_quiet| |done].
      apply settled_quiet. by intros []. }
    intros [caption|e] h3 w3 Hh3; [|done].
    by apply write_stages_settled.
  - intros [[]|e] h1 w1 Hh1; repeat sheet_step; sheet_done.
Qed.

Lemma for_rows_settled rows : forall idx h w,
  settled sheet_needs h = true ->
  wp (for_rows env config idx rows) (fun _ h' _ => settled sheet_needs h' = true) h w.
Proof.
  induction rows as [|r rows IH]; intros idx h w Hh; simpl; [by apply wp_ret|].
  apply wp_bind.
  apply (wp_mono _ (fun _ h' _ => settled sheet_needs h' = true));
    [by apply process_row_settled|].
  intros [[]|e] h1 w1 Hh1; [by apply IH|done].
Qed.

Lemma process_excel_topics_settled w :
  settled sheet_needs (rev (process_excel_topics env config w).2) = true.
Proof.
  rewrite <- (app_nil_r (rev _)).
  change (wp (process_excel_topics env config)
            (fun _ h _ => settled sheet_needs h = true) [] w).
  unfold process_excel_topics, ExcelMonitor.get_excel_rows.
  repeat sheet_step; try done.
  by apply for_rows_settled.
Qed.

(** The tally of an invariant that counts confirmations against marks. *)
Lemma occurrences_quiet (p : event -> bool) (P : event -> Prop) evs :
  (forall ev, P ev -> p ev = false) -> Forall P evs -> occurrences p evs = O.
Proof.
  intros Hp Hevs. induction Hevs as [|ev evs Hev _ IH]; [done|].
  rewrite occurrences_cons, IH, (Hp _ Hev). done.
Qed.

Lemma balanced_quiet evs h :
  Forall count_quiet evs ->
  occurrences confirmation h = occurrences mark_returned h ->
  occurrences confirmation (evs ++ h) = occurrences mark_returned (evs ++ h).
Proof.
  intros Hevs Hh. rewrite !occurrences_app, Hh.
  rewrite (occurrences_quiet confirmation count_quiet evs),
    (occurrences_quiet mark_returned count_quiet evs);
    first [done | by intros []].
Qed.

Ltac tally_opaque :=
  repeat match goal with
  | H : Forall _ ?evs |- context [occurrences ?p ?evs] =>
      rewrite (fun Hp => occurrences_quiet p _ evs Hp H) by (by intros [])
  end.

Ltac count_quiet_safe :=
  repeat first
    [ apply (safe_weaken failure_event count_quiet);
      [ by intros [] | apply send_error_failure_safe ]
    | eapply (safe_weaken (patch_event _) count_quiet);
      [ by intros [] | apply patch_column_events ]
    | safe_step ].

Lemma completion_stage_balanced idx content target_group caption linkedin_success h w :
  occurrences confirmation h = occurrences mark_returned h ->
  wp (completion_stage env config idx content target_group caption linkedin_success)
    (fun r h' _ =>
       occurrences confirmation h' = occurrences mark_returned h') h w.
Proof.
  intros Hh. unfold completion_stage, ExcelMonitor.mark_row_processed.
  repeat sheet_step.
  all: rewrite ?occurrences_app, ?occurrences_cons, ?occurrences_app; tally_opaque;
    simpl; lia.
Qed.

Lemma process_row_balanced idx r h w :
  occurrences confirmation h = occurrences mark_returned h ->
  wp (process_row env config idx r)
    (fun _ h' _ => occurrences confirmation h' = occurrences mark_returned h') h w.
Proof.
  intros Hh.
  set (Inv := fun h' : list event =>
                occurrences confirmation h' = occurrences mark_returned h').
  assert (Hquiet : forall (A : Type) (m : M St A) h1 w1,
            safe count_quiet same_process m -> Inv h1 ->
            wp m (fun _ h' _ => Inv h') h1 w1).
  { intros A m h1 w1 Hm Hh1. apply (wp_invariant count_quiet); [done| |done].
    intros evs h' Hevs Hh'. by apply balanced_quiet. }
  unfold process_row, row_guard.
  apply wp_bind, (wp_mono _ (fun _ h' _ => Inv h')); [apply Hquiet; [count_quiet_safe|done]|].
  intros [[]|e] h0 w0 Hh0; [|done].
  apply wp_bind, wp_attempt, (wp_mono _ (fun _ h' _ => Inv h')).
  - sheet_step; [apply Hquiet; [count_quiet_safe|done]|].
    apply wp_bind, (wp_mono _ (fun _ h' _ => Inv h'));
      [apply Hquiet; [count_quiet_safe|done]|].
    intros [[]|e] h1 w1 Hh1; [|done].
    apply wp_bind, (wp_mono _ (fun _ h' _ => Inv h'));
      [apply Hquiet; [unfold news_stage; count_quiet_safe|done]|].
    intros [news|e] h2 w2 Hh2; [|done].
    unfold stages_after_news.
    apply wp_bind, (wp_mono _ (fun _ h' _ => Inv h'));
      [apply Hquiet; [count_quiet_safe|done]|].
    intros [g|e] h3 w3 Hh3; [|done].
    apply wp_bind, (wp_mono _ (fun _ h' _ => Inv h'));
      [apply Hquiet; [destruct g; count_quiet_safe|done]|].
    intros [caption|e] h4 w4 Hh4; [|done].
    unfold write_stages.
    apply wp_bind, (wp_mono _ (fun _ h' _ => Inv h'));
      [apply Hquiet; [unfold ExcelMonitor.write_instagram_post; count_quiet_safe|done]|].
    intros [g2|e] h5 w5 Hh5; [|done].
    apply wp_bind, (wp_mono _ (fun _ h' _ => Inv h'));
      [apply Hquiet; [destruct g2; count_quiet_safe|done]|].
    intros [[]|e] h6 w6 Hh6; [|done].
    apply wp_bind, (wp_mono _ (fun _ h' _ => Inv h'));
      [apply Hquiet;
       [unfold linkedin_stage, ExcelMonitor.write_linkedin_post; count_quiet_safe|done]|].
    intros [ok|e] h7 w7 Hh7; [|done].
    by apply completion_stage_balanced.
  - intros [[]|e] h1 w1 Hh1; [by apply wp_ret|].
    apply Hquiet; [count_quiet_safe|done].
Qed.

Lemma for_rows_balanced rows : forall idx h w,
  occurrences confirmation h = occurrences mark_returned h ->
  wp (for_rows env config idx rows)
    (fun _ h' _ => occurrences confirmation h' = occurrences mark_returned h') h w.
Proof.
  induction rows as [|r rows IH]; intros idx h w Hh; simpl; [by apply wp_ret|].
  apply wp_bind.
  apply (wp_mono _ (fun _ h' _ =>
                      occurrences confirmation h' = occurrences mark_returned h'));
    [by apply process_row_balanced|].
  intros [[]|e] h1 w1 Hh1; [by apply IH|done].
Qed.

Lemma process_excel_topics_balanced w :
  occurrences confirmation (rev (process_excel_topics env config w).2)
  = occurrences mark_returned (rev (process_excel_topics env config w).2).
Proof.
  rewrite <- (app_nil_r (rev _)).
  change (wp (process_excel_topics env config)
            (fun _ h _ => occurrences confirmation h = occurrences mark_returned h)
            [] w).
  unfold process_excel_topics, ExcelMonitor.get_excel_rows.
  repeat sheet_step; try done.
  by apply for_rows_balanced.
Qed.

End SheetOrder.

Lemma occurrences_rev (p : event -> bool) (evs : list event) :
  occurrences p (rev evs) = occurrences p evs.
Proof.
  induction evs as [|ev evs IH]; [done|]. simpl.
  rewrite occurrences_app, !occurrences_cons, occurrences_nil, IH. lia.
Qed.

Lemma success_notifications_occurrences evs :
  success_notifications evs = occurrences confirmation evs.
Proof.
  induction evs as [|ev evs IH]; [done|]. rewrite occurrences_cons.
  destruct ev; simpl; rewrite IH; done.
Qed.

Lemma marked_rows_occurrences evs :
  length (marked_rows evs) = occurrences mark_returned evs.
Proof.
  induction evs as [|ev evs IH]; [done|]. rewrite occurrences_cons.
  destruct ev as [| | | | | | | | | | | |i []| | | | | | | | | | | | | | |];
    simpl; rewrite IH; done.
Qed.

(** X12.  In a run of [process_excel_topics], a row is marked processed only
    after a non-empty LinkedIn text was written for that row by a call that
    returned, and after a non-empty caption was handed to the Instagram
    write for that row (which may have failed). *)
Theorem mark_follows_both_writes {St : Type} (env : Env St) (config : yaml)
    (w : world St) (evs1 evs2 : list event) (i : nat) (b : bool) :
  (process_excel_topics env config w).2 = evs1 ++ MarkProcessed i b :: evs2 ->
  exists text caption ok,
    In (WriteLinkedIn i text true) evs1 /\ text <> ""
    /\ In (WriteInstagram i caption ok) evs1 /\ caption <> "".
Proof.
  intros Hsplit.
  pose proof (process_excel_topics_settled env config w) as Hall.
  pose proof (settled_before _ _ _ _ _ Hall Hsplit) as Hev. simpl in Hev.
  apply andb_prop in Hev as [Hli Hig].
  apply existsb_rev_In in Hli as (e1 & Hin1 & Hp1).
  apply existsb_rev_In in Hig as (e2 & Hin2 & Hp2).
  destruct e1; try discriminate. destruct e2; try discriminate.
  destruct ok; [|discriminate].
  apply andb_prop in Hp1 as [->%Nat.eqb_eq Ht].
  apply andb_prop in Hp2 as [->%Nat.eqb_eq Hc].
  eexists _, _, _. split; [exact Hin1|]. split; [by intros ->|].
  split; [exact Hin2|by intros ->].
Qed.

Lemma mark_follows_both_writes_witness :
  let evs := (process_excel_topics calm_env (demo_config "gmail") demo_world).2 in
  exists text caption ok,
    In (WriteLinkedIn 0 text true) (take 24 evs) /\ text <> ""
    /\ In (WriteInstagram 0 caption ok) (take 24 evs) /\ caption <> "".
Proof.
  intros evs.
  exact (mark_follows_both_writes calm_env (demo_config "gmail") demo_world
           (take 24 evs) (drop 25 evs) 0 true eq_refl).
Defined.

(** X13.  Every entry into [send_confirmation] of a run of [process_excel_topics]
    belongs to a call of [mark_row_processed] that returned, and every such
    call is followed by one: their numbers are the same. *)
Theorem confirmations_match_marks {St : Type} (env : Env St) (config : yaml)
    (w : world St) :
  success_notifications (process_excel_topics env config w).2
  = length (marked_rows (process_excel_topics env config w).2).
Proof.
  rewrite success_notifications_occurrences, marked_rows_occurrences.
  rewrite <- (occurrences_rev confirmation), <- (occurrences_rev mark_returned).
  apply process_excel_topics_balanced.
Qed.

(** ** Images that were seen *)

Section SeenFacts.
Context {St : Type} (env : Env St) (config : yaml).

Ltac about_step :=
  first
    [ apply safe_any_world, (safe_weaken notification_event (about_item _));
      [ by intros [] | first [apply send_error_safe | apply send_confirmation_safe] ]
    | safe_step
    | apply safe_call; [done | intros ?; reflexivity]
    | apply safe_traced; [ | intros ?; reflexivity]
    | intros ?; by split ].

Lemma process_image_about seen_supplied template it :
  safe (about_item (eq it)) any_world
    (process_image env config seen_supplied template it).
Proof.
  unfold process_image, image_guard, caption_stages, upload_stages, publish_stages,
    move_onedrive_file_to_processed.
  repeat about_step.
Qed.

Lemma for_images_about seen_supplied template images :
  safe (about_item (fun it => In it images)) any_world
    (for_images env config seen_supplied template images).
Proof.
  induction images as [|it images IH]; simpl; [by repeat about_step|].
  apply safe_bind; [done| |intros _].
  - apply (safe_weaken (about_item (eq it))); [|apply process_image_about].
    intros []; simpl; try done; intros <-; by left.
  - apply (safe_weaken (about_item (fun it => In it images))); [|exact IH].
    intros []; simpl; try done; intros ?; by right.
Qed.

End SeenFacts.

(** X14.  [process_images] with a list of images and a [seen_ids] set downloads
    only images of that list whose id is not in the set. *)
Theorem seen_items_are_skipped {St : Type} (env : Env St) (config : yaml)
    (images : list item) (w : world St) (it : item) (ok : bool) :
  In (Download it ok) (process_images env config (Some images) true w).2 ->
  In it images /\ item_id it ∉ seen_ids w.
Proof.
  set (new := fun i : item => In i images /\ item_id i ∉ seen_ids w).
  assert (Hall : wp (process_images env config (Some images) true)
                   (fun _ h _ => Forall (about_item new) h) [] w).
  { unfold process_images, keep_onedrive_token_alive.
    repeat lazymatch goal with
           | |- wp get_seen_ids _ _ _ => apply wp_get_seen_ids; cbn beta iota
           | |- wp (for_images _ _ _ _ ?l) _ _ _ =>
               apply (wp_safe (about_item (fun i => In i l)) any_world);
               [apply for_images_about | intros ? ? ? ? _]
           | |- _ => wp_step
           end.
    all: rewrite ?Forall_app; repeat split; repeat constructor.
    all: (eapply Forall_impl; [eassumption|]); intros ev Hev;
      destruct ev; try done; unfold about_item in Hev |- *;
      match goal with H : List.filter _ _ = _ |- _ => rewrite <- H in Hev end;
      apply List.filter_In in Hev as [Him Hdec];
      apply bool_decide_eq_true in Hdec; simpl in Hdec; by split. }
  unfold wp in Hall. rewrite app_nil_r in Hall.
  intros Hin. apply in_rev, list_elem_of_In in Hin.
  rewrite Forall_forall in Hall. exact (Hall _ Hin).
Qed.

Lemma seen_items_are_skipped_witness :
  In other_item [test_item; other_item] /\ item_id other_item ∉ seen_ids seen_first_world.
Proof.
  apply (seen_items_are_skipped calm_env (demo_config "gmail") [test_item; other_item]
           seen_first_world other_item true).
  vm_compute. tauto.
Defined.

(** ** Two workflows on one weekday *)

Section ScheduleFacts.
Context {St : Type} (env : Env St) (config : yaml).

Lemma for_rows_no_job rows : forall idx,
  safe no_job_event same_process (for_rows env config idx rows).
Proof.
  induction rows as [|r rows IH]; intros idx; simpl; [by repeat safe_step|].
  safe_step; [|apply IH].
  apply (safe_weaken (row_event idx)); [by intros []|apply process_row_safe].
Qed.

Lemma process_excel_topics_no_job :
  safe no_job_event same_process (process_excel_topics env config).
Proof.
  unfold process_excel_topics, ExcelMonitor.get_excel_rows.
  repeat first [apply for_rows_no_job | safe_step].
Qed.

Ltac no_job_step :=
  first
    [ apply (safe_weaken notification_event no_job_event);
      [ by intros [] | first [apply send_error_safe | apply send_confirmation_safe] ]
    | apply (safe_weaken move_body_event no_job_event);
      [ by intros [] | apply move_onedrive_file_to_processed_safe ]
    | safe_step ].

Lemma process_image_no_job template it :
  safe no_job_event same_process (process_image env config false template it).
Proof.
  unfold process_image, image_guard, caption_stages, upload_stages, publish_stages.
  cbn iota. repeat no_job_step.
Qed.

Lemma for_images_no_job template images :
  safe no_job_event same_process (for_images env config false template images).
Proof.
  induction images as [|it images IH]; simpl; [by repeat safe_step|].
  safe_step; [apply process_image_no_job|apply IH].
Qed.

Lemma process_images_no_job images :
  safe no_job_event same_process (process_images env config images false).
Proof.
  unfold process_images, keep_onedrive_token_alive. cbn iota.
  repeat first [apply for_images_no_job | safe_step].
Qed.

Lemma run_job_sheet f h w :
  f = job_process_excel_topics -> only_sheet_jobs w -> Forall sheet_runs_only h ->
  wp (run_job env config f)
    (fun _ h' w' => only_sheet_jobs w' /\ Forall sheet_runs_only h') h w.
Proof.
  intros -> Hw Hh. unfold run_job. apply wp_bind, wp_emit. cbn beta iota.
  apply (wp_safe no_job_event same_process); [apply process_excel_topics_no_job|].
  intros r evs w' Hevs (_ & Hjobs & _). split.
  - unfold only_sheet_jobs. by rewrite Hjobs.
  - apply Forall_app. split; [|by constructor].
    eapply Forall_impl; [exact Hevs|]. by intros [].
Qed.

Lemma run_jobs_sheet days : forall h w,
  only_sheet_jobs w -> Forall sheet_runs_only h ->
  wp (run_jobs env config days)
    (fun _ h' w' => only_sheet_jobs w' /\ Forall sheet_runs_only h') h w.
Proof.
  induction days as [|d days IH]; intros h w Hw Hh; simpl; [by apply wp_ret|].
  apply wp_bind.
  assert (Hpick : wp (fun w0 => match job_of d (day_jobs w0) with
                                | Some f => run_job env config f w0
                                | None => (Ok tt, w0, [])
                                end)
                    (fun _ h' w' => only_sheet_jobs w' /\ Forall sheet_runs_only h')
                    h w).
  { destruct (job_of d (day_jobs w)) as [f|] eqn:Hd.
    - pose proof (run_job_sheet f h w (Hw d f Hd) Hw Hh) as Hrun.
      unfold wp in *. by rewrite Hd.
    - unfold wp. by rewrite Hd. }
  eapply wp_mono; [exact Hpick|].
  intros [[]|e] h1 w1 [Hw1 Hh1]; [by apply IH|done].
Qed.

Lemma schedule_loop_sheet fuel : forall h w,
  only_sheet_jobs w -> Forall sheet_runs_only h ->
  wp (schedule_loop env config fuel) (fun _ h' _ => Forall sheet_runs_only h') h w.
Proof.
  induction fuel as [|fuel IH]; intros h w Hw Hh; simpl; [by apply wp_ret|].
  unfold run_pending. apply wp_bind, wp_bind.
  unfold wp at 1. destruct (schedule_due env (scheduled w) (outside w)) as [due s].
  simpl.
  eapply wp_mono; [apply run_jobs_sheet; [exact Hw|exact Hh]|].
  intros [[]|e] h1 w1 [Hw1 Hh1]; [|done].
  apply wp_bind. unfold sleep, wp at 1. simpl.
  apply IH; [exact Hw1|by constructor].
Qed.

End ScheduleFacts.

(** X15.  With both workflows configured for the same weekday, [main] in schedule
    mode configures that day's one job object twice, and the function set
    last wins: whenever a job runs it is [process_excel_topics], and
    [process_images] is never run. *)
Theorem same_day_runs_only_the_sheet_workflow {St : Type} (env : Env St)
    (config : yaml) (fuel : nat) (w : world St) (day : string) :
  day_jobs w = [] ->
  schedule_day config IMAGE_DAY_KEY "Tuesday" = Ok day ->
  schedule_day config INSTAGRAM_DAY_KEY "Thursday" = Ok day ->
  Forall sheet_runs_only (main env config "schedule" fuel w).2.
Proof.
  intros Hfresh Himg Hpost.
  assert (Hall : wp (main env config "schedule" fuel)
                   (fun _ h _ => Forall sheet_runs_only h) [] w).
  { unfold main. simpl String.eqb. cbv iota. rewrite Himg, Hpost.
    apply wp_bind, wp_emit. cbn beta iota.
    apply wp_bind, wp_lift. cbn beta iota.
    apply wp_bind, wp_lift.
    destruct (schedule_setting config IMAGE_TIME_KEY "09:00") as [img_time|e];
      [|by repeat constructor].
    apply wp_bind, wp_lift. cbn beta iota.
    apply wp_bind, wp_lift.
    destruct (schedule_setting config INSTAGRAM_TIME_KEY "09:00") as [post_time|e];
      [|by repeat constructor].
    destruct (assoc day DAY_MAP) as [d|]; [|repeat wp_step; by repeat constructor].
    apply wp_bind. unfold schedule_at_do.
    apply wp_bind, wp_lift.
    destruct (job_at env img_time) as [[]|e]; [|by repeat constructor].
    unfold wp at 1. simpl. apply wp_bind.
    apply wp_bind, wp_lift.
    destruct (job_at env post_time) as [[]|e]; [|by repeat constructor].
    unfold wp at 1. simpl. apply wp_bind, wp_emit. cbn beta iota.
    apply schedule_loop_sheet; [|by repeat constructor].
    intros d' f. simpl. rewrite Hfresh. simpl.
    destruct (weekday_eqb d' d); [by intros [= <-]|discriminate]. }
  unfold wp in Hall. rewrite app_nil_r in Hall. by apply Forall_rev in Hall;
    rewrite rev_involutive in Hall.
Qed.

Lemma same_day_runs_only_the_sheet_workflow_witness :
  let evs := (main calm_env same_day_config "schedule" 1 demo_world).2 in
  Forall sheet_runs_only evs /\ occurrences job_run evs = 2%nat.
Proof.
  intros evs. split; [|reflexivity].
  apply (same_day_runs_only_the_sheet_workflow calm_env same_day_config 1 demo_world
           "monday"); reflexivity.
Defined.

(** ** Failures before the first row *)

(** X16.  An exception while the sheet is fetched (the token or the used range)
    is not handled by [process_excel_topics]: it reaches the caller, no
    error is logged and no notification is sent; in polling mode it ends
    [main] in the first cycle in which it occurs. *)
Theorem sheet_fetch_failure_is_not_handled {St : Type} (env : Env St)
    (config : yaml) (w : world St) (e : exn) :
  (ExcelMonitor.get_excel_rows env w).1.1 = Raise e ->
  let x := process_excel_topics env config w in
  x.1.1 = Raise e
  /\ failure_notifications x.2 = O
  /\ Forall (fun ev => match ev with Log ERROR _ => False | _ => True end) x.2
  /\ forall images fuel w0 w1 evs1,
       list_onedrive_images env (outside w0) = (Ok images, outside w1) ->
       process_images env config (Some images) true
         (mkWorld (outside w1) ∅ (day_jobs w0) (scheduled w0)) = (Ok tt, w, evs1) ->
       (main env config "polling" (S fuel) w0).1.1 = Raise e.
Proof.
  intros Hfetch. cbv zeta.
  assert (Hrun : exists w' evs,
            process_excel_topics env config w = (Raise e, w', evs)
            /\ failure_notifications evs = O
            /\ Forall (fun ev => match ev with Log ERROR _ => False | _ => True end) evs).
  { revert Hfetch. unfold process_excel_topics, ExcelMonitor.get_excel_rows, bind, emit,
      call, ret.
    destruct (get_access_token env (outside w)) as [[tok|e1] s1]; simpl.
    - destruct (graph_get_used_range env s1) as [[values|e2] s2]; simpl; [done|].
      intros [= ->]. eexists _, _. split; [done|]. split; [done|].
      by repeat constructor.
    - intros [= ->]. eexists _, _. split; [done|]. split; [done|].
      by repeat constructor. }
  destruct Hrun as (w' & evs & Hrun & Hnone & Hlog). rewrite Hrun. simpl.
  split; [done|]. split; [done|]. split; [done|].
  intros images fuel w0 w1 evs1 Hlist Himages.
  unfold main. simpl String.eqb. cbv iota. cbn [polling_loop].
  unfold bind at 1. unfold emit at 1. cbn beta iota.
  unfold bind at 1. cbn beta iota.
  unfold bind at 1. unfold call at 1. simpl outside. rewrite Hlist. cbn beta iota.
  simpl seen_ids. simpl day_jobs. simpl scheduled.
  unfold bind at 1. rewrite Himages. cbn beta iota.
  unfold bind at 1. rewrite Hrun. done.
Qed.

Lemma sheet_fetch_failure_is_not_handled_witness :
  (process_excel_topics sheet_down_env (demo_config "gmail") demo_world).1.1 = Raise down
  /\ (main sheet_down_env (demo_config "gmail") "polling" 3 demo_world).1.1 = Raise down.
Proof.
  destruct (sheet_fetch_failure_is_not_handled sheet_down_env (demo_config "gmail")
              demo_world down eq_refl) as (Hr & _ & _ & Hmain).
  split; [exact Hr|].
  exact (Hmain [] 2%nat demo_world demo_world _ eq_refl eq_refl).
Defined.

(** ** The upload to the object store *)

(** X17.  Once the S3 client exists, [upload_file_to_s3] calls [upload_file]
    exactly once: a failure of the upload is caught inside the function
    and turned into the result [None], so the [retry] decorator sees a
    normal return and neither sleeps nor tries again.  A success returns
    the URL built from bucket, region and object name. *)
Theorem upload_failure_is_never_retried {St : Type}
    (boto3_client : scalar -> scalar -> scalar -> St -> result unit * St)
    (upload_file : string -> scalar -> string -> St -> result unit * St)
    (ClientError : exn -> bool)
    (file_path : string) (bucket_name : scalar) (object_name : option string)
    (key_id secret region_name : scalar) (s s1 : St) (log : S3.log) :
  boto3_client key_id secret region_name s = (Ok tt, s1) ->
  let name := match object_name with None => S3.basename file_path | Some n => n end in
  let sent := upload_file file_path bucket_name name s1 in
  let x := S3.upload_file_to_s3 boto3_client upload_file ClientError file_path
             bucket_name object_name key_id secret region_name (s, log) in
  x.2 = [Retry.Invoked]
  /\ x.1.2.1 = sent.2
  /\ x.1.1
     = Ok (if is_ok sent.1
           then Some ("https://" +:+ py_str bucket_name +:+ ".s3." +:+ py_str region_name
                        +:+ ".amazonaws.com/" +:+ name)
           else None).
Proof.
  intros Hclient. cbv zeta.
  set (name := match object_name with None => S3.basename file_path | Some n => n end).
  assert (Hbody : exists u l,
            S3.upload boto3_client upload_file ClientError file_path bucket_name
              object_name key_id secret region_name (s, log)
            = (Ok u, ((upload_file file_path bucket_name name s1).2, l))
            /\ u = if is_ok (upload_file file_path bucket_name name s1).1
                   then Some ("https://" +:+ py_str bucket_name +:+ ".s3."
                                +:+ py_str region_name +:+ ".amazonaws.com/" +:+ name)
                   else None).
  { unfold S3.upload. cbn [fst snd]. rewrite Hclient. fold name.
    destruct (upload_file file_path bucket_name name s1) as [[[]|e] s2]; simpl.
    - eauto.
    - destruct (ClientError e); eauto. }
  destruct Hbody as (u & l & Hbody & ->).
  unfold S3.upload_file_to_s3, Retry.f_retry.
  change (Z.to_nat 3) with 3%nat. cbn [Retry.f_retry_loop].
  change (1 <? 3) with true. cbv iota. rewrite Hbody. done.
Qed.

Lemma upload_failure_is_never_retried_witness :
  let x := S3.upload_file_to_s3 (fun _ _ _ s => (Ok tt, s))
             (fun _ _ _ => S3.refusing_bucket) (fun _ => false) "downloads/test.jpg"
             (SStr "bucket") None SNone SNone (SStr "eu-central-1") (0%nat, []) in
  x.2 = [Retry.Invoked] /\ x.1.1 = Ok None.
Proof.
  destruct (upload_failure_is_never_retried
              (fun _ _ _ s => (Ok tt, s)) (fun _ _ _ => S3.refusing_bucket)
              (fun _ => false) "downloads/test.jpg" (SStr "bucket") None SNone SNone
              (SStr "eu-central-1") 0%nat 0%nat [] eq_refl) as (Hevs & _ & Hres).
  split; [exact Hevs|exact Hres].
Defined.

(** ** Posting to Instagram *)

Module InstagramFacts.
Import Instagram.

Section PollFacts.
Context {St : Type}.
Variable get_status : scalar -> yaml -> St -> result scalar * St.
Variable time_sleep : Z -> St -> St.
Variables (creation_id : scalar) (access_token : yaml) (max_wait poll_interval : Z).

Lemma is_str_eq (v : scalar) (s : string) : is_str v s = true <-> v = SStr s.
Proof.
  destruct v as [| | |t]; simpl; try (split; [discriminate|by intros [=]]).
  rewrite String.eqb_eq. split; [by intros ->|by intros [= ->]].
Qed.

Lemma status_requests_app evs1 evs2 :
  status_requests (evs1 ++ evs2) = (status_requests evs1 + status_requests evs2)%nat.
Proof. induction evs1 as [|[] evs1 IH]; simpl; lia. Qed.

Lemma slept_app evs1 evs2 : slept (evs1 ++ evs2) = slept evs1 + slept evs2.
Proof. induction evs1 as [|[] evs1 IH]; simpl; lia. Qed.

Lemma wait_loop_returns (n : nat) : forall fuel waited t,
  0 < poll_interval ->
  max_wait - waited <= Z.of_nat n * poll_interval ->
  (n <= fuel)%nat ->
  exists b t',
    wait_loop get_status time_sleep creation_id access_token max_wait poll_interval
      fuel waited t = Some (b, t')
    /\ waited_for poll_interval n t b t'.
Proof.
  induction n as [|n IH]; intros fuel waited t Hpos Hleft Hfuel.
  - destruct fuel as [|fuel]; simpl;
      (replace (waited <? max_wait) with false by (symmetry; apply Z.ltb_ge; lia));
      eexists _, _; (split; [reflexivity|]);
      eexists; simpl; (split; [reflexivity|]); simpl;
      (split; [lia|]); (split; [lia|]);
      (split; [discriminate|intros [[=]|[]]]).
  - destruct fuel as [|fuel]; [lia|]. simpl.
    destruct (waited <? max_wait) eqn:Hw.
    2:{ eexists _, _. split; [reflexivity|]. eexists. simpl. split; [reflexivity|].
        simpl. split; [lia|]. split; [lia|].
        split; [discriminate|intros [[=]|[]]]. }
    destruct (get_status creation_id access_token t.1) as [r s1].
    assert (Hagain : forall evs,
              status_requests evs = O -> slept evs = 0 ->
              (forall ev, In ev evs -> ev <> StatusRequest (Ok (SStr "FINISHED"))) ->
              r <> Ok (SStr "FINISHED") ->
              exists b t',
                wait_loop get_status time_sleep creation_id access_token max_wait
                  poll_interval fuel (waited + poll_interval)
                  (time_sleep poll_interval s1,
                   (t.2 ++ [StatusRequest r]) ++ evs ++ [Slept poll_interval])
                = Some (b, t')
                /\ waited_for poll_interval (S n) t b t').
    { intros evs Hnone Hzero Hother Hr.
      destruct (IH fuel (waited + poll_interval)
                  (time_sleep poll_interval s1,
                   (t.2 ++ [StatusRequest r]) ++ evs ++ [Slept poll_interval]))
        as (b & t' & Hrun & evs' & Heq & Hcount & Hslept & Hfin); try lia.
      exists b, t'. split; [exact Hrun|].
      exists (StatusRequest r :: evs ++ Slept poll_interval :: evs').
      simpl in Heq. split.
      { rewrite Heq. repeat rewrite <- app_assoc. reflexivity. }
      simpl. rewrite !status_requests_app, !slept_app. simpl.
      rewrite Hnone, Hzero. split; [lia|]. split; [lia|].
      rewrite Hfin. split.
      - intros Hin. right. rewrite in_app_iff. right. by right.
      - intros [[= Heq']|Hin]; [by rewrite Heq' in Hr|].
        apply in_app_iff in Hin as [Hin|[[=]|Hin]]; [|done].
        by apply Hother in Hin. }
    destruct r as [status|e].
    + destruct (is_str status "FINISHED") eqn:Hfin.
      { apply is_str_eq in Hfin as ->.
        eexists _, _. split; [reflexivity|]. eexists. split; [reflexivity|].
        simpl. split; [lia|]. split; [lia|]. split; [by left|done]. }
      assert (Hnot : Ok status <> Ok (SStr "FINISHED")).
      { intros [= ->]. simpl in Hfin. discriminate. }
      destruct (is_str status "ERROR") eqn:Herr.
      { eexists _, _. split; [reflexivity|]. eexists. simpl.
        rewrite <- app_assoc. split; [reflexivity|].
        simpl. split; [lia|]. split; [lia|].
        split; [discriminate|]. intros [[= Heq]|[[=]|[]]].
        by rewrite Heq in Hnot. }
      apply (Hagain []); simpl; try done.
    + apply (Hagain [Logged ERROR "Error polling Instagram media status: {e}"]);
        simpl; try done.
      intros ev [<-|[]]. done.
Qed.

End PollFacts.

(** X18.  With a positive poll interval, [wait_for_media_ready] returns after at
    most [ceil(max_wait / poll_interval)] polls (twelve with the values that
    [post_to_instagram] passes) and at most one sleep per poll, whatever
    the requests do: an exception of a poll is logged and the loop goes on.
    It returns [True] exactly if a poll reported [FINISHED]. *)
Theorem wait_for_media_ready_is_bounded {St : Type}
    (get_status : scalar -> yaml -> St -> result scalar * St)
    (time_sleep : Z -> St -> St) (creation_id : scalar) (access_token : yaml)
    (max_wait poll_interval : Z) (fuel : nat) (t : trace St) :
  0 < poll_interval ->
  (polls_allowed max_wait poll_interval <= fuel)%nat ->
  exists b t' evs,
    wait_loop get_status time_sleep creation_id access_token max_wait poll_interval
      fuel 0 t = Some (b, t')
    /\ t'.2 = t.2 ++ evs
    /\ (status_requests evs <= polls_allowed max_wait poll_interval)%nat
    /\ slept evs <= Z.of_nat (status_requests evs) * poll_interval
    /\ (b = true <-> In (StatusRequest (Ok (SStr "FINISHED"))) evs).
Proof.
  intros Hpos Hfuel.
  destruct (wait_loop_returns get_status time_sleep creation_id access_token max_wait
              poll_interval (polls_allowed max_wait poll_interval) fuel 0 t)
    as (b & t' & Hrun & evs & H); try done.
  - unfold polls_allowed.
    destruct (Z_le_gt_dec max_wait 0) as [Hle|Hgt]; [lia|].
    rewrite Z2Nat.id by (apply Z.div_pos; lia).
    pose proof (Z.mul_succ_div_gt (max_wait + poll_interval - 1) poll_interval Hpos).
    lia.
  - exists b, t', evs. by split.
Qed.

Lemma wait_for_media_ready_is_bounded_witness :
  polls_allowed 60 5 = 12%nat
  /\ exists b t' evs,
       wait_loop slow_media (fun _ s => s) (SStr "17") (YScalar (SStr "token")) 60 5
         12 0 (0%nat, []) = Some (b, t')
       /\ t'.2 = [] ++ evs
       /\ (status_requests evs <= polls_allowed 60 5)%nat
       /\ slept evs <= Z.of_nat (status_requests evs) * 5
       /\ (b = true <-> In (StatusRequest (Ok (SStr "FINISHED"))) evs).
Proof.
  split; [reflexivity|].
  apply (wait_for_media_ready_is_bounded slow_media (fun _ s => s) (SStr "17")
           (YScalar (SStr "token")) 60 5 12 (0%nat, [])); [lia|].
  vm_compute. lia.
Defined.

(** X19.  A configuration without the [instagram] credentials makes
    [post_to_instagram] raise the [KeyError] only at the third call of its
    body: the decorator retries it like a failed request, with its two
    warnings and sleeps of 2 and 4 seconds, and no request is sent. *)
Theorem missing_credentials_are_retried {St : Type}
    (post_media : yaml -> string -> string -> yaml -> St -> result response * St)
    (post_publish : yaml -> scalar -> yaml -> St -> result Z * St)
    (wait_for_media_ready : scalar -> yaml -> Z -> Z -> trace St -> result bool * trace St)
    (image_url caption : string) (config : yaml) (t : trace St) (e : exn) :
  credentials config = Raise e ->
  post_to_instagram post_media post_publish wait_for_media_ready image_url caption
    config t
  = (Raise e, t,
     [Retry.Invoked; Retry.Warned true e 2 2; Retry.Slept 2;
      Retry.Invoked; Retry.Warned true e 4 1; Retry.Slept 4;
      Retry.Invoked]).
Proof.
  intros Hcred.
  assert (Hbody : forall t0, post post_media post_publish wait_for_media_ready
                               image_url caption config t0 = (Raise e, t0)).
  { intros t0. unfold post. by rewrite Hcred. }
  unfold post_to_instagram, Retry.f_retry.
  change (Z.to_nat 3) with 3%nat. cbn [Retry.f_retry_loop].
  rewrite !Hbody. reflexivity.
Qed.

Lemma missing_credentials_are_retried_witness :
  Retry.sleeps
    (post_to_instagram (St := unit)
       (fun _ _ _ _ s => (Ok (mkResponse 200 (Ok (SStr "17"))), s))
       (fun _ _ _ s => (Ok 200, s)) (fun _ _ _ _ t => (Ok true, t))
       "https://bucket.s3.region.amazonaws.com/test.jpg" "Test caption"
       (demo_config "gmail") (tt, [])).2
  = [2; 4].
Proof.
  rewrite (missing_credentials_are_retried (St := unit)
             (fun _ _ _ _ s => (Ok (mkResponse 200 (Ok (SStr "17"))), s))
             (fun _ _ _ s => (Ok 200, s)) (fun _ _ _ _ t => (Ok true, t))
             "https://bucket.s3.region.amazonaws.com/test.jpg" "Test caption"
             (demo_config "gmail") (tt, []) (mkExn KeyError "instagram") eq_refl).
  reflexivity.
Defined.

End InstagramFacts.

(** ** The prompt and the answer of the language model *)

Module GenAIFacts.
Import GenAI.

Lemma blank_rstrip (s : string) : blank s = true -> rstrip s = EmptyString.
Proof. destruct s as [|a s]; [done|]. simpl. by intros ->. Qed.

Lemma rstrip_lstrip (s : string) : rstrip (lstrip s) = lstrip (rstrip s).
Proof.
  induction s as [|a s IH]; [done|]. simpl.
  destruct (is_space a) eqn:Ha; simpl.
  - destruct (blank s) eqn:Hb; simpl.
    + rewrite IH, (blank_rstrip s Hb). done.
    + by rewrite Ha.
  - by rewrite Ha.
Qed.

Lemma lstrip_lstrip (s : string) : lstrip (lstrip s) = lstrip s.
Proof.
  induction s as [|a s IH]; [done|]. simpl.
  destruct (is_space a) eqn:Ha; [done|]. simpl. by rewrite Ha.
Qed.

Lemma blank_rstrip_blank (s : string) : blank (rstrip s) = blank s.
Proof.
  induction s as [|a s IH]; [done|]. simpl.
  destruct (is_space a) eqn:Ha; simpl.
  - destruct (blank s) eqn:Hb; [done|]. simpl. by rewrite Ha, IH.
  - by rewrite Ha.
Qed.

Lemma rstrip_rstrip (s : string) : rstrip (rstrip s) = rstrip s.
Proof.
  induction s as [|a s IH]; [done|]. simpl.
  destruct (is_space a && blank s) eqn:Hb; [done|]. simpl.
  by rewrite blank_rstrip_blank, Hb, IH.
Qed.

Lemma strip_strip (s : string) : strip (strip s) = strip s.
Proof.
  unfold strip. by rewrite rstrip_lstrip, rstrip_rstrip, lstrip_lstrip.
Qed.

Lemma description_start_fails (a : article) :
  is_ok (description_start a) = false
  <-> exists d, assoc "description" a = Some d /\ forall t, d <> SStr t.
Proof.
  unfold description_start.
  destruct (assoc "description" a) as [d|]; simpl.
  - destruct d as [| | |t]; simpl;
      try (split; [intros _; eexists; split; [done|discriminate]|done]).
    split; [discriminate|]. intros (d & [= <-] & Hd). by destruct (Hd t).
  - split; [discriminate|]. by intros (d & [=] & _).
Qed.

Lemma summary_lines_fails (news_articles : list article) :
  is_ok (summary_lines news_articles) = false
  <-> Exists (fun a => has_title a = true
                       /\ exists d, assoc "description" a = Some d
                                    /\ forall t, d <> SStr t) news_articles.
Proof.
  induction news_articles as [|a rest IH]; simpl.
  - split; [discriminate|]. intros H. inversion H.
  - rewrite Exists_cons, <- IH, <- description_start_fails. unfold has_title.
    destruct (assoc "title" a) as [title|]; [|by intuition].
    destruct (description_start a) as [d|e]; simpl.
    + destruct (summary_lines rest); simpl; intuition discriminate.
    + intuition.
Qed.

End GenAIFacts.

(** X20.  The prompt is built from the articles that have a title, with at most
    200 characters of each description.  A titled article whose
    [description] is present but not a string (the [null] of the news
    search) makes the slice raise [TypeError]: the generation then fails
    before any request is sent to the model. *)
Theorem unsliceable_description_fails_before_the_request {St : Type}
    (url : string) (post_chat : string -> string -> string -> Z -> St -> result yaml * St)
    (system_prompt closing : string) (max_tokens : Z)
    (content target_group : scalar) (news_articles : list article) (s : St) :
  (is_ok (GenAI.news_summary news_articles) = false
   <-> Exists (fun a => has_title a = true
                        /\ exists d, assoc "description" a = Some d
                                     /\ forall t, d <> SStr t) news_articles)
  /\ (is_ok (GenAI.news_summary news_articles) = false ->
      exists e,
        GenAI.generate_post (Some url) post_chat system_prompt closing max_tokens
          content target_group news_articles s = (Raise e, s)
        /\ (url <> "" -> exn_kind e = TypeError)).
Proof.
  assert (Hlines : is_ok (GenAI.news_summary news_articles)
                   = is_ok (GenAI.summary_lines news_articles)).
  { unfold GenAI.news_summary. destruct news_articles; [done|].
    by destruct (GenAI.summary_lines _). }
  split.
  - rewrite Hlines. apply GenAIFacts.summary_lines_fails.
  - intros Hfail. unfold GenAI.generate_post.
    assert (Hkind : forall e, GenAI.news_summary news_articles = Raise e ->
                              exn_kind e = TypeError).
    { intros e. unfold GenAI.news_summary. destruct news_articles as [|a0 rest0]; [done|].
      generalize (a0 :: rest0). intros l. unfold GenAI.and_then.
      destruct (GenAI.summary_lines l) as [ls|e'] eqn:Hl; [done|]. intros [= <-].
      revert e' Hl. induction l as [|a rest IH]; intros e' Hl; simpl in Hl; [done|].
      destruct (assoc "title" a); [|by apply IH].
      unfold GenAI.and_then, GenAI.description_start in Hl.
      destruct (match assoc "description" a with Some d => d | None => SStr "" end);
        simplify_eq; try done.
      destruct (GenAI.summary_lines rest); simplify_eq. by apply IH. }
    destruct (GenAI.news_summary news_articles) as [summary|e]; [done|].
    destruct url; eexists; (split; [reflexivity|]); [done|]. intros _. by apply Hkind.
Qed.

(** A null description, as the news search delivers it for an article
    without summary. *)
Example null_description_fails_the_generation :
  GenAI.generate_linkedin_post (Some "http://localhost:1234/v1/chat/completions")
    (fun _ _ _ _ (s : unit) => (Ok GenAI.reasoning_answer, s)) "system prompt"
    (SStr "AI in Healthcare") (SStr "Doctors") [GenAI.article_without_description] tt
  = (Raise (mkExn TypeError "object is not subscriptable"), tt).
Proof. reflexivity. Qed.

(** X21.  What [generate_linkedin_post] and [generate_instagram_post] return for
    a decoded response is the stripped message content (or its part after
    the first closing [think] tag), which has no white space at either end
    and may be empty, or else a fallback value that is truthy: an empty
    result can only be a blank answer of the model. *)
Theorem generated_text_is_stripped_or_truthy (data v : yaml) :
  GenAI.extract_post data = Ok v ->
  (exists s, v = YScalar (SStr s) /\ GenAI.strip s = s)
  \/ GenAI.truthy_value v = true.
Proof.
  unfold GenAI.extract_post, GenAI.and_then.
  destruct (GenAI.py_in "choices" data) as [present|]; [|done].
  destruct (if present then _ else _) as [[]|] eqn:Huse; [| |done].
  - destruct (cfg_item data "choices") as [choices|]; [|done].
    destruct (GenAI.first_item choices) as [choice|]; [|done].
    destruct (cfg_item choice "message") as [message|]; [|done].
    destruct (cfg_item message "content") as [raw|]; [|done].
    destruct raw as [[| | |raw]| |]; simpl; try done.
    destruct (GenAI.contains "</think>" (GenAI.strip raw)).
    + destruct (nonempty _); intros [= <-]; left; eexists; (split; [done|]);
        apply GenAIFacts.strip_strip.
    + intros [= <-]. left. eexists. split; [done|]. apply GenAIFacts.strip_strip.
  - destruct (cfg_get data "result" (YScalar SNone)) as [r|]; [|done].
    destruct (GenAI.truthy_value r) eqn:Hr; [intros [= <-]; by right|].
    destruct (cfg_get data "text" (YScalar SNone)) as [t|]; [|done].
    destruct (GenAI.truthy_value t) eqn:Ht; intros [= <-]; by right.
Qed.

Lemma generated_text_is_stripped_or_truthy_witness :
  GenAI.extract_post GenAI.reasoning_answer = Ok (YScalar (SStr "New post!"))
  /\ ((exists s, YScalar (SStr "New post!") = YScalar (SStr s) /\ GenAI.strip s = s)
      \/ GenAI.truthy_value (YScalar (SStr "New post!")) = true).
Proof.
  split; [reflexivity|].
  apply (generated_text_is_stripped_or_truthy GenAI.reasoning_answer). reflexivity.
Defined.

(** ** Loading the configuration *)

Module ConfigFacts.
Import Config.

Lemma substring_all (s : string) : substring 0 (String.length s) s = s.
Proof. induction s as [|a s IH]; simpl; [done | by rewrite IH]. Qed.

Lemma substring_skip (p s : string) (n : nat) :
  substring (String.length p) n (p +:+ s) = substring 0 n s.
Proof. induction p as [|a p IH]; simpl; [done | exact IH]. Qed.

Lemma substring_take (s t : string) :
  substring 0 (String.length s) (s +:+ t) = s.
Proof.
  induction s as [|a s IH]; simpl; [by destruct t | by rewrite IH].
Qed.

Lemma length_append (s t : string) :
  String.length (s +:+ t) = (String.length s + String.length t)%nat.
Proof. induction s as [|a s IH]; simpl; [done | by rewrite IH]. Qed.

Lemma append_assoc (a b c : string) : (a +:+ b) +:+ c = a +:+ (b +:+ c).
Proof.
  induction a as [|x a IH]; [done |].
  change (String x ((a +:+ b) +:+ c) = String x (a +:+ (b +:+ c))). by rewrite IH.
Qed.

Lemma append_empty (a : string) : a +:+ "" = a.
Proof.
  induction a as [|x a IH]; [done |].
  change (String x (a +:+ "") = String x a). by rewrite IH.
Qed.

Lemma endswith_append (s suffix : string) : endswith suffix (s +:+ suffix) = true.
Proof.
  unfold endswith. rewrite length_append.
  apply andb_true_intro. split; [apply Nat.leb_le; lia |].
  replace (String.length s + String.length suffix - String.length suffix)%nat
    with (String.length s) by lia.
  rewrite substring_skip, substring_all. apply String.eqb_refl.
Qed.

(** A value written as one reference is looked up under the name between the
    braces, whatever that name contains. *)
Lemma resolve_str_reference environ safe_substitute (name : string) :
  resolve_str environ safe_substitute ("${" +:+ name +:+ "}")
  = default ("${" +:+ name +:+ "}") (environ !! name).
Proof.
  unfold resolve_str.
  assert (endswith "}" ("${" +:+ name +:+ "}") = true) as ->.
  { rewrite <- append_assoc. apply endswith_append. }
  assert (String.prefix "${" ("${" +:+ name +:+ "}") = true) as ->.
  { change ("${" +:+ name +:+ "}") with (String "$" (String "{" (name +:+ "}"))).
    by destruct (name +:+ "}"). }
  cbn [andb].
  replace (String.length ("${" +:+ name +:+ "}") - 3)%nat with (String.length name).
  2:{ rewrite !length_append. simpl. lia. }
  change 2%nat with (String.length "${") at 1.
  rewrite substring_skip, substring_take.
  by destruct (environ !! name).
Qed.

Section LoadedInduction.
Variable P : loaded -> Prop.
Hypothesis Hscalar : forall v, P (LScalar v).
Hypothesis Hother : forall t, P (LOther t).
Hypothesis Hlist : forall l, Forall P l -> P (LList l).
Hypothesis Hdict : forall d, Forall (fun kv => P kv.2) d -> P (LDict d).

Lemma loaded_nested_ind : forall obj, P obj.
Proof.
  fix IH 1. intros [v | t | l | d].
  - apply Hscalar.
  - apply Hother.
  - apply Hlist. induction l as [|x l IHl]; constructor; [apply IH | exact IHl].
  - apply Hdict. induction d as [|[k x] d IHd]; constructor; [apply IH | exact IHd].
Qed.
End LoadedInduction.

Section YamlInduction.
Variable P : yaml -> Prop.
Hypothesis Hscalar : forall v, P (YScalar v).
Hypothesis Hlist : forall l, Forall P l -> P (YList l).
Hypothesis Hdict : forall d, Forall (fun kv => P kv.2) d -> P (YDict d).

Lemma yaml_nested_ind : forall y, P y.
Proof.
  fix IH 1. intros [v | l | d].
  - apply Hscalar.
  - apply Hlist. induction l as [|x l IHl]; constructor; [apply IH | exact IHl].
  - apply Hdict. induction d as [|[k x] d IHd]; constructor; [apply IH | exact IHd].
Qed.
End YamlInduction.

(** The checks of the items of a list, from index [i] on. *)
Definition items_from (path : string) :=
  fix items (l : list loaded) (i : nat) : result unit :=
    match l with
    | [] => Ok tt
    | v :: l' =>
        GenAI.and_then (_assert_valid_config_types v (path ++ "[" ++ pretty i ++ "]"))
          (fun _ => items l' (S i))
    end.

Definition entries_of (path : string) :=
  fix entries (d : list (string * loaded)) : result unit :=
    match d with
    | [] => Ok tt
    | (k, v) :: d' =>
        GenAI.and_then (_assert_valid_config_types v (path ++ "['" ++ k ++ "']"))
          (fun _ => entries d')
    end.

Lemma assert_list path l :
  _assert_valid_config_types (LList l) path = items_from path l 0.
Proof. reflexivity. Qed.

Lemma assert_dict path d :
  _assert_valid_config_types (LDict d) path = entries_of path d.
Proof. reflexivity. Qed.

(** The check passes on the image of [yaml] and on nothing else. *)
Lemma assert_ok_of_yaml (y : yaml) : forall path,
  _assert_valid_config_types (of_yaml y) path = Ok tt.
Proof.
  induction y as [v | l IH | d IH] using yaml_nested_ind; intros path.
  - reflexivity.
  - cbn [of_yaml]. rewrite assert_list. generalize 0%nat.
    induction IH as [|x l Hx _ IHl]; intros i; [reflexivity |].
    cbn [map items_from]. rewrite Hx. cbn [GenAI.and_then]. apply IHl.
  - cbn [of_yaml]. rewrite assert_dict.
    induction IH as [|[k x] d Hx _ IHd]; [reflexivity |].
    cbn [map entries_of fst snd]. simpl in Hx. rewrite Hx. cbn [GenAI.and_then]. apply IHd.
Qed.

Lemma assert_ok_shape (obj : loaded) : forall path,
  _assert_valid_config_types obj path = Ok tt -> exists y, obj = of_yaml y.
Proof.
  induction obj as [v | t | l IH | d IH] using loaded_nested_ind; intros path.
  - intros _. by exists (YScalar v).
  - discriminate.
  - rewrite assert_list. generalize 0%nat.
    enough (forall i, items_from path l i = Ok tt -> exists ys, l = map of_yaml ys) as Hl.
    { intros i Hi. destruct (Hl i Hi) as [ys ->]. by exists (YList ys). }
    induction IH as [|x l Hx _ IHl]; intros i; [by exists [] |].
    cbn [items_from].
    destruct (_assert_valid_config_types x _) as [[]|e] eqn:Ex; [|discriminate].
    cbn [GenAI.and_then]. intros Hrest.
    destruct (Hx _ Ex) as [y ->]. destruct (IHl _ Hrest) as [ys ->].
    by exists (y :: ys).
  - rewrite assert_dict.
    enough (entries_of path d = Ok tt ->
            exists ys, d = map (fun kv => (kv.1, of_yaml kv.2)) ys) as Hd.
    { intros Hi. destruct (Hd Hi) as [ys ->]. by exists (YDict ys). }
    induction IH as [|[k x] d Hx _ IHd]; [by exists [] |].
    cbn [entries_of]. simpl in Hx.
    destruct (_assert_valid_config_types x _) as [[]|e] eqn:Ex; [|discriminate].
    cbn [GenAI.and_then]. intros Hrest.
    destruct (Hx _ Ex) as [y ->]. destruct (IHd Hrest) as [ys ->].
    by exists ((k, y) :: ys).
Qed.

(** A failure of the check is a TypeError that names a place at or below the
    path the check started from. *)
Lemma assert_raise_names_path (obj : loaded) : forall path e,
  _assert_valid_config_types obj path = Raise e ->
  exists below type_name, e = invalid_type (path +:+ below) type_name.
Proof.
  induction obj as [v | t | l IH | d IH] using loaded_nested_ind; intros path e.
  - discriminate.
  - intros [= <-]. exists "", t. by rewrite append_empty.
  - rewrite assert_list. generalize 0%nat.
    induction IH as [|x l Hx _ IHl]; intros i; [discriminate |].
    cbn [items_from].
    destruct (_assert_valid_config_types x _) as [[]|e'] eqn:Ex; cbn [GenAI.and_then].
    + apply IHl.
    + intros [= <-]. destruct (Hx _ _ Ex) as (below & t & ->).
      exists ("[" +:+ pretty i +:+ "]" +:+ below), t.
      f_equal. by rewrite !append_assoc.
  - rewrite assert_dict.
    induction IH as [|[k x] d Hx _ IHd]; [discriminate |].
    cbn [entries_of]. simpl in Hx.
    destruct (_assert_valid_config_types x _) as [[]|e'] eqn:Ex; cbn [GenAI.and_then].
    + apply IHd.
    + intros [= <-]. destruct (Hx _ _ Ex) as (below & t & ->).
      exists ("['" +:+ k +:+ "']" +:+ below), t.
      f_equal. by rewrite !append_assoc.
Qed.

End ConfigFacts.

(** X22.  A value that starts with [${] and ends with [}] is taken as one
    reference: [resolve_env_vars] looks up the whole text between the outer
    braces as one variable name and, when no such variable is set, leaves the
    value as written.  The template substitution is not consulted, so a value
    such as [${HOST}:${PORT}] is never filled in piece by piece. *)
Theorem reference_shaped_value_is_one_lookup environ safe_substitute (name : string) :
  Config.resolve_env_vars environ safe_substitute (Config.LScalar (SStr ("${" +:+ name +:+ "}")))
  = Config.LScalar (SStr (default ("${" +:+ name +:+ "}") (environ !! name))).
Proof.
  cbn [Config.resolve_env_vars]. by rewrite ConfigFacts.resolve_str_reference.
Qed.

Example two_references_in_one_value_stay_unresolved :
  Config.resolve_env_vars Config.host_and_port (fun _ _ => "example.org:587")
    (Config.LScalar (SStr "${HOST}:${PORT}"))
  = Config.LScalar (SStr "${HOST}:${PORT}").
Proof. exact (reference_shaped_value_is_one_lookup _ _ "HOST}:${PORT"). Qed.

(** X23.  [_assert_valid_config_types] accepts a loaded value exactly if it is built
    from scalars, lists and mappings only, at every depth; otherwise it raises
    a TypeError whose message names a place at or below the path it was
    given. *)
Theorem config_check_accepts_plain_trees_only (obj : Config.loaded) (path : string) :
  (Config._assert_valid_config_types obj path = Ok tt <-> exists y, obj = Config.of_yaml y)
  /\ (forall e, Config._assert_valid_config_types obj path = Raise e ->
        exn_kind e = TypeError
        /\ exists below type_name,
             exn_msg e = "Invalid type in config at " +:+ (path +:+ below) +:+ ": " +:+ type_name).
Proof.
  split; [split |].
  - apply ConfigFacts.assert_ok_shape.
  - intros [y ->]. apply ConfigFacts.assert_ok_of_yaml.
  - intros e He. destruct (ConfigFacts.assert_raise_names_path _ _ _ He) as (below & t & ->).
    split; [reflexivity |]. by exists below, t.
Qed.

Example date_in_a_list_is_reported_with_its_path :
  Config._assert_valid_config_types Config.dated_config "config"
  = Raise (mkExn TypeError
      "Invalid type in config at config['onedrive']['folders'][1]: <class 'datetime.date'>").
Proof. reflexivity. Qed.

(** X24.  Whatever [get_config] returns is the loaded file with its strings
    resolved, and is a tree of scalars, lists and mappings; a failure to load
    the file is passed on unchanged. *)
Theorem get_config_returns_a_checked_tree environ safe_substitute
    (safe_load : result Config.loaded) (config : Config.loaded) :
  Config.get_config environ safe_substitute safe_load = Ok config ->
  exists raw_config y,
    safe_load = Ok raw_config
    /\ config = Config.resolve_env_vars environ safe_substitute raw_config
    /\ config = Config.of_yaml y.
Proof.
  unfold Config.get_config. destruct safe_load as [raw|e]; [|discriminate].
  cbn [GenAI.and_then].
  destruct (Config._assert_valid_config_types _ _) as [[]|e] eqn:Hcheck; [|discriminate].
  cbn [GenAI.and_then]. intros [= <-].
  destruct (ConfigFacts.assert_ok_shape _ _ Hcheck) as [y Hy].
  by exists raw, y.
Qed.

Lemma get_config_returns_a_checked_tree_witness :
  exists raw_config y,
    Ok Config.small_config = Ok raw_config
    /\ Config.LDict [("email", Config.LDict [("smtp_server", Config.LScalar (SStr "example.org"))]);
                     ("days", Config.LList [Config.LScalar (SStr "monday")])]
       = Config.resolve_env_vars Config.host_and_port Config.known_names raw_config
    /\ Config.LDict [("email", Config.LDict [("smtp_server", Config.LScalar (SStr "example.org"))]);
                     ("days", Config.LList [Config.LScalar (SStr "monday")])]
       = Config.of_yaml y.
Proof.
  apply (get_config_returns_a_checked_tree Config.host_and_port Config.known_names
           (Ok Config.small_config)).
  vm_compute. reflexivity.
Defined.

(** ** A row after its news stage *)

Lemma wp_any {St A : Type} (m : M St A)
    (Q : result A -> list event -> world St -> Prop) h (w : world St) :
  (forall r evs w', Q r (evs ++ h) w') -> wp m Q h w.
Proof. intros H. apply H. Qed.

(** With a readable [email] section [send_error] returns. *)
Lemma wp_send_error_ok {St : Type} (env : Env St) subject body config
    (Q : result unit -> list event -> world St -> Prop) h (w : world St) :
  is_ok (email_provider config) = true ->
  (forall evs w', Forall transport_event evs -> same_process w w' ->
                  Q (Ok tt) (evs ++ SendError subject body :: h) w') ->
  wp (send_error env subject body config) Q h w.
Proof.
  intros Hcfg HQ.
  destruct (send_error_returns env subject body config w Hcfg)
    as (w' & evs & Heq & Hev & HR & _).
  unfold wp. rewrite Heq. simpl. rewrite <- app_assoc. apply HQ; [|done].
  by apply Forall_rev.
Qed.

Lemma wp_send_confirmation_ok {St : Type} (env : Env St) subject body config
    (Q : result unit -> list event -> world St -> Prop) h (w : world St) :
  is_ok (email_provider config) = true ->
  (forall evs w', Forall transport_event evs -> same_process w w' ->
                  Q (Ok tt) (evs ++ SendConfirmation subject body :: h) w') ->
  wp (send_confirmation env subject body config) Q h w.
Proof.
  intros Hcfg HQ.
  destruct (send_confirmation_returns env subject body config w Hcfg)
    as (w' & evs & Heq & Hev & HR & _).
  unfold wp. rewrite Heq. simpl. rewrite <- app_assoc. apply HQ; [|done].
  by apply Forall_rev.
Qed.

(** One step of a run of the sheet workflow under a readable [email]
    section [Hcfg]: the notifications return, a write to the sheet is known
    by its events. *)
Ltac row_step Hcfg :=
  lazymatch goal with
  | |- wp (send_error _ _ _ _) _ _ _ =>
      apply wp_send_error_ok; [exact Hcfg | intros ? ? ? _]
  | |- wp (send_confirmation _ _ _ _) _ _ _ =>
      apply wp_send_confirmation_ok; [exact Hcfg | intros ? ? ? _]
  | |- wp (ExcelMonitor.patch_column _ _ ?idx _) _ _ _ =>
      apply (wp_safe (patch_event idx) same_process);
      [apply patch_column_events | intros ? ? ? ? _]
  | |- _ => wp_step
  end; cbn beta iota.

(** An event that is in the history by its place in it. *)
Ltac in_history :=
  solve [ repeat first [ apply in_eq | apply in_cons | (apply in_or_app; right) ] ].

(** What membership in a history says, segment by segment: an event of a
    segment known only by the kind of its events is of that kind. *)
Ltac in_inv H :=
  lazymatch type of H with
  | In _ (_ ++ _) => apply in_app_or in H as [H|H]; in_inv H
  | In _ (_ :: _) => destruct H as [H|H]; [try discriminate H | in_inv H]
  | In _ [] => destruct H
  | In ?ev ?evs =>
      try match goal with
      | HF : Forall _ evs |- _ =>
          let H' := fresh "H" in
          pose proof (proj1 (Forall_forall _ evs) HF ev
                        (proj2 (list_elem_of_In evs ev) H)) as H';
          simpl in H'; first [contradiction | lia | idtac]
      end
  | _ => idtac
  end.

(** Whatever follows only adds to the history. *)
Ltac wp_skip :=
  repeat first
    [ apply wp_any; intros ? ? ?
    | progress cbn beta iota
    | match goal with |- match ?r with _ => _ end => destruct r end ].

(** Step until the history holds what [fin] looks for. *)
Ltac eventually_with Hcfg step fin :=
  first
    [ solve [ wp_skip; fin ]
    | solve [ exfalso; congruence ]
    | step; eventually_with Hcfg step fin
    | row_step Hcfg; eventually_with Hcfg step fin ].

Ltac eventually Hcfg fin := eventually_with Hcfg fail fin.

Section RowRuns.
Context {St : Type} (env : Env St) (config : yaml).
Hypothesis Hcfg : is_ok (email_provider config) = true.

Lemma remaining_starts idx content target_group news h w :
  wp (row_guard env config idx content
        (stages_after_news env config idx content target_group news))
    (fun _ h' _ =>
       exists ok hh, h' = hh ++ InstagramGeneration content target_group news ok :: h)
    h w.
Proof.
  unfold row_guard, stages_after_news.
  do 6 row_step Hcfg.
  all: wp_skip; eexists _, _; rewrite ?app_assoc; reflexivity.
Qed.

Lemma remaining_writes_instagram idx content target_group news h w :
  wp (row_guard env config idx content
        (stages_after_news env config idx content target_group news))
    (fun _ h' _ => exists caption ok, In (WriteInstagram idx caption ok) h') h w.
Proof.
  unfold row_guard, stages_after_news, write_stages,
    ExcelMonitor.write_instagram_post.
  eventually Hcfg ltac:(eexists _, _; in_history).
Qed.

Lemma remaining_requests_linkedin idx content target_group news h w :
  wp (row_guard env config idx content
        (stages_after_news env config idx content target_group news))
    (fun _ h' _ => exists ok, In (LinkedInGeneration content target_group news ok) h')
    h w.
Proof.
  unfold row_guard, stages_after_news, write_stages, linkedin_stage,
    ExcelMonitor.write_instagram_post.
  eventually Hcfg ltac:(eexists; in_history).
Qed.

Lemma remaining_writes_linkedin idx content target_group news post h w :
  (forall s, exists s',
      generate_linkedin_post env content target_group news s = (Ok post, s')) ->
  nonempty post = true ->
  wp (row_guard env config idx content
        (stages_after_news env config idx content target_group news))
    (fun _ h' _ => exists ok, In (WriteLinkedIn idx post ok) h') h w.
Proof.
  intros Hgen Hpost.
  unfold row_guard, stages_after_news, write_stages, linkedin_stage,
    ExcelMonitor.write_instagram_post, ExcelMonitor.write_linkedin_post.
  eventually_with Hcfg
    ltac:(idtac;
          lazymatch goal with
          | |- wp (call (generate_linkedin_post _ _ _ _) _) _ _ ?w0 =>
              let Hs := fresh "Hs" in
              let Ho := fresh "Ho" in
              apply wp_call; intros ? ? Ho;
              destruct (Hgen (outside w0)) as [? Hs];
              rewrite Hs in Ho; injection Ho as <- <-; cbn beta iota;
              rewrite ?Hpost
          end)
    ltac:(eexists; in_history).
Qed.

Lemma remaining_marks idx content target_group news w :
  wp (row_guard env config idx content
        (stages_after_news env config idx content target_group news))
    (fun _ h' _ =>
       forall caption ok text,
         In (WriteInstagram idx caption ok) h' ->
         nonempty caption = true ->
         In (WriteLinkedIn idx text true) h' ->
         exists b, In (MarkProcessed idx b) h') [] w.
Proof.
  unfold row_guard, stages_after_news, write_stages, linkedin_stage,
    completion_stage, ExcelMonitor.write_instagram_post,
    ExcelMonitor.write_linkedin_post, ExcelMonitor.mark_row_processed.
  repeat row_step Hcfg.
  all: intros caption0 ok0 text0 Hi Hne Hl.
  all: in_inv Hi; in_inv Hl; simplify_eq.
  all: try (eexists; in_history).
  all: try (rewrite Hne in *; simpl in *; discriminate).
Qed.

Lemma in_history_events (ev : event) (evs : list event) :
  In ev (rev evs ++ []) <-> In ev evs.
Proof. rewrite app_nil_r. symmetry. apply in_rev. Qed.

End RowRuns.

(** C7 (as amended).  With a readable [email] section, when the news search
    raises for a row with content, one failure notification is sent, the
    news stage returns the empty list, the row returns and the loop takes
    the next row.  What the row does after the news stage begins with the
    request for the Instagram text on the empty article list; a caption is
    handed to the Instagram write; the LinkedIn text is requested on the
    empty list and, when the model answers with a text that is not empty,
    handed to the LinkedIn write; and the row is marked when a caption that
    is not empty was handed to the Instagram write and a LinkedIn write
    returned.  A row whose search returns the empty list and leaves the
    outside world as the failed search and its notification did produces the
    same events after its news stage and ends in the same state. *)
Theorem news_failure_does_not_abort_row {St : Type} (env : Env St) (config : yaml)
    (idx : nat) (r : ExcelMonitor.row) (rows : list ExcelMonitor.row)
    (w : world St) (e : exn) (s1 : St) :
  is_ok (email_provider config) = true ->
  truthy (row_content r) = true ->
  fetch_news_articles env (row_content r) (row_target_group r) (outside w)
    = (Raise e, s1) ->
  let content := row_content r in
  let target_group := row_target_group r in
  let start :=
    [Log DEBUG "Processing Excel row {idx}: {row}";
     Log INFO "Processing Excel row {idx}: content='{content}', target_group='{target_group}'"] in
  exists body evs_n w2 w3 evs_rest,
    let news_events :=
      [NewsFetch content target_group false;
       Log ERROR "Failed to fetch news articles for content '{content}': {e}";
       SendError "Susi Excel Workflow: News Fetch Failed" body] ++ evs_n in
    Forall transport_event evs_n
    /\ failure_notifications news_events = 1%nat
    /\ news_stage env config content target_group w = (Ok [], w2, news_events)
    /\ process_row env config idx r w = (Ok tt, w3, start ++ news_events ++ evs_rest)
    /\ for_rows env config idx (r :: rows) w
       = after (start ++ news_events ++ evs_rest)
           (for_rows env config (S idx) rows w3)
    /\ (exists ok evs',
          evs_rest = InstagramGeneration content target_group [] ok :: evs')
    /\ (exists caption ok, In (WriteInstagram idx caption ok) evs_rest)
    /\ (exists ok, In (LinkedInGeneration content target_group [] ok) evs_rest)
    /\ (forall post,
          (forall s, exists s',
              generate_linkedin_post env content target_group [] s = (Ok post, s')) ->
          nonempty post = true ->
          exists ok, In (WriteLinkedIn idx post ok) evs_rest)
    /\ (forall caption ok text,
          In (WriteInstagram idx caption ok) evs_rest ->
          nonempty caption = true ->
          In (WriteLinkedIn idx text true) evs_rest ->
          exists b, In (MarkProcessed idx b) evs_rest)
    /\ (forall w' s',
          fetch_news_articles env content target_group (outside w') = (Ok [], s') ->
          mkWorld s' (seen_ids w') (day_jobs w') (scheduled w') = w2 ->
          process_row env config idx r w'
          = (Ok tt, w3,
             start ++
             [NewsFetch content target_group true;
              Log INFO "Fetched {len(news_articles)} news articles for content '{content}'."]
             ++ evs_rest)).
Proof.
  intros Hcfg Hc Hf content target_group start.
  assert (Hrow : forall w0 news w1 evs1,
             news_stage env config content target_group w0 = (Ok news, w1, evs1) ->
             process_row env config idx r w0
             = after (start ++ evs1)
                 (row_guard env config idx content
                    (stages_after_news env config idx content target_group news) w1)).
  { intros w0 news w1 evs1 Hn. unfold process_row.
    rewrite Hc. simpl negb. cbv iota.
    erewrite bind_after by reflexivity.
    erewrite row_guard_prefix by reflexivity.
    erewrite row_guard_prefix by exact Hn.
    rewrite !after_after. reflexivity. }
  destruct (news_stage_failure env config content target_group w e s1 Hcfg Hf)
    as (body & evs_n & w2 & Hn & Hev & _).
  destruct (row_guard_returns env config idx content
              (stages_after_news env config idx content target_group []) w2 Hcfg)
    as (w3 & evs_rest & Hrest).
  pose proof (remaining_starts env config idx content target_group [] [] w2)
    as Hstart.
  pose proof (remaining_writes_instagram env config Hcfg idx content target_group []
                [] w2) as Hwi.
  pose proof (remaining_requests_linkedin env config Hcfg idx content target_group []
                [] w2) as Hlg.
  pose proof (fun post Hgen Hpost =>
                remaining_writes_linkedin env config Hcfg idx content target_group []
                  post [] w2 Hgen Hpost) as Hwl.
  pose proof (remaining_marks env config Hcfg idx content target_group [] w2) as Hmark.
  unfold wp in Hstart, Hwi, Hlg, Hwl, Hmark. rewrite Hrest in *. cbn [fst snd] in *.
  exists body, evs_n, w2, w3, evs_rest. cbv zeta.
  assert (Hp : process_row env config idx r w
               = (Ok tt, w3,
                  start ++
                  ([NewsFetch content target_group false;
                    Log ERROR "Failed to fetch news articles for content '{content}': {e}";
                    SendError "Susi Excel Workflow: News Fetch Failed" body] ++ evs_n)
                  ++ evs_rest)).
  { rewrite (Hrow _ _ _ _ Hn). rewrite Hrest. unfold after, start. f_equal. }
  split; [done|]. split.
  { rewrite failure_notifications_app, (failure_notifications_transport evs_n Hev).
    reflexivity. }
  split; [done|]. split; [done|]. split.
  { cbn [for_rows]. erewrite bind_after by exact Hp. reflexivity. }
  split.
  { destruct Hstart as (ok & hh & Hh). exists ok, (rev hh).
    rewrite app_nil_r in Hh. apply (f_equal (@rev event)) in Hh.
    rewrite rev_involutive in Hh. rewrite Hh, rev_app_distr. reflexivity. }
  split.
  { destruct Hwi as (caption & ok & Hin). exists caption, ok.
    by apply in_history_events. }
  split.
  { destruct Hlg as (ok & Hin). exists ok. by apply in_history_events. }
  split.
  { intros post Hgen Hpost. destruct (Hwl post Hgen Hpost) as (ok & Hin).
    exists ok. by apply in_history_events. }
  split.
  { intros caption ok text Hi Hne Hl.
    destruct (Hmark caption ok text) as (b & Hin);
      [by apply in_history_events|done|by apply in_history_events|].
    exists b. by apply in_history_events. }
  intros w' s' Hf' Hw'.
  rewrite (Hrow w' [] w2
             [NewsFetch content target_group true;
              Log INFO "Fetched {len(news_articles)} news articles for content '{content}'."]).
  - rewrite Hrest. unfold after. reflexivity.
  - rewrite <- Hw'. by apply news_stage_success.
Qed.

(** The search is down for the one open row of the sheet, and finds nothing
    once it is back: the row that met the failure and a row that meets the
    empty result go on in the same way. *)
Lemma news_failure_does_not_abort_row_witness :
  is_ok (email_provider (demo_config "gmail")) = true
  /\ truthy (row_content open_row) = true
  /\ fetch_news_articles recovering_news_env (row_content open_row)
       (row_target_group open_row) false = (Raise down, true)
  /\ exists body evs_n w3 evs_rest,
      process_row recovering_news_env (demo_config "gmail") 0 open_row
        (mkWorld false ∅ [] [])
      = (Ok tt, w3,
         [Log DEBUG "Processing Excel row {idx}: {row}";
          Log INFO "Processing Excel row {idx}: content='{content}', target_group='{target_group}'"]
         ++ ([NewsFetch (row_content open_row) (row_target_group open_row) false;
              Log ERROR "Failed to fetch news articles for content '{content}': {e}";
              SendError "Susi Excel Workflow: News Fetch Failed" body] ++ evs_n)
         ++ evs_rest)
      /\ process_row recovering_news_env (demo_config "gmail") 0 open_row
           (mkWorld true ∅ [] [])
         = (Ok tt, w3,
            [Log DEBUG "Processing Excel row {idx}: {row}";
             Log INFO "Processing Excel row {idx}: content='{content}', target_group='{target_group}'"]
            ++ [NewsFetch (row_content open_row) (row_target_group open_row) true;
                Log INFO "Fetched {len(news_articles)} news articles for content '{content}'."]
            ++ evs_rest)
      /\ (exists caption ok, In (WriteInstagram 0 caption ok) evs_rest)
      /\ (exists ok, In (WriteLinkedIn 0 "LinkedIn post (mocked)" ok) evs_rest).
Proof.
  split; [reflexivity|]. split; [reflexivity|]. split; [reflexivity|].
  destruct (news_failure_does_not_abort_row recovering_news_env (demo_config "gmail")
              0 open_row [] (mkWorld false ∅ [] []) down true eq_refl eq_refl eq_refl)
    as (body & evs_n & w2 & w3 & evs_rest & _ & _ & Hnews & Hrow & _ & _ & Hwi & _
        & Hwl & _ & Hsame).
  assert (Hw2 : mkWorld true ∅ [] [] = w2).
  { apply (f_equal (fun x => x.1.2)) in Hnews. simpl in Hnews. rewrite <- Hnews.
    reflexivity. }
  exists body, evs_n, w3, evs_rest.
  split; [exact Hrow|]. split; [exact (Hsame (mkWorld true ∅ [] []) true eq_refl Hw2)|].
  split; [exact Hwi|].
  exact (Hwl "LinkedIn post (mocked)" (fun s => ex_intro _ s eq_refl) eq_refl).
Defined.

(** C7 as stated fails.  The configuration has no [email] section and the
    news search is down for the first of two open rows: [send_error] raises
    in the handler of the news stage and again in the handler of the row, so
    two notifications are entered, no Instagram text is requested, the
    exception leaves the loop and the second row is never looked at. *)
Lemma news_failure_without_email_section_aborts_the_row :
  let x := for_rows news_down_env config_without_email 0 [open_row; open_row]
             demo_world in
  In (NewsFetch (SStr "AI in Healthcare") (SStr "Doctors") false) x.2
  /\ (exists e, x.1.1 = Raise e /\ exn_kind e = KeyError)
  /\ failure_notifications x.2 = 2%nat
  /\ (forall c t a ok, ~ In (InstagramGeneration c t a ok) x.2)
  /\ occurrences (fun ev => match ev with NewsFetch _ _ _ => true | _ => false end) x.2
     = 1%nat.
Proof.
  cbv zeta. split; [vm_compute; tauto|]. split; [eexists; split; reflexivity|].
  split; [reflexivity|]. split; [|reflexivity].
  intros c t a ok H. vm_compute in H.
  repeat (destruct H as [H|H]; [discriminate H|]). exact H.
Qed.

(** ** The rows and the cells of a whole run *)

Section SheetCells.
Context {St : Type} (env : Env St) (config : yaml).

Lemma cell_of_row (c idx : nat) :
  ExcelMonitor.cell_of c idx = mkAddress (65 + c) (idx + 2).
Proof. unfold ExcelMonitor.cell_of. f_equal. lia. Qed.

(** A write function that gets the token and the sheet patches one cell: the
    one in the column of its name and in row [idx + 2]. *)
Lemma patch_column_run column idx value w tok s s' header rest c :
  get_access_token env (outside w) = (Ok tok, s) ->
  graph_get_used_range env s = (Ok (header :: rest), s') ->
  ExcelMonitor.header_index column header = Some c ->
  exists ok,
    (ExcelMonitor.patch_column env column idx value w).2
    = [TokenRequest true; UsedRangeGet true;
       RangePatch (mkAddress (65 + c) (idx + 2)) value ok].
Proof.
  intros Htoken Hrange Hcol.
  unfold ExcelMonitor.patch_column, bind, call, lift. rewrite Htoken. simpl.
  rewrite Hrange. simpl. rewrite Hcol. simpl. rewrite cell_of_row.
  destruct (graph_patch_range env _ value s') as [r s3]. simpl. by exists (is_ok r).
Qed.

(** With a readable [email] section the loop body returns. *)
Lemma process_row_returns idx r w :
  is_ok (email_provider config) = true ->
  exists w' evs, process_row env config idx r w = (Ok tt, w', evs).
Proof.
  intros Hcfg. unfold process_row. erewrite bind_after by reflexivity.
  match goal with
  | |- context [row_guard env config idx ?c ?body w] =>
      destruct (row_guard_returns env config idx c body w Hcfg) as (w' & evs & ->)
  end.
  simpl. eauto.
Qed.

(** The loop runs its body once per row, with the indices [idx], [idx + 1],
    ..., and stops early only when the body raises. *)
Lemma for_rows_runs rows : forall idx w,
  exists runs,
    (for_rows env config idx rows w).2 = concat runs
    /\ (length runs <= length rows)%nat
    /\ (is_ok (email_provider config) = true -> length runs = length rows)
    /\ forall i evs_i,
         runs !! i = Some evs_i ->
         exists r w_i,
           rows !! i = Some r /\ evs_i = (process_row env config (idx + i) r w_i).2.
Proof.
  induction rows as [|r rows IH]; intros idx w.
  - exists []. simpl. split; [done|]. split; [lia|]. split; [done|]. by intros [|i].
  - cbn [for_rows]. unfold bind.
    destruct (process_row env config idx r w) as [[[u|e] w1] evs1] eqn:Hp.
    + destruct (IH (S idx) w1) as (runs & Hev & Hlen & Hfull & Hall).
      exists (evs1 :: runs).
      destruct (for_rows env config (S idx) rows w1) as [[r2 w2] evs2].
      simpl in *. split; [by rewrite Hev|]. split; [lia|].
      split; [intros Hcfg; by rewrite Hfull|].
      intros [|i] evs_i Hi; simpl in Hi.
      * injection Hi as <-. exists r, w. rewrite Nat.add_0_r, Hp. done.
      * destruct (Hall i evs_i Hi) as (r' & w_i & Hr' & ->).
        exists r', w_i. by replace (idx + S i)%nat with (S idx + i)%nat by lia.
    + exists [evs1]. simpl. split; [by rewrite app_nil_r|]. split; [lia|].
      split.
      { intros Hcfg. destruct (process_row_returns idx r w Hcfg) as (w' & evs & Hq).
        congruence. }
      intros [|i] evs_i Hi; simpl in Hi; [|done].
      injection Hi as <-. exists r, w. rewrite Nat.add_0_r, Hp. done.
Qed.

(** A row with content, handled while the token and the sheet can be had:
    its caption is written to the Instagram cell of row [idx + 2]. *)
Lemma process_row_writes_instagram idx r header c h w :
  is_ok (email_provider config) = true ->
  (forall s, is_ok (get_access_token env s).1 = true) ->
  (forall s, exists rest s',
      graph_get_used_range env s = (Ok (header :: rest), s')) ->
  ExcelMonitor.header_index "Instagram" header = Some c ->
  truthy (row_content r) = true ->
  wp (process_row env config idx r)
    (fun _ h' _ =>
       exists caption ok,
         In (WriteInstagram idx caption ok) h'
         /\ In (RangePatch (ExcelMonitor.cell_of c idx) caption ok) h') h w.
Proof.
  intros Hcfg Htok Hrange Hcol Hc.
  unfold process_row, row_guard, news_stage, stages_after_news, write_stages,
    ExcelMonitor.write_instagram_post, ExcelMonitor.patch_column.
  rewrite Hc. cbn [negb].
  eventually_with Hcfg
    ltac:(idtac;
          lazymatch goal with
          | |- wp (call (get_access_token _) _) _ _ ?w0 =>
              let Ho := fresh "Ho" in
              let Ht := fresh "Ht" in
              apply wp_call; intros [?|?] ? Ho;
              pose proof (Htok (outside w0)) as Ht; rewrite Ho in Ht;
              [|discriminate Ht]; cbn beta iota
          | |- wp (call (graph_get_used_range _) _) _ _ ?w0 =>
              let Ho := fresh "Ho" in
              let Hs := fresh "Hs" in
              apply wp_call; intros ? ? Ho;
              destruct (Hrange (outside w0)) as (? & ? & Hs);
              rewrite Hs in Ho; injection Ho as <- <-; cbn beta iota
          | |- wp (lift _) _ _ _ => rewrite ?Hcol; apply wp_lift; cbn beta iota
          end)
    ltac:(eexists _, _; split; in_history).
Qed.

End SheetCells.

Lemma rows_of_values_filter (header : list scalar) (data : list (list scalar)) :
  ExcelMonitor.rows_of_values (header :: data)
  = List.filter ExcelMonitor.unprocessed (map (fun r => combine header r) data).
Proof. unfold ExcelMonitor.rows_of_values. by destruct data. Qed.

Lemma unprocessed_positions_length (header : list scalar) :
  forall (data : list (list scalar)) (pos : nat),
    length (ExcelMonitor.unprocessed_positions header data pos)
    = length (List.filter ExcelMonitor.unprocessed
                (map (fun r => combine header r) data)).
Proof.
  induction data as [|r data IH]; intros pos; [done|].
  cbn [ExcelMonitor.unprocessed_positions map List.filter].
  destruct (ExcelMonitor.unprocessed (combine header r)); simpl; by rewrite IH.
Qed.

(** C5.  A run of [process_excel_topics] that gets the token and reads the
    sheet [header :: data].  [get_excel_rows] returns the unprocessed rows
    only; the row with index [idx] in that list is the data row at some
    position [p >= idx], that is sheet row [p + 2], and [idx = p] exactly when
    every data row before it is unprocessed.  The run is the start, then one
    run of the loop body for each fetched row in turn, with the indices 0, 1,
    2, ...  Every cell that the body patches for index [idx] lies in sheet
    row [idx + 2]: each of the three write functions patches the cell of its
    column in that row, and a row with content has its caption written
    there.  So the row written is the row fetched exactly when no processed
    row precedes it, and differs as soon as one does. *)
Theorem writes_address_filtered_index {St : Type} (env : Env St) (config : yaml)
    (header : list scalar) (data : list (list scalar)) (w : world St)
    (tok : scalar) (s0 s1 : St) :
  get_access_token env (outside w) = (Ok tok, s0) ->
  graph_get_used_range env s0 = (Ok (header :: data), s1) ->
  let rows := ExcelMonitor.rows_of_values (header :: data) in
  let evs := (process_excel_topics env config w).2 in
  ExcelMonitor.get_excel_rows env w
    = (Ok rows, mkWorld s1 (seen_ids w) (day_jobs w) (scheduled w),
       [TokenRequest true; UsedRangeGet true])
  /\ length (ExcelMonitor.unprocessed_positions header data 0) = length rows
  /\ (forall idx p,
        ExcelMonitor.unprocessed_positions header data 0 !! idx = Some p ->
        (exists cells,
            data !! p = Some cells /\ rows !! idx = Some (combine header cells))
        /\ (idx <= p)%nat
        /\ (idx = p
            <-> Forall (fun r => ExcelMonitor.unprocessed (combine header r) = true)
                  (take p data))
        /\ (Exists (fun r => ExcelMonitor.unprocessed (combine header r) = false)
              (take p data) ->
            (idx + 2 <> p + 2)%nat))
  /\ (exists runs,
        evs = [Log INFO "Starting Excel-driven topic processing.";
               TokenRequest true; UsedRangeGet true]
              ++ concat runs
              ++ match rows with
                 | [] => [Log INFO "No new topics found in Excel file."]
                 | _ :: _ => []
                 end
        /\ (length runs <= length rows)%nat
        /\ (is_ok (email_provider config) = true -> length runs = length rows)
        /\ forall idx evs_i,
             runs !! idx = Some evs_i ->
             exists r w_i,
               rows !! idx = Some r /\ evs_i = (process_row env config idx r w_i).2)
  /\ (forall idx r w' a value ok,
        In (RangePatch a value ok) (process_row env config idx r w').2 ->
        row_number a = (idx + 2)%nat)
  /\ (forall idx text (m : M St unit) column value w' tok' s' s'' header' rest c,
        In (m, column, value)
           [(ExcelMonitor.write_instagram_post env idx text, "Instagram", text);
            (ExcelMonitor.write_linkedin_post env idx text, "LinkedIn", text);
            (ExcelMonitor.mark_row_processed env idx, "processed", "x")] ->
        get_access_token env (outside w') = (Ok tok', s') ->
        graph_get_used_range env s' = (Ok (header' :: rest), s'') ->
        ExcelMonitor.header_index column header' = Some c ->
        exists ok,
          (m w').2
          = [TokenRequest true; UsedRangeGet true;
             RangePatch (mkAddress (65 + c) (idx + 2)) value ok])
  /\ (is_ok (email_provider config) = true ->
      (forall s, is_ok (get_access_token env s).1 = true) ->
      (forall s, exists rest s',
          graph_get_used_range env s = (Ok (header :: rest), s')) ->
      forall idx r c,
        rows !! idx = Some r ->
        truthy (row_content r) = true ->
        ExcelMonitor.header_index "Instagram" header = Some c ->
        exists caption ok,
          In (WriteInstagram idx caption ok) evs
          /\ In (RangePatch (mkAddress (65 + c) (idx + 2)) caption ok) evs).
Proof.
  intros Htoken Hrange rows evs.
  assert (Hfetch : ExcelMonitor.get_excel_rows env w
                   = (Ok rows, mkWorld s1 (seen_ids w) (day_jobs w) (scheduled w),
                      [TokenRequest true; UsedRangeGet true])).
  { unfold ExcelMonitor.get_excel_rows, bind, call, ret. rewrite Htoken. simpl.
    rewrite Hrange. reflexivity. }
  assert (Hruns : exists runs,
             evs = [Log INFO "Starting Excel-driven topic processing.";
                    TokenRequest true; UsedRangeGet true]
                   ++ concat runs
                   ++ match rows with
                      | [] => [Log INFO "No new topics found in Excel file."]
                      | _ :: _ => []
                      end
             /\ (length runs <= length rows)%nat
             /\ (is_ok (email_provider config) = true -> length runs = length rows)
             /\ forall idx evs_i,
                  runs !! idx = Some evs_i ->
                  exists r w_i,
                    rows !! idx = Some r
                    /\ evs_i = (process_row env config idx r w_i).2).
  { unfold evs, process_excel_topics.
    erewrite bind_after by reflexivity. erewrite bind_after by exact Hfetch.
    destruct rows as [|r0 rows0] eqn:Hrows.
    - exists []. simpl. split; [done|]. split; [lia|]. split; [done|]. by intros [|i].
    - destruct (for_rows_runs env config (r0 :: rows0) 0
                  (mkWorld s1 (seen_ids w) (day_jobs w) (scheduled w)))
        as (runs & Hev & Hlen & Hfull & Hall).
      exists runs.
      destruct (for_rows env config 0 (r0 :: rows0) _) as [[r2 w2] evs2].
      simpl in *. rewrite Hev, app_nil_r. done. }
  split; [exact Hfetch|]. split.
  { unfold rows. rewrite rows_of_values_filter. apply unprocessed_positions_length. }
  split.
  { intros idx p Hp.
    destruct (unprocessed_positions_spec header data 0 idx p Hp) as (Hle & Hget & Hiff).
    rewrite Nat.sub_0_r in Hget, Hiff. simpl in Hle, Hiff.
    assert (Hsome : is_Some (rows !! idx)).
    { apply lookup_lt_is_Some. unfold rows.
      rewrite rows_of_values_filter, <- (unprocessed_positions_length header data 0).
      by eapply lookup_lt_Some. }
    assert (Hrows : rows !! idx = (fun r => combine header r) <$> data !! p).
    { unfold rows. rewrite rows_of_values_filter. exact Hget. }
    destruct Hsome as [r Hr]. pose proof (eq_trans (eq_sym Hrows) Hr) as Hr'.
    destruct (data !! p) as [cells|] eqn:Hcells; [|discriminate Hr'].
    split; [exists cells; split; [reflexivity|exact Hrows]|]. split; [lia|].
    split; [split; [intros ->; by apply Hiff|intros H; symmetry; by apply Hiff]|].
    intros Hex Heq. assert (p = idx) as Hpi by lia. apply Hiff in Hpi.
    apply Exists_exists in Hex as (r1 & Hr1 & Hproc).
    rewrite Forall_forall in Hpi. apply Hpi in Hr1. congruence. }
  split; [exact Hruns|]. split.
  { intros idx r w' a value ok Hin.
    destruct (process_row_safe env config idx r w') as [Hev _].
    rewrite Forall_forall in Hev. apply list_elem_of_In, Hev in Hin. exact Hin. }
  split.
  { intros idx text m column value w' tok' s' s'' header' rest c Hm Ht Hr Hc.
    destruct Hm as [[= <- <- <-]|[[= <- <- <-]|[[= <- <- <-]|[]]]];
      by eapply patch_column_run. }
  intros Hcfg Htok Hsheet idx r c Hr Hc Hcol.
  destruct Hruns as (runs & Hevs & _ & Hfull & Hall).
  assert (Hsome : is_Some (runs !! idx)).
  { apply lookup_lt_is_Some. rewrite (Hfull Hcfg). by eapply lookup_lt_Some. }
  destruct Hsome as (evs_i & Hi).
  destruct (Hall idx evs_i Hi) as (r' & w_i & Hr' & Hevs_i).
  assert (r' = r) as -> by congruence.
  pose proof (process_row_writes_instagram env config idx r header c [] w_i
                Hcfg Htok Hsheet Hcol Hc) as Hw.
  unfold wp in Hw. destruct Hw as (caption & ok & Hwi & Hrp).
  apply (proj1 (in_history_events _ _)) in Hwi, Hrp. rewrite cell_of_row in Hrp.
  rewrite <- Hevs_i in Hwi, Hrp.
  assert (Hin : forall ev, In ev evs_i -> In ev evs).
  { intros ev Hev. rewrite Hevs. apply in_or_app. right. apply in_or_app. left.
    apply in_concat. exists evs_i. split; [|done].
    apply list_elem_of_In. by eapply list_elem_of_lookup_2. }
  exists caption, ok. split; by apply Hin.
Qed.

(** The sheet holds a processed row before the open one: the open row is
    fetched with index 0 from position 1, that is from sheet row 3, and its
    caption is written to C2, one row too high. *)
Lemma writes_address_filtered_index_witness :
  get_access_token mixed_env (outside demo_world) = (Ok (SStr "token"), tt)
  /\ graph_get_used_range mixed_env tt = (Ok mixed_sheet, tt)
  /\ ExcelMonitor.unprocessed_positions demo_header
       [demo_row "ML" "Nurses" "x"; demo_row "AI" "Doctors" ""] 0 !! 0%nat
     = Some 1%nat
  /\ ExcelMonitor.rows_of_values mixed_sheet !! 0%nat
     = Some (combine demo_header (demo_row "AI" "Doctors" ""))
  /\ (0 + 2 <> 1 + 2)%nat
  /\ exists caption ok,
      In (RangePatch (mkAddress 67 2) caption ok)
         (process_excel_topics mixed_env (demo_config "gmail") demo_world).2.
Proof.
  split; [reflexivity|]. split; [reflexivity|]. split; [reflexivity|].
  destruct (writes_address_filtered_index mixed_env (demo_config "gmail") demo_header
              [demo_row "ML" "Nurses" "x"; demo_row "AI" "Doctors" ""] demo_world
              (SStr "token") tt tt eq_refl eq_refl)
    as (_ & _ & Hpos & _ & _ & _ & Hwrite).
  destruct (Hpos 0%nat 1%nat eq_refl) as ((cells & Hcells & Hrow) & _ & _ & Hne).
  injection Hcells as <-.
  split; [exact Hrow|].
  split; [apply Hne; apply Exists_cons_hd; reflexivity|].
  destruct (Hwrite eq_refl (fun _ => eq_refl)
              (fun s => ex_intro _ _ (ex_intro _ s eq_refl))
              0%nat (combine demo_header (demo_row "AI" "Doctors" "")) 2%nat
              Hrow eq_refl eq_refl)
    as (caption & ok & _ & Hpatch).
  by exists caption, ok.
Defined.
